(** * go-rss-scraper: a shallow embedding of [main.go]

    The program periodically fetches a fixed list of RSS feeds, writes the
    channel ("site") and its items ("articles") to a PostgreSQL store,
    mirrors title and description into Elasticsearch, and deletes articles
    older than three days.

    Go strings are byte sequences: they are modelled by [string], whose
    characters are the 256 byte values.  Unsigned machine integers are
    modelled by [Z] with the bit operations of the source. *)

From Stdlib Require Import ZArith Ascii String List Lia Bool Zbitwise.
From stdpp Require Import gmap strings list fin_maps.

Local Open Scope string_scope.
Local Open Scope Z_scope.

(** ** The library functions the program relies on *)

Module Base64.

(** [encoding/base64]: the URL alphabet of [base64.URLEncoding] and the
    standard padding character. *)
Definition encodeURL : string :=
  "ABCDEFGHIJKLMNOPQRSTUVWXYZabcdefghijklmnopqrstuvwxyz0123456789-_".

Definition StdPadding : ascii := "="%char.

(** [uint(src[i])]: the value of a byte. *)
Definition uint (b : ascii) : Z := Z.of_N (N_of_ascii b).

(** [enc.encode[v]], for an index computed by [... & 0x3F]. *)
Definition encode (v : Z) : ascii :=
  match String.get (Z.to_nat v) encodeURL with
  | Some c => c
  | None => zero
  end.

(** [val := uint(src[si+0])<<16 | uint(src[si+1])<<8 | uint(src[si+2])] *)
Definition val3 (b0 b1 b2 : ascii) : Z :=
  Z.lor (Z.lor (Z.shiftl (uint b0) 16) (Z.shiftl (uint b1) 8)) (uint b2).

(** The remaining small block: [val := uint(src[si+0]) << 16], and
    [val |= uint(src[si+1]) << 8] when two bytes remain. *)
Definition val2 (b0 b1 : ascii) : Z :=
  Z.lor (Z.shiftl (uint b0) 16) (Z.shiftl (uint b1) 8).

Definition val1 (b0 : ascii) : Z := Z.shiftl (uint b0) 16.

(** [val>>k&0x3F] *)
Definition sextet (val k : Z) : Z := Z.land (Z.shiftr val k) 63.

(** [Encoding.Encode] with [EncodeToString]: every three source bytes
    give four characters; one or two remaining bytes give two or three
    characters and padding up to four. *)
Fixpoint EncodeToString (src : string) : string :=
  match src with
  | EmptyString => EmptyString
  | String b0 EmptyString =>
      let val := val1 b0 in
      String (encode (sextet val 18)) (String (encode (sextet val 12))
        (String StdPadding (String StdPadding EmptyString)))
  | String b0 (String b1 EmptyString) =>
      let val := val2 b0 b1 in
      String (encode (sextet val 18)) (String (encode (sextet val 12))
        (String (encode (sextet val 6)) (String StdPadding EmptyString)))
  | String b0 (String b1 (String b2 rest)) =>
      let val := val3 b0 b1 b2 in
      String (encode (sextet val 18)) (String (encode (sextet val 12))
        (String (encode (sextet val 6)) (String (encode (sextet val 0))
          (EncodeToString rest))))
  end.

(** The position of a character in the alphabet, used only in proofs. *)
Fixpoint index_of (c : ascii) (s : string) : option nat :=
  match s with
  | EmptyString => None
  | String d s' =>
      if Ascii.eqb c d then Some O else option_map S (index_of c s')
  end.

End Base64.

Module Strings.

(** [strings.HasPrefix(s, prefix)] *)
Fixpoint HasPrefix (s prefix : string) {struct prefix} : bool :=
  match prefix with
  | EmptyString => true
  | String p prefix' =>
      match s with
      | EmptyString => false
      | String c s' => Ascii.eqb c p && HasPrefix s' prefix'
      end
  end.

(** The scan of [strings.Replace(s, old, new, -1)] for a non-empty [old]:
    at each position where [old] occurs (leftmost first, occurrences do
    not overlap) [new] is written and [len(old)] bytes are skipped; any
    other byte is copied.  [skip] counts the bytes of the current
    occurrence that are still to be dropped. *)
Fixpoint replace_from (skip : nat) (s old new : string) : string :=
  match s with
  | EmptyString => EmptyString
  | String c s' =>
      match skip with
      | S k => replace_from k s' old new
      | O =>
          if HasPrefix s old
          then new ++ replace_from (Nat.pred (String.length old)) s' old new
          else String c (replace_from O s' old new)
      end
  end.

(** [strings.ReplaceAll(s, old, new)], for the non-empty [old] the
    program passes. *)
Definition ReplaceAll (s old new : string) : string :=
  replace_from O s old new.

(** The scan of [strings.Split(s, sep)] for a non-empty [sep]: the
    pieces of [s] between the occurrences of [sep], leftmost first and
    not overlapping.  [cur] is the piece read so far, [skip] counts the
    bytes of the current occurrence that are still to be dropped. *)
Fixpoint split_from (skip : nat) (cur s sep : string) : list string :=
  match s with
  | EmptyString => [cur]
  | String c s' =>
      match skip with
      | S k => split_from k cur s' sep
      | O =>
          if HasPrefix s sep
          then cur :: split_from (Nat.pred (String.length sep)) "" s' sep
          else split_from O (cur ++ String c "") s' sep
      end
  end.

(** [strings.Split(s, sep)], for a non-empty [sep]. *)
Definition Split (s sep : string) : list string := split_from O "" s sep.

End Strings.

(** The two derived operations of the program: the entity id and the
    sanitizer. *)

(** [base64.URLEncoding.EncodeToString([]byte(x))] (lines 125 and 219). *)
Definition deriveId (x : string) : string := Base64.EncodeToString x.

(** [strings.ReplaceAll(text, "'", "`")] (lines 127-136, 216-226). *)
Definition sanitize (text : string) : string :=
  Strings.ReplaceAll text "'" "`".

(** ** Go values *)

(** A non-nil [error] value.  The [error] results of the source are
    [option error], with [None] for [nil]. *)
Inductive error : Type :=
  | DriverError (msg : string)
      (** an error of [database/sql], of the HTTP transport or of [io] *)
  | ESError (status : Z) (body : string)
      (** [fmt.Errorf("ES error: %s :: %s", res.Status(), string(errBody))] *)
  | EmptyStringError.
      (** [fmt.Errorf("> Empty string encountered. Aborting.")] *)

(** [time.Time] as nanoseconds on the time line and [time.Duration] as a
    signed 64-bit count of nanoseconds. *)
Definition Time := Z.
Definition Duration := Z.

Definition minDuration : Duration := - 2 ^ 63.
Definition maxDuration : Duration := 2 ^ 63 - 1.

Definition Hour : Duration := 3600 * 1000000000.

(** Lines 23-26. *)
Definition interval : Duration := Hour.
Definition articleThreshold : Duration := Hour * 24 * 3.

(** [t.Sub(u)]: the difference, saturated at the ends of [Duration]. *)
Definition Time_Sub (t u : Time) : Duration :=
  if t - u <? minDuration then minDuration
  else if maxDuration <? t - u then maxDuration
  else t - u.

(** [int] counters: 64-bit two's complement addition. *)
Definition wrap64 (z : Z) : Z := (z + 2 ^ 63) mod 2 ^ 64 - 2 ^ 63.
Definition int_add (a b : Z) : Z := wrap64 (a + b).

(** [sql.NullTime]; [Scan] of a NULL column leaves the zero [Time]
    (January 1, year 1), [zeroTime] nanoseconds before the Unix epoch. *)
Record NullTime := { NullTime_Time : Time; NullTime_Valid : bool }.

Definition zeroTime : Time := - 62135596800 * 1000000000.

(** Lines 28-41: the parsed feed. *)
Record Item := {
  Item_Title : string;
  Item_Link : string;
  Item_Description : string;
  Item_PubDate : string
}.

Record Channel := {
  Channel_Title : string;
  Channel_Link : string;
  Channel_Description : string;
  Channel_Items : list Item
}.

Record Rss := { Rss_Channel : Channel }.

(** Lines 43-53: the bodies sent to the index. *)
Record ESPayload := { Payload_Title : string; Payload_Description : string }.

Record ESUpdatePayload := { Doc : ESPayload }.

(** Lines 55-58. *)
Record ArticleIdAndPubDate := { id : string; pubDate : NullTime }.

(** JSON values, as far as the program produces them. *)
#[warnings="-register-all"]
Inductive json : Type :=
  | JString (s : string)
  | JObject (members : list (string * json)).

(** [json.Marshal] on the two payload types, following the field tags. *)
Definition Marshal_ESPayload (p : ESPayload) : json :=
  JObject [("title", JString (Payload_Title p));
           ("description", JString (Payload_Description p))].

Definition Marshal_ESUpdatePayload (p : ESUpdatePayload) : json :=
  JObject [("doc", Marshal_ESPayload (Doc p))].

(** [esapi.Response]: the status code, and what [io.ReadAll(res.Body)]
    gives. *)
Record Response := {
  StatusCode : Z;
  Body : string;
  BodyErr : option string
}.

(** [res.IsError()] *)
Definition IsError (res : Response) : bool := 299 <? StatusCode res.

(** ** The two sinks and the rest of the environment *)

(** Rows of [Sites(id, url, title, link, description)] and of
    [Articles(id, title, link, description, pubdate, site_id)], in the
    column order of the two [INSERT] statements; the key is the map key. *)
Record SiteRow := {
  site_url : string;
  site_title : string;
  site_link : string;
  site_description : string
}.

Record ArticleRow := {
  article_title : string;
  article_link : string;
  article_description : string;
  article_pubdate : option Time;
  article_site_id : string
}.

(** What the environment may do to a call, besides answering it. *)
Inductive DbFault : Type :=
  | DbOk
  | DbFails (msg : string)          (** the call returns an error *)
  | DbRowsEnd (n : nat).            (** a query whose rows end after [n] *)

Inductive EsFault : Type :=
  | EsOk
  | EsTransport (msg : string)      (** no response: [(nil, err)] *)
  | EsRejects (res : Response).     (** an error response, when [res] is one *)

(** The part of the environment the program cannot change.  The table
    definitions are not part of the repository: how the [pubdate] column
    reads the text it is given, and whether [site_id] is checked as a
    foreign key, are parameters. *)
Record Env := {
  timestamp_in : string -> option (option Time);
  foreign_key : bool;
  web : string -> option Rss;
  clock : nat -> Time
}.

(** What the program did, in order: every call to the outside with its
    arguments and its result, and every line written to the log. *)
Inductive LogLine : Type :=
  | LogCleanup
  | LogEmptyItem
  | LogError (e : error)
  | LogFetchError (feedUrl : string)
  | LogESError (resBody : string)
  | LogDone (scannedCount deleteCount : Z).

Inductive Event : Type :=
  | HttpGet (url : string) (res : option Rss)
  | ExecUpsertSite (siteId feedUrl title link description : string)
      (err : option error)
  | ExecUpsertArticle
      (articleId title link description pubDate siteId : string)
      (err : option error)
  | ExecDeleteArticle (articleId : string) (err : option error)
  | QueryArticles (err : option error)
  | EsUpdate (index docId : string) (body : json)
      (res : option Response) (err : option error)
  | EsCreate (index docId : string) (body : json)
      (res : option Response) (err : option error)
  | EsDelete (index docId : string)
      (res : option Response) (err : option error)
  | Logged (line : LogLine).

(** The world of a run: the two tables of the store, the documents of
    the index by index name and id, the faults still to come for the
    calls to the store and for the calls to the index, the number of
    clock readings taken so far, and the trace. *)
Record World := {
  env : Env;
  sites : gmap string SiteRow;
  articles : gmap string ArticleRow;
  docs : gmap (string * string) (gmap string json);
  db_faults : list DbFault;
  es_faults : list EsFault;
  ticks : nat;
  trace : list Event
}.

(** Updates of one field. *)
Definition with_sites (v : gmap string SiteRow) (w : World) : World :=
  {| env := env w; sites := v; articles := articles w; docs := docs w;
     db_faults := db_faults w; es_faults := es_faults w; ticks := ticks w;
     trace := trace w |}.

Definition with_articles (v : gmap string ArticleRow) (w : World) : World :=
  {| env := env w; sites := sites w; articles := v; docs := docs w;
     db_faults := db_faults w; es_faults := es_faults w; ticks := ticks w;
     trace := trace w |}.

Definition with_docs (v : gmap (string * string) (gmap string json))
    (w : World) : World :=
  {| env := env w; sites := sites w; articles := articles w; docs := v;
     db_faults := db_faults w; es_faults := es_faults w; ticks := ticks w;
     trace := trace w |}.

Definition with_db_faults (v : list DbFault) (w : World) : World :=
  {| env := env w; sites := sites w; articles := articles w; docs := docs w;
     db_faults := v; es_faults := es_faults w; ticks := ticks w;
     trace := trace w |}.

Definition with_es_faults (v : list EsFault) (w : World) : World :=
  {| env := env w; sites := sites w; articles := articles w; docs := docs w;
     db_faults := db_faults w; es_faults := v; ticks := ticks w;
     trace := trace w |}.

Definition with_ticks (v : nat) (w : World) : World :=
  {| env := env w; sites := sites w; articles := articles w; docs := docs w;
     db_faults := db_faults w; es_faults := es_faults w; ticks := v;
     trace := trace w |}.

(** A further event at the end of the trace. *)
Definition record (e : Event) (w : World) : World :=
  {| env := env w; sites := sites w; articles := articles w; docs := docs w;
     db_faults := db_faults w; es_faults := es_faults w; ticks := ticks w;
     trace := trace w ++ [e] |}.

(** ** Computations *)

(** A call returns, or the goroutine panics (a nil pointer dereference),
    or the process exits ([log.Fatal]).  In each case the world is the one
    reached at that point. *)
Inductive Outcome (A : Type) : Type :=
  | Returns (a : A) (w : World)
  | Panics (w : World)
  | Exits (w : World).

Arguments Returns {A} a w.
Arguments Panics {A} w.
Arguments Exits {A} w.

(** A computation, from the world it starts in. *)
Definition M (A : Type) : Type := World -> Outcome A.

Definition ret {A} (a : A) : M A := fun w => Returns a w.

Definition bind {A B} (m : M A) (k : A -> M B) : M B :=
  fun w =>
    match m w with
    | Returns a w' => k a w'
    | Panics w' => Panics w'
    | Exits w' => Exits w'
    end.

Declare Scope go_scope.
Delimit Scope go_scope with go.
Notation "x <- m ;; k" := (bind m (fun x => k))
  (at level 20, m at level 99, k at level 200, only parsing) : go_scope.
Notation "' p <- m ;; k" := (bind m (fun x => let 'p := x in k))
  (at level 20, p pattern, m at level 99, k at level 200, only parsing)
  : go_scope.
Notation "m ;; k" := (bind m (fun _ => k))
  (at level 100, k at level 200, only parsing, right associativity)
  : go_scope.
Local Open Scope go_scope.

(** The world in which a run ends. *)
Definition final {A} (o : Outcome A) : World :=
  match o with
  | Returns _ w => w
  | Panics w => w
  | Exits w => w
  end.

Definition emit (e : Event) : M unit := fun w => Returns tt (record e w).

(** [log.Println] and [log.Printf] *)
Definition log_Println (l : LogLine) : M unit := emit (Logged l).

(** [log.Fatal]: the line is written and the process exits. *)
Definition log_Fatal {A} (l : LogLine) : M A :=
  fun w => Exits (record (Logged l) w).

(** Using a pointer that may be [nil]. *)
Definition deref {A} (p : option A) : M A :=
  fun w => match p with Some a => Returns a w | None => Panics w end.

(** [time.Now()]: the next reading of the clock. *)
Definition time_Now : M Time :=
  fun w => Returns (clock (env w) (ticks w)) (with_ticks (S (ticks w)) w).

(** Each call to a sink takes the next entry of the sink's list of
    faults; when the list is used up, nothing interferes any more. *)
Definition db_fault (w : World) : DbFault := hd DbOk (db_faults w).
Definition db_next (w : World) : World := with_db_faults (tl (db_faults w)) w.

Definition es_fault (w : World) : EsFault := hd EsOk (es_faults w).
Definition es_next (w : World) : World := with_es_faults (tl (es_faults w)) w.

Definition next_db_fault : M DbFault :=
  fun w => Returns (db_fault w) (db_next w).

Definition next_es_fault : M EsFault :=
  fun w => Returns (es_fault w) (es_next w).

(** ** The store: what the SQL statements of the program do *)

Module DB.

(** [INSERT INTO Sites VALUES ($1, $2, $3, $4, $5)
     ON CONFLICT (id) DO UPDATE SET title = EXCLUDED.title,
     description = EXCLUDED.description] *)
Definition upsert_Sites (siteId feedUrl title link description : string)
    (t : gmap string SiteRow) : gmap string SiteRow :=
  match t !! siteId with
  | Some old =>
      <[siteId := {| site_url := site_url old; site_title := title;
                     site_link := site_link old;
                     site_description := description |}]> t
  | None =>
      <[siteId := {| site_url := feedUrl; site_title := title;
                     site_link := link;
                     site_description := description |}]> t
  end.

(** [INSERT INTO Articles VALUES ($1, $2, $3, $4, $5, $6)
     ON CONFLICT (id) DO UPDATE SET title = EXCLUDED.title,
     description = EXCLUDED.description], with [pubdate] already read. *)
Definition upsert_Articles (articleId title link description : string)
    (pubdate : option Time) (siteId : string)
    (t : gmap string ArticleRow) : gmap string ArticleRow :=
  match t !! articleId with
  | Some old =>
      <[articleId := {| article_title := title;
                        article_link := article_link old;
                        article_description := description;
                        article_pubdate := article_pubdate old;
                        article_site_id := article_site_id old |}]> t
  | None =>
      <[articleId := {| article_title := title; article_link := link;
                        article_description := description;
                        article_pubdate := pubdate;
                        article_site_id := siteId |}]> t
  end.

(** The foreign key of a new row, when the table declares one. *)
Definition fk_violated (w : World) (articleId siteId : string) : bool :=
  foreign_key (env w)
  && bool_decide (articles w !! articleId = None)
  && bool_decide (sites w !! siteId = None).

(** [db.Exec] of the [Sites] upsert: the error it returns. *)
Definition Exec_upsert_Sites
    (siteId feedUrl title link description : string) : M (option error) :=
  f <- next_db_fault;;
  err <- (match f with
          | DbFails msg => ret (Some (DriverError msg))
          | _ =>
              fun w =>
                Returns None
                  (with_sites
                     (upsert_Sites siteId feedUrl title link description
                        (sites w)) w)
          end);;
  emit (ExecUpsertSite siteId feedUrl title link description err);;
  ret err.

(** [db.Exec] of the [Articles] upsert. *)
Definition Exec_upsert_Articles
    (articleId title link description pubDate siteId : string)
    : M (option error) :=
  f <- next_db_fault;;
  err <- (match f with
          | DbFails msg => ret (Some (DriverError msg))
          | _ =>
              fun w =>
                match timestamp_in (env w) pubDate with
                | None => Returns (Some (DriverError "invalid timestamp")) w
                | Some ts =>
                    if fk_violated w articleId siteId
                    then
                      Returns (Some (DriverError "foreign key violation")) w
                    else
                      Returns None
                        (with_articles
                           (upsert_Articles articleId title link
                              description ts siteId (articles w)) w)
                end
          end);;
  emit (ExecUpsertArticle articleId title link description pubDate siteId
          err);;
  ret err.

(** [db.Exec("DELETE FROM Articles WHERE id = $1", id)] *)
Definition Exec_delete_Articles (articleId : string) : M (option error) :=
  f <- next_db_fault;;
  err <- (match f with
          | DbFails msg => ret (Some (DriverError msg))
          | _ =>
              fun w =>
                Returns None
                  (with_articles (delete articleId (articles w)) w)
          end);;
  emit (ExecDeleteArticle articleId err);;
  ret err.

(** [rows.Scan(&articleInfo.id, &articleInfo.pubDate)] on one row. *)
Definition Scan (row : string * ArticleRow) : ArticleIdAndPubDate :=
  {| id := row.1;
     pubDate :=
       match article_pubdate row.2 with
       | Some t => {| NullTime_Time := t; NullTime_Valid := true |}
       | None => {| NullTime_Time := zeroTime; NullTime_Valid := false |}
       end |}.

(** [db.Query("SELECT id, pubdate from Articles")] and the rows that
    [rows.Next()] then yields: the rows of the table when the query
    ran, or the first of them when the iteration ends early. *)
Definition Query_Articles : M (list ArticleIdAndPubDate * option error) :=
  f <- next_db_fault;;
  '(rows, err) <- (fun w =>
    let rows := Scan <$> map_to_list (articles w) in
    match f with
    | DbFails msg => Returns ([], Some (DriverError msg)) w
    | DbRowsEnd n => Returns (take n rows, None) w
    | DbOk => Returns (rows, None) w
    end);;
  emit (QueryArticles err);;
  ret (rows, err).

End DB.

(** ** The index: what Elasticsearch answers *)

Module ES.

Definition respond (code : Z) : Response :=
  {| StatusCode := code; Body := ""; BodyErr := None |}.

Fixpoint member (k : string) (members : list (string * json)) : option json :=
  match members with
  | [] => None
  | (k', v) :: rest => if String.eqb k k' then Some v else member k rest
  end.

(** The partial document of an update body [{"doc": {...}}]. *)
Definition partial_doc (body : json) : option (list (string * json)) :=
  match body with
  | JObject members =>
      match member "doc" members with
      | Some (JObject fields) => Some fields
      | _ => None
      end
  | JString _ => None
  end.

(** What a call gives when the environment interferes: no response at
    all, or an error response of its own. *)
Definition interfered (f : EsFault) : option (option Response * option error) :=
  match f with
  | EsOk => None
  | EsTransport msg => Some (None, Some (DriverError msg))
  | EsRejects res => if IsError res then Some (Some res, None) else None
  end.

(** [esClient.Update(index, id, body)]: the fields of the partial
    document are merged into the stored one; a missing document is
    answered with 404. *)
Definition Update (index docId : string) (body : json)
    : M (option Response * option error) :=
  f <- next_es_fault;;
  r <- (match interfered f with
        | Some r => ret r
        | None =>
            fun w =>
              match partial_doc body, docs w !! (index, docId) with
              | None, _ => Returns (Some (respond 400), None) w
              | Some _, None => Returns (Some (respond 404), None) w
              | Some fields, Some src =>
                  Returns (Some (respond 200), None)
                    (with_docs
                       (<[(index, docId) := list_to_map fields ∪ src]>
                          (docs w)) w)
              end
        end);;
  emit (EsUpdate index docId body r.1 r.2);;
  ret r.

(** [esClient.Create(index, id, body)]: the document is stored as given;
    an existing one is answered with 409. *)
Definition Create (index docId : string) (body : json)
    : M (option Response * option error) :=
  f <- next_es_fault;;
  r <- (match interfered f with
        | Some r => ret r
        | None =>
            fun w =>
              match body, docs w !! (index, docId) with
              | JString _, _ => Returns (Some (respond 400), None) w
              | JObject _, Some _ => Returns (Some (respond 409), None) w
              | JObject fields, None =>
                  Returns (Some (respond 201), None)
                    (with_docs
                       (<[(index, docId) := list_to_map fields]> (docs w)) w)
              end
        end);;
  emit (EsCreate index docId body r.1 r.2);;
  ret r.

(** [esClient.Delete(index, id)]: a missing document is answered with
    404. *)
Definition Delete (index docId : string)
    : M (option Response * option error) :=
  f <- next_es_fault;;
  r <- (match interfered f with
        | Some r => ret r
        | None =>
            fun w =>
              match docs w !! (index, docId) with
              | None => Returns (Some (respond 404), None) w
              | Some _ =>
                  Returns (Some (respond 200), None)
                    (with_docs (delete (index, docId) (docs w)) w)
              end
        end);;
  emit (EsDelete index docId r.1 r.2);;
  ret r.

End ES.

(** ** The program *)

(** [io.ReadAll(res.Body)] *)
Definition io_ReadAll (res : Response) : string * option string :=
  (Body res, BodyErr res).

(** Lines 96-116.  The response and its parsing are the environment's:
    [web url] is the parsed document, or nothing when the request, the
    reading of the body or the parsing fails, which ends the process. *)
Definition scrapeRss (feedUrl : string) : M Rss :=
  res <- (fun w => Returns (web (env w) feedUrl) w);;
  emit (HttpGet feedUrl res);;
  match res with
  | Some parsedData => ret parsedData
  | None => log_Fatal (LogFetchError feedUrl)
  end.

(** Lines 154-169. *)
Definition pushArticleToDB
    (articleId title link descrtiption pubDate siteId : string)
    : M (option error) :=
  DB.Exec_upsert_Articles articleId title link descrtiption pubDate siteId.

(** Lines 171-209.  [json.Marshal] does not fail on these payloads.  The
    deferred [res.Body.Close()] takes [res.Body] when the [defer]
    statement runs, right after the call.  In the 404 branch [err] is a
    new variable while [res] is the outer one, so the final [return err]
    returns the error of [Update]. *)
Definition pushArticleToES (articleId title description : string)
    : M (option error) :=
  let payload :=
    {| Doc := {| Payload_Title := title;
                 Payload_Description := description |} |} in
  let data := Marshal_ESUpdatePayload payload in
  '(res, err) <- ES.Update "articles" articleId data;;
  res <- deref res;;
  if IsError res then
    if StatusCode res =? 404 then
      let createPayload :=
        {| Payload_Title := Payload_Title (Doc payload);
           Payload_Description := Payload_Description (Doc payload) |} in
      let createData := Marshal_ESPayload createPayload in
      '(res, err') <- ES.Create "articles" articleId createData;;
      res <- deref res;;
      if IsError res then
        match io_ReadAll res with
        | (errBody, None) => ret (Some (ESError (StatusCode res) errBody))
        | (_, Some _) => ret err
        end
      else ret err
    else ret err
  else ret err.

(** Lines 118-152.  [break] and the two [return]s all leave the loop. *)
Fixpoint pushArticles_items (siteId : string) (items : list Item)
    : M unit :=
  match items with
  | [] => ret tt
  | article :: rest =>
      if String.eqb (Item_Title article) ""
         || String.eqb (Item_Link article) ""
         || String.eqb (Item_Description article) ""
      then log_Println LogEmptyItem
      else
        let articleId := deriveId (Item_Link article) in
        let title := sanitize (Item_Title article) in
        let description := sanitize (Item_Description article) in
        err <- pushArticleToDB articleId title
                 (sanitize (Item_Link article)) description
                 (sanitize (Item_PubDate article)) siteId;;
        match err with
        | Some e => log_Println (LogError e)
        | None =>
            err <- pushArticleToES articleId title description;;
            match err with
            | Some e => log_Println (LogError e)
            | None => pushArticles_items siteId rest
            end
        end
  end.

Definition pushArticles (siteId : string) (data : Rss) : M unit :=
  pushArticles_items siteId (Channel_Items (Rss_Channel data)).

(** Lines 244-260. *)
Definition pushSiteToDB (siteId feedUrl title link description : string)
    : M (option error) :=
  DB.Exec_upsert_Sites siteId feedUrl title link description.

(** Lines 262-300. *)
Definition pushSiteToES (siteId title description : string)
    : M (option error) :=
  let payload :=
    {| Doc := {| Payload_Title := title;
                 Payload_Description := description |} |} in
  let data := Marshal_ESUpdatePayload payload in
  '(res, err) <- ES.Update "sites" siteId data;;
  res <- deref res;;
  if IsError res then
    if StatusCode res =? 404 then
      let createPayload :=
        {| Payload_Title := Payload_Title (Doc payload);
           Payload_Description := Payload_Description (Doc payload) |} in
      let createData := Marshal_ESPayload createPayload in
      '(res, err') <- ES.Create "sites" siteId createData;;
      res <- deref res;;
      if IsError res then
        match io_ReadAll res with
        | (errBody, None) => ret (Some (ESError (StatusCode res) errBody))
        | (_, Some _) => ret err
        end
      else ret err
    else ret err
  else ret err.

(** Lines 211-242. *)
Definition pushSite (feedUrl : string) (data : Rss)
    : M (string * option error) :=
  let channel := Rss_Channel data in
  if String.eqb (Channel_Title channel) ""
     || String.eqb (Channel_Link channel) ""
  then ret ("", Some EmptyStringError)
  else
    let title := sanitize (Channel_Title channel) in
    let description := sanitize (Channel_Description channel) in
    let siteId := deriveId feedUrl in
    err <- pushSiteToDB siteId feedUrl title
             (sanitize (Channel_Link channel)) description;;
    match err with
    | Some e => ret (feedUrl, Some e)
    | None =>
        err <- pushSiteToES siteId title description;;
        ret (siteId, err)
    end.

(** Lines 315-342: the body of the loop over the rows, with the two
    counters. *)
Definition cleanOutdated_row (articleInfo : ArticleIdAndPubDate)
    (deleteCount : Z) : M Z :=
  now <- time_Now;;
  if articleThreshold <? Time_Sub now (NullTime_Time (pubDate articleInfo))
  then
    err <- DB.Exec_delete_Articles (id articleInfo);;
    match err with
    | Some e => log_Fatal (LogError e)
    | None =>
        '(res, err) <- ES.Delete "articles" (id articleInfo);;
        match err with
        | Some e => log_Fatal (LogError e)
        | None =>
            res <- deref res;;
            if IsError res then
              match io_ReadAll res with
              | (_, Some msg) => log_Fatal (LogError (DriverError msg))
              | (resBody, None) => log_Fatal (LogESError resBody)
              end
            else ret (int_add deleteCount 1)
        end
    end
  else ret deleteCount.

Fixpoint cleanOutdated_rows (rows : list ArticleIdAndPubDate)
    (scannedCount deleteCount : Z) : M (Z * Z) :=
  match rows with
  | [] => ret (scannedCount, deleteCount)
  | articleInfo :: rest =>
      deleteCount <- cleanOutdated_row articleInfo deleteCount;;
      cleanOutdated_rows rest (int_add scannedCount 1) deleteCount
  end.

(** Lines 302-345. *)
Definition cleanOutdated : M unit :=
  log_Println LogCleanup;;
  '(rows, err) <- DB.Query_Articles;;
  match err with
  | Some e => log_Fatal (LogError e)
  | None =>
      '(scannedCount, deleteCount) <- cleanOutdated_rows rows 0 0;;
      log_Println (LogDone scannedCount deleteCount)
  end.

(** Lines 354-367: the goroutine that [scrapingCycle] starts for each
    feed.  The goroutines of a cycle run concurrently; what follows is
    one of them on its own. *)
Definition feedTask (url : string) : M unit :=
  res <- scrapeRss url;;
  '(siteId, err) <- pushSite url res;;
  match err with
  | Some e => log_Println (LogError e)
  | None => pushArticles siteId res
  end.

(** The slice expression [a[:hi]]: out of range, it panics. *)
Definition slice_to {A} (a : list A) (hi : Z) : option (list A) :=
  if (0 <=? hi) && (hi <=? Z.of_nat (length a))
  then Some (take (Z.to_nat hi) a)
  else None.

(** Lines 380-381 of [main]: the feeds read from the text of
    [feeds.txt], or nothing when the slice expression panics. *)
Definition main_feeds (data : string) : option (list string) :=
  let feeds := Strings.Split data (String "010" "") in
  slice_to feeds (Z.of_nat (length feeds) - 1).

(** ** Concrete feeds and worlds, for the examples below *)

Module Examples.

Definition item1 : Item :=
  {| Item_Title := "I1"; Item_Link := "http://a/1";
     Item_Description := "D1"; Item_PubDate := "P1" |}.

Definition item2 : Item :=
  {| Item_Title := "I2"; Item_Link := "http://a/2";
     Item_Description := ""; Item_PubDate := "P2" |}.

Definition item3 : Item :=
  {| Item_Title := "I3"; Item_Link := "http://a/3";
     Item_Description := "D3"; Item_PubDate := "P3" |}.


Definition feed (items : list Item) : Rss :=
  {| Rss_Channel :=
       {| Channel_Title := "T"; Channel_Link := "http://a";
          Channel_Description := "D"; Channel_Items := items |} |}.

(** A store whose [pubdate] column reads any non-empty text as instant
    0, a web with one feed, and a clock that stands at [now]. *)
Definition env0 (items : list Item) (now : Time) : Env :=
  {| timestamp_in :=
       fun s => if String.eqb s "" then None else Some (Some 0);
     foreign_key := true;
     web := fun url =>
              if String.eqb url "http://a" then Some (feed items) else None;
     clock := fun _ => now |}.

Definition world0 (items : list Item) (now : Time) : World :=
  {| env := env0 items now; sites := ∅; articles := ∅; docs := ∅;
     db_faults := []; es_faults := []; ticks := 0; trace := [] |}.


(** A store that has the site of the feed already. *)
Definition site_row0 : SiteRow :=
  {| site_url := "http://a"; site_title := "T"; site_link := "http://a";
     site_description := "D" |}.

Definition world_with_site : World :=
  with_sites {["aHR0cDovL2E=" := site_row0]} (world0 [] 0).

(** A store with an article published at instant 0 and one published
    a nanosecond later, both in the index, and a clock that stands one
    nanosecond past three days. *)
Definition article_row (t : Time) : ArticleRow :=
  {| article_title := "t"; article_link := "l"; article_description := "d";
     article_pubdate := Some t; article_site_id := "s" |}.

Definition reap_world : World :=
  {| env := env0 [] (articleThreshold + 1); sites := ∅;
     articles := {[ "old" := article_row 0; "new" := article_row 1 ]};
     docs := {[ ("articles", "old") := ∅; ("articles", "new") := ∅ ]};
     db_faults := []; es_faults := []; ticks := 0; trace := [] |}.

(** The same, with a store that answers the query and fails on the
    next statement. *)
Definition reap_world_failing : World :=
  with_db_faults [DbOk; DbFails "connection lost"] reap_world.

(** The index cannot be reached. *)
Definition world_unreachable : World :=
  with_es_faults [EsTransport "connection refused"] (world0 [] 0).

(** The index answers the next call with status 500. *)
Definition response500 : Response :=
  {| StatusCode := 500; Body := "unavailable"; BodyErr := None |}.

Definition world_rejecting : World :=
  with_es_faults [EsRejects response500] (world0 [] 0).

End Examples.

(** ** The vocabulary of the statements *)

(** *** Strings *)

(** The position of a character in the URL alphabet, if it has one. *)
Definition decode (c : ascii) : option nat :=
  Base64.index_of c Base64.encodeURL.

(** The substitution of a single quote by a backtick, on one byte and
    on every byte of a string. *)
Definition subst_quote (c : ascii) : ascii :=
  if Ascii.eqb c "'"%char then "`"%char else c.

Fixpoint map_string (f : ascii -> ascii) (s : string) : string :=
  match s with
  | EmptyString => EmptyString
  | String c s' => String (f c) (map_string f s')
  end.

(** Whether a string has a single quote. *)
Fixpoint has_quote (s : string) : bool :=
  match s with
  | EmptyString => false
  | String c s' => Ascii.eqb c "'"%char || has_quote s'
  end.


(** *** Traces *)

(** [extends P w0 w]: the trace of [w] is the trace of [w0] followed by
    events that all satisfy [P]. *)
Definition extends (P : Event -> Prop) (w0 w : World) : Prop :=
  exists es, trace w = (trace w0 ++ es)%list /\ Forall P es.

(** Every run of [m] adds to the trace only events that satisfy [P];
    every run of [m] leaves the trace as it is. *)
Definition emits {A} (P : Event -> Prop) (m : M A) : Prop :=
  forall w, extends P w (final (m w)).

Definition silent {A} (m : M A) : Prop :=
  forall w, trace (final (m w)) = trace w.

(** *** The calls of a feed task *)

(** [pushArticleToES] and [pushSiteToES] have the same body, up to the
    name of the index. *)
Definition pushToES (index docId title description : string)
    : M (option error) :=
  let payload :=
    {| Doc := {| Payload_Title := title;
                 Payload_Description := description |} |} in
  '(res, err) <- ES.Update index docId (Marshal_ESUpdatePayload payload);;
  res <- deref res;;
  if IsError res then
    if StatusCode res =? 404 then
      '(res, err') <- ES.Create index docId (Marshal_ESPayload (Doc payload));;
      res <- deref res;;
      if IsError res then
        match io_ReadAll res with
        | (errBody, None) => ret (Some (ESError (StatusCode res) errBody))
        | (_, Some _) => ret err
        end
      else ret err
    else ret err
  else ret err.

(** The bodies of the update and of the create, as JSON values. *)
Definition update_body (title description : string) : json :=
  JObject [("doc", JObject [("title", JString title);
                            ("description", JString description)])].

Definition create_body (title description : string) : json :=
  JObject [("title", JString title); ("description", JString description)].

(** The calls of the index protocol: one update, and at most one create,
    both on the same document and with the same two fields. *)
Inductive es_event (index docId title description : string)
    : Event -> Prop :=
  | es_event_update res err :
      es_event index docId title description
        (EsUpdate index docId (update_body title description) res err)
  | es_event_create res err :
      es_event index docId title description
        (EsCreate index docId (create_body title description) res err).

(** The test of line 120. *)
Definition item_empty (a : Item) : bool :=
  String.eqb (Item_Title a) "" || String.eqb (Item_Link a) ""
  || String.eqb (Item_Description a) "".

(** The calls that write the site of a feed. *)
Inductive site_event (feedUrl : string) (c : Channel) : Event -> Prop :=
  | site_event_db err :
      site_event feedUrl c
        (ExecUpsertSite (deriveId feedUrl) feedUrl
           (sanitize (Channel_Title c)) (sanitize (Channel_Link c))
           (sanitize (Channel_Description c)) err)
  | site_event_es e :
      es_event "sites" (deriveId feedUrl) (sanitize (Channel_Title c))
        (sanitize (Channel_Description c)) e ->
      site_event feedUrl c e.

(** The calls that write one of the given items, and the lines logged
    in between. *)
Inductive article_event (siteId : string) (items : list Item)
    : Event -> Prop :=
  | article_event_db a err :
      In a items -> item_empty a = false ->
      article_event siteId items
        (ExecUpsertArticle (deriveId (Item_Link a)) (sanitize (Item_Title a))
           (sanitize (Item_Link a)) (sanitize (Item_Description a))
           (sanitize (Item_PubDate a)) siteId err)
  | article_event_es a e :
      In a items -> item_empty a = false ->
      es_event "articles" (deriveId (Item_Link a)) (sanitize (Item_Title a))
        (sanitize (Item_Description a)) e ->
      article_event siteId items e
  | article_event_log l : article_event siteId items (Logged l).

(** A field of a document of the index. *)
Definition doc_field (w : World) (index docId field : string) : option json :=
  match docs w !! (index, docId) with
  | Some src => src !! field
  | None => None
  end.

(** The calls of the task of the feed at [url], whose document is
    [doc]: the fetch, the calls that write the site, the calls that write
    the items, and log lines. *)
Inductive feed_event (url : string) (doc : option Rss) : Event -> Prop :=
  | feed_event_get : feed_event url doc (HttpGet url doc)
  | feed_event_site data e :
      doc = Some data -> site_event url (Rss_Channel data) e ->
      feed_event url doc e
  | feed_event_article data e :
      doc = Some data ->
      article_event (deriveId url) (Channel_Items (Rss_Channel data)) e ->
      feed_event url doc e
  | feed_event_log l : feed_event url doc (Logged l).





(** *** Invariants *)

(** Every run of [m] from a world in [I] ends in a world in [I]. *)
Definition preserves {A} (I : World -> Prop) (m : M A) : Prop :=
  forall w, I w -> I (final (m w)).

(** A computation that leaves both tables as they are. *)
Definition keeps_store {A} (m : M A) : Prop :=
  forall w,
    sites (final (m w)) = sites w /\ articles (final (m w)) = articles w.







(** *** The index *)

(** The document after a merge of the two fields. *)
Definition merged (title description : string) (src : gmap string json)
    : gmap string json :=
  list_to_map [("title", JString title); ("description", JString description)]
  ∪ src.

(** The calls of the reaper. *)
Definition reap_event (e : Event) : Prop :=
  match e with
  | Logged _ | QueryArticles _ | ExecDeleteArticle _ _ => True
  | EsDelete index _ _ _ => index = "articles"
  | _ => False
  end.

(** The names of the document fields in the body of a call to the
    index. *)
Definition pushed_fields (e : Event) : list string :=
  match e with
  | EsUpdate _ _ body _ _ =>
      match ES.partial_doc body with
      | Some fields => fields.*1
      | None => []
      end
  | EsCreate _ _ (JObject fields) _ _ => fields.*1
  | _ => []
  end.

(** A call whose body names no field but the title and the description. *)
Definition title_and_description (e : Event) : Prop :=
  forall f, In f (pushed_fields e) -> f = "title" \/ f = "description".

(** *** The reaper *)

(** The test of line 319, on the clock reading that [time.Now()] gives
    next. *)
Definition outdated (w : World) (a : ArticleIdAndPubDate) : bool :=
  articleThreshold
  <? Time_Sub (clock (env w) (ticks w)) (NullTime_Time (pubDate a)).

(** A deletion step that did not succeed. *)
Definition delete_failed (e : Event) : bool :=
  match e with
  | ExecDeleteArticle _ (Some _) => true
  | EsDelete _ _ _ (Some _) => true
  | EsDelete _ _ None None => true
  | EsDelete _ _ (Some res) None => IsError res
  | _ => false
  end.

(** Lines 325-339: the deletion from the index, after the row has been
    deleted from the store. *)
Definition delete_from_index (a : ArticleIdAndPubDate) (deleteCount : Z)
    : M Z :=
  '(res, err) <- ES.Delete "articles" (id a);;
  match err with
  | Some e => log_Fatal (LogError e)
  | None =>
      res <- deref res;;
      if IsError res then
        match io_ReadAll res with
        | (_, Some msg) => log_Fatal (LogError (DriverError msg))
        | (resBody, None) => log_Fatal (LogESError resBody)
        end
      else ret (int_add deleteCount 1)
  end.

(** The deletions from the index among some events. *)
Fixpoint deletions (es : list Event) : nat :=
  match es with
  | [] => O
  | EsDelete _ _ _ _ :: rest => S (deletions rest)
  | _ :: rest => deletions rest
  end.

(** The rows that the query of the reaper yields. *)
Definition scanned_rows (w : World) : list ArticleIdAndPubDate :=
  let rows := DB.Scan <$> map_to_list (articles w) in
  match db_fault w with
  | DbFails _ => []
  | DbRowsEnd n => take n rows
  | DbOk => rows
  end.

(** The error of that query. *)
Definition query_error (w : World) : option error :=
  match db_fault w with
  | DbFails msg => Some (DriverError msg)
  | _ => None
  end.

(** The world in which the sweep starts: the first line is logged and
    the query has been answered. *)
Definition after_query (w : World) : World :=
  record (QueryArticles (query_error w))
    (db_next (record (Logged LogCleanup) w)).

(** The test of line 319 for the row scanned as number [i] of a sweep
    that starts in [w]: each row takes one reading of the clock. *)
Definition outdated_at (w : World) (i : nat) (a : ArticleIdAndPubDate)
    : bool :=
  articleThreshold
  <? Time_Sub (clock (env w) (ticks w + i)) (NullTime_Time (pubDate a)).

(** A call that writes an article. *)
Definition is_article_write (e : Event) : bool :=
  match e with
  | ExecUpsertArticle _ _ _ _ _ _ _ => true
  | EsUpdate index _ _ _ _ | EsCreate index _ _ _ _ =>
      String.eqb index "articles"
  | _ => false
  end.

(** A sweep that nothing disturbs: no fault is left in either list, and
    the index has the document of every scanned row that is outdated. *)
Definition undisturbed (w : World) : Prop :=
  db_faults w = [] /\ es_faults w = []
  /\ (forall i a,
        scanned_rows w !! i = Some a -> outdated_at w i a = true ->
        is_Some (docs w !! ("articles", id a))).

(** *** The file of feeds *)

(** The separator of [main]: the one-byte string of the newline. *)
Definition newline : string := String "010" "".

(** Whether a string has a newline, and how many it has. *)
Fixpoint has_newline (s : string) : bool :=
  match s with
  | EmptyString => false
  | String c s' => Ascii.eqb c "010" || has_newline s'
  end.

Fixpoint newlines (s : string) : nat :=
  match s with
  | EmptyString => O
  | String c s' => if Ascii.eqb c "010" then S (newlines s') else newlines s'
  end.

(** The text of a file whose lines are the given ones, each followed by
    a newline. *)
Fixpoint file_of (lines : list string) : string :=
  match lines with
  | [] => ""
  | l :: rest => (l ++ newline) ++ file_of rest
  end.

(** *** The runs of the index protocol *)

(** The calls of one run of the index protocol on a document: an update,
    followed by a create exactly when the update was answered with
    status 404. *)
Definition index_protocol (index docId title description : string)
    (es : list Event) : Prop :=
  (exists res err,
     es = [EsUpdate index docId (update_body title description) res err]
     /\ forall r, res = Some r -> StatusCode r <> 404)
  \/ (exists r err res' err',
        es = [EsUpdate index docId (update_body title description)
                (Some r) err;
              EsCreate index docId (create_body title description)
                res' err']
        /\ StatusCode r = 404).

(** A call to the index that got a response, or any other event. *)
Definition answered (e : Event) : bool :=
  match e with
  | EsUpdate _ _ _ None _ | EsCreate _ _ _ None _ | EsDelete _ _ None _ =>
      false
  | _ => true
  end.

(** The documents after an upsert of the two fields of one of them:
    the fields are merged into the document, or into an empty one when
    there was none. *)
Definition es_upsert (index docId title description : string)
    (d : gmap (string * string) (gmap string json))
    : gmap (string * string) (gmap string json) :=
  <[(index, docId) :=
      merged title description (default ∅ (d !! (index, docId)))]> d.

(** The same, in terms of what can be looked up afterwards. *)
Definition upserted (index docId title description : string)
    (d d' : gmap (string * string) (gmap string json)) : Prop :=
  (exists src',
     d' !! (index, docId) = Some src'
     /\ src' !! "title" = Some (JString title)
     /\ src' !! "description" = Some (JString description)
     /\ forall f,
          f <> "title" -> f <> "description" ->
          src' !! f = match d !! (index, docId) with
                      | Some src => src !! f
                      | None => None
                      end)
  /\ (forall k, k <> (index, docId) -> d' !! k = d !! k).

(** *** Runs in which nothing fails from outside *)

(** A world with the environment [e] in which no fault is left for the
    calls to the store or to the index. *)
Definition calm (e : Env) (w : World) : Prop :=
  env w = e /\ db_faults w = [] /\ es_faults w = [].

(** What stops the write of an item before its row is written, in a calm
    world: an empty field, a date that the store cannot read, or a
    foreign key that is violated. *)
Definition item_stuck (w : World) (siteId : string) (a : Item) : Prop :=
  item_empty a = true
  \/ timestamp_in (env w) (sanitize (Item_PubDate a)) = None
  \/ DB.fk_violated w (deriveId (Item_Link a)) siteId = true.

(** The test of line 212. *)
Definition channel_rejected (c : Channel) : bool :=
  String.eqb (Channel_Title c) "" || String.eqb (Channel_Link c) "".

(** The ids of the articles whose rows a run tried to write, in the
    order of the calls. *)
Fixpoint attempted (es : list Event) : list string :=
  match es with
  | [] => []
  | ExecUpsertArticle articleId _ _ _ _ _ _ :: rest =>
      articleId :: attempted rest
  | _ :: rest => attempted rest
  end.

(** *** What a run may change *)

(** [grows w0 w]: every site, article and document of [w0] is still
    there in [w], and differs at most in its title and description. *)
Definition grows (w0 w : World) : Prop :=
  (forall k r,
     sites w0 !! k = Some r ->
     exists r',
       sites w !! k = Some r'
       /\ site_url r' = site_url r /\ site_link r' = site_link r)
  /\ (forall k r,
        articles w0 !! k = Some r ->
        exists r',
          articles w !! k = Some r'
          /\ article_link r' = article_link r
          /\ article_pubdate r' = article_pubdate r
          /\ article_site_id r' = article_site_id r)
  /\ (forall key src,
        docs w0 !! key = Some src ->
        exists src',
          docs w !! key = Some src'
          /\ forall f,
               f <> "title" -> f <> "description" -> src' !! f = src !! f).

Definition monotone {A} (m : M A) : Prop :=
  forall w, grows w (final (m w)).

(** [shrinks w0 w]: the sites are the same, every article and document
    of [w] is one of [w0], unchanged, and the documents outside the
    index of the articles are the same. *)
Definition shrinks (w0 w : World) : Prop :=
  sites w = sites w0
  /\ (forall k r, articles w !! k = Some r -> articles w0 !! k = Some r)
  /\ (forall key src, docs w !! key = Some src -> docs w0 !! key = Some src)
  /\ (forall key, key.1 <> "articles" -> docs w !! key = docs w0 !! key).

Definition antitone {A} (m : M A) : Prop :=
  forall w, shrinks w (final (m w)).


(** *** The characters of an id *)

(** A letter, a digit, [-], [_] or the padding [=]: what may stand in
    the path of a request without escaping. *)
Definition id_char (c : ascii) : bool :=
  let n := nat_of_ascii c in
  ((65 <=? n) && (n <=? 90))%nat || ((97 <=? n) && (n <=? 122))%nat
  || ((48 <=? n) && (n <=? 57))%nat
  || Ascii.eqb c "-" || Ascii.eqb c "_" || Ascii.eqb c "=".

Fixpoint all_chars (p : ascii -> bool) (s : string) : bool :=
  match s with
  | EmptyString => true
  | String c s' => p c && all_chars p s'
  end.

(** *** What a feed task leaves behind *)

(** The items whose rows a feed task writes when nothing fails from
    outside: those before the first item with an empty field or with a
    date that the store cannot read. *)
Fixpoint written (e : Env) (items : list Item) : list Item :=
  match items with
  | [] => []
  | a :: rest =>
      if item_empty a then []
      else
        match timestamp_in e (sanitize (Item_PubDate a)) with
        | None => []
        | Some _ => a :: written e rest
        end
  end.

Definition item_id (a : Item) : string := deriveId (Item_Link a).

(** The last item with its link among some items. *)
Definition last_of_link (items : list Item) (a : Item) : Prop :=
  exists pre post,
    items = (pre ++ a :: post)%list
    /\ Forall (fun b => Item_Link b <> Item_Link a) post.

(** The store and the index show the title and the description of an
    item, or of a channel, under its id. *)
Definition article_shows (w : World) (a : Item) : Prop :=
  (exists r,
     articles w !! item_id a = Some r
     /\ article_title r = sanitize (Item_Title a)
     /\ article_description r = sanitize (Item_Description a))
  /\ (exists src,
        docs w !! ("articles", item_id a) = Some src
        /\ src !! "title" = Some (JString (sanitize (Item_Title a)))
        /\ src !! "description"
           = Some (JString (sanitize (Item_Description a)))).

Definition site_shows (w : World) (feedUrl : string) (c : Channel) : Prop :=
  (exists r,
     sites w !! deriveId feedUrl = Some r
     /\ site_title r = sanitize (Channel_Title c)
     /\ site_description r = sanitize (Channel_Description c))
  /\ (exists src,
        docs w !! ("sites", deriveId feedUrl) = Some src
        /\ src !! "title" = Some (JString (sanitize (Channel_Title c)))
        /\ src !! "description"
           = Some (JString (sanitize (Channel_Description c)))).

(** *** What the index helpers report *)

(** The error read off the calls of one run of the index protocol: that
    of a create answered with an error status whose body could be read,
    and no error otherwise. *)
Definition reported (es : list Event) : option error :=
  match es with
  | [EsUpdate _ _ _ _ _; EsCreate _ _ _ (Some res) _] =>
      if IsError res then
        match io_ReadAll res with
        | (errBody, None) => Some (ESError (StatusCode res) errBody)
        | (_, Some _) => None
        end
      else None
  | _ => None
  end.

(** *** The store and the index in step *)

(** Every site and every article of the store has its document in the
    index, and the index of the sites and that of the articles have no
    other document. *)
Definition in_step (w : World) : Prop :=
  (forall k, is_Some (sites w !! k) <-> is_Some (docs w !! ("sites", k)))
  /\ (forall k,
        is_Some (articles w !! k) <-> is_Some (docs w !! ("articles", k))).

(* ================================================================== *)
(** * Properties *)

(** ** Base64: arithmetic reading of the bit operations *)

Module Base64Facts.
Import Base64.

Lemma uint_range b : 0 <= uint b < 256.
Proof.
  unfold uint. pose proof (N_ascii_bounded b) as H.
  split; [apply N2Z.is_nonneg | ].
  change 256 with (Z.of_N 256). apply N2Z.inj_lt. exact H.
Qed.

Lemma uint_inj a b : uint a = uint b -> a = b.
Proof.
  unfold uint. intros H. apply N2Z.inj in H.
  rewrite <- (ascii_N_embedding a), <- (ascii_N_embedding b). now rewrite H.
Qed.

(** Two bit fields that do not overlap are joined by [lor] as by [+]. *)
Lemma lor_shiftl_add a b n :
  0 <= n -> 0 <= b < 2 ^ n -> Z.lor (Z.shiftl a n) b = a * 2 ^ n + b.
Proof.
  intros Hn Hb.
  assert (Hl : Z.land (Z.shiftl a n) b = 0).
  { apply Z.bits_inj'. intros i Hi.
    rewrite Z.land_spec, Z.bits_0.
    destruct (Z.lt_ge_cases i n) as [Hlt | Hge].
    - rewrite Z.shiftl_spec_low by assumption. reflexivity.
    - rewrite <- (Z.mod_small b (2 ^ n)) by assumption.
      rewrite Z.mod_pow2_bits_high by lia. apply andb_false_r. }
  pose proof (Z.add_lor_land (Z.shiftl a n) b) as Hadd.
  rewrite Hl, Z.add_0_r in Hadd. rewrite Hadd.
  rewrite Z.shiftl_mul_pow2 by assumption. reflexivity.
Qed.

Lemma val1_eq b0 : val1 b0 = uint b0 * 65536.
Proof. unfold val1. rewrite Z.shiftl_mul_pow2 by lia. reflexivity. Qed.

Lemma val2_eq b0 b1 : val2 b0 b1 = uint b0 * 65536 + uint b1 * 256.
Proof.
  unfold val2. pose proof (uint_range b1).
  rewrite lor_shiftl_add.
  - rewrite Z.shiftl_mul_pow2 by lia. reflexivity.
  - lia.
  - rewrite Z.shiftl_mul_pow2 by lia.
    change (2 ^ 8) with 256. change (2 ^ 16) with 65536. lia.
Qed.

Lemma val3_eq b0 b1 b2 :
  val3 b0 b1 b2 = uint b0 * 65536 + uint b1 * 256 + uint b2.
Proof.
  unfold val3. fold (val2 b0 b1). rewrite val2_eq.
  pose proof (uint_range b2).
  replace (uint b0 * 65536 + uint b1 * 256)
    with (Z.shiftl (uint b0 * 256 + uint b1) 8)
    by (rewrite Z.shiftl_mul_pow2 by lia; change (2 ^ 8) with 256; lia).
  rewrite lor_shiftl_add by (change (2 ^ 8) with 256; lia).
  rewrite Z.shiftl_mul_pow2 by lia. reflexivity.
Qed.

(** [val>>k&0x3F] is a quotient followed by a remainder. *)
Lemma sextet_eq val k :
  0 <= k -> sextet val k = (val / 2 ^ k) mod 64.
Proof.
  intros Hk. unfold sextet. rewrite Z.shiftr_div_pow2 by assumption.
  change 63 with (Z.ones 6). rewrite Z.land_ones by lia. reflexivity.
Qed.

Lemma sextet_range val k : 0 <= k -> 0 <= sextet val k < 64.
Proof. intros Hk. rewrite sextet_eq by assumption. apply Z.mod_pos_bound. lia. Qed.


Lemma decode_encode_nat (n : nat) :
  (n < 64)%nat -> decode (encode (Z.of_nat n)) = Some n.
Proof.
  intros Hn. unfold encode. rewrite Nat2Z.id.
  do 64 (destruct n as [| n]; [reflexivity | ]). lia.
Qed.

Lemma decode_encode v :
  0 <= v < 64 -> decode (encode v) = Some (Z.to_nat v).
Proof.
  intros Hv. rewrite <- (Z2Nat.id v) at 1 by lia.
  apply decode_encode_nat. lia.
Qed.

Lemma encode_inj v w :
  0 <= v < 64 -> 0 <= w < 64 -> encode v = encode w -> v = w.
Proof.
  intros Hv Hw H.
  pose proof (decode_encode v Hv) as Dv.
  pose proof (decode_encode w Hw) as Dw.
  rewrite H in Dv. rewrite Dv in Dw. injection Dw as Dw. lia.
Qed.

Lemma encode_not_padding v : 0 <= v < 64 -> encode v <> StdPadding.
Proof.
  intros Hv H. pose proof (decode_encode v Hv) as Dv.
  rewrite H in Dv. discriminate Dv.
Qed.

(** A value below [2^24] is determined by its four sextets. *)
Lemma sextets_inj v w :
  0 <= v < 16777216 -> 0 <= w < 16777216 ->
  sextet v 18 = sextet w 18 -> sextet v 12 = sextet w 12 ->
  sextet v 6 = sextet w 6 -> sextet v 0 = sextet w 0 -> v = w.
Proof.
  intros Hv Hw. rewrite !sextet_eq by lia.
  change (2 ^ 18) with 262144. change (2 ^ 12) with 4096.
  change (2 ^ 6) with 64. change (2 ^ 0) with 1.
  intros H18 H12 H6 H0. Z.div_mod_to_equations. lia.
Qed.

(** The low sextets of a short block are zero, so the sextets that are
    written determine it as well. *)
Lemma sextet_val1_low b0 : sextet (val1 b0) 6 = 0 /\ sextet (val1 b0) 0 = 0.
Proof.
  rewrite !sextet_eq, val1_eq by lia.
  change (2 ^ 6) with 64. change (2 ^ 0) with 1.
  split; Z.div_mod_to_equations; lia.
Qed.

Lemma sextet_val2_low b0 b1 : sextet (val2 b0 b1) 0 = 0.
Proof.
  rewrite !sextet_eq, val2_eq by lia. change (2 ^ 0) with 1.
  Z.div_mod_to_equations. lia.
Qed.

Lemma val1_range b0 : 0 <= val1 b0 < 16777216.
Proof. rewrite val1_eq. pose proof (uint_range b0). lia. Qed.

Lemma val2_range b0 b1 : 0 <= val2 b0 b1 < 16777216.
Proof.
  rewrite val2_eq. pose proof (uint_range b0). pose proof (uint_range b1). lia.
Qed.

Lemma val3_range b0 b1 b2 : 0 <= val3 b0 b1 b2 < 16777216.
Proof.
  rewrite val3_eq. pose proof (uint_range b0). pose proof (uint_range b1).
  pose proof (uint_range b2). lia.
Qed.

Lemma val1_inj a0 b0 : val1 a0 = val1 b0 -> a0 = b0.
Proof. rewrite !val1_eq. intros H. apply uint_inj. lia. Qed.

Lemma val2_inj a0 a1 b0 b1 : val2 a0 a1 = val2 b0 b1 -> a0 = b0 /\ a1 = b1.
Proof.
  rewrite !val2_eq. intros H.
  pose proof (uint_range a0). pose proof (uint_range a1).
  pose proof (uint_range b0). pose proof (uint_range b1).
  split; apply uint_inj; lia.
Qed.

Lemma val3_inj a0 a1 a2 b0 b1 b2 :
  val3 a0 a1 a2 = val3 b0 b1 b2 -> a0 = b0 /\ a1 = b1 /\ a2 = b2.
Proof.
  rewrite !val3_eq. intros H.
  pose proof (uint_range a0). pose proof (uint_range a1).
  pose proof (uint_range a2). pose proof (uint_range b0).
  pose proof (uint_range b1). pose proof (uint_range b2).
  repeat split; apply uint_inj; lia.
Qed.

(** Equal output characters come from equal sextets. *)
Lemma encode_sextet_inj v w k :
  0 <= k -> encode (sextet v k) = encode (sextet w k) ->
  sextet v k = sextet w k.
Proof. intros Hk. apply encode_inj; apply sextet_range; assumption. Qed.

Lemma encode_sextet_not_padding v k :
  0 <= k -> encode (sextet v k) <> StdPadding.
Proof. intros Hk. apply encode_not_padding, sextet_range. assumption. Qed.

Ltac padding_clash :=
  match goal with
  | H : encode (sextet _ _) = StdPadding |- _ =>
      exfalso; revert H; apply encode_sextet_not_padding; lia
  | H : StdPadding = encode (sextet _ _) |- _ =>
      exfalso; symmetry in H; revert H;
      apply encode_sextet_not_padding; lia
  end.

Lemma block1_inj a0 b0 :
  encode (sextet (val1 a0) 18) = encode (sextet (val1 b0) 18) ->
  encode (sextet (val1 a0) 12) = encode (sextet (val1 b0) 12) ->
  a0 = b0.
Proof.
  intros H18 H12. apply encode_sextet_inj in H18, H12; try lia.
  destruct (sextet_val1_low a0) as [A6 A0].
  destruct (sextet_val1_low b0) as [B6 B0].
  apply val1_inj, sextets_inj; auto using val1_range; congruence.
Qed.

Lemma block2_inj a0 a1 b0 b1 :
  encode (sextet (val2 a0 a1) 18) = encode (sextet (val2 b0 b1) 18) ->
  encode (sextet (val2 a0 a1) 12) = encode (sextet (val2 b0 b1) 12) ->
  encode (sextet (val2 a0 a1) 6) = encode (sextet (val2 b0 b1) 6) ->
  a0 = b0 /\ a1 = b1.
Proof.
  intros H18 H12 H6. apply encode_sextet_inj in H18, H12, H6; try lia.
  pose proof (sextet_val2_low a0 a1). pose proof (sextet_val2_low b0 b1).
  apply val2_inj, sextets_inj; auto using val2_range; congruence.
Qed.

Lemma block3_inj a0 a1 a2 b0 b1 b2 :
  encode (sextet (val3 a0 a1 a2) 18) = encode (sextet (val3 b0 b1 b2) 18) ->
  encode (sextet (val3 a0 a1 a2) 12) = encode (sextet (val3 b0 b1 b2) 12) ->
  encode (sextet (val3 a0 a1 a2) 6) = encode (sextet (val3 b0 b1 b2) 6) ->
  encode (sextet (val3 a0 a1 a2) 0) = encode (sextet (val3 b0 b1 b2) 0) ->
  a0 = b0 /\ a1 = b1 /\ a2 = b2.
Proof.
  intros H18 H12 H6 H0. apply encode_sextet_inj in H18, H12, H6, H0; try lia.
  apply val3_inj, sextets_inj; auto using val3_range.
Qed.

Lemma String4_inj c0 c1 c2 c3 r d0 d1 d2 d3 t :
  String c0 (String c1 (String c2 (String c3 r)))
  = String d0 (String d1 (String d2 (String d3 t))) ->
  c0 = d0 /\ c1 = d1 /\ c2 = d2 /\ c3 = d3 /\ r = t.
Proof. intros H. inversion H. auto. Qed.

(** Injectivity, by induction on a bound of the length of the source:
    the encoder consumes three bytes at a time. *)
Lemma EncodeToString_inj_bounded (n : nat) :
  forall x y : string,
    (String.length x <= n)%nat ->
    EncodeToString x = EncodeToString y -> x = y.
Proof.
  induction n as [| n IH]; intros x y Hlen H.
  - destruct x as [| a0 x]; [ | cbn in Hlen; lia].
    destruct y as [| b0 [| b1 [| b2 y]]]; [reflexivity | discriminate H ..].
  - destruct x as [| a0 [| a1 [| a2 x]]];
      destruct y as [| b0 [| b1 [| b2 y]]];
      cbn [EncodeToString] in H; cbv zeta in H;
      try reflexivity; try discriminate H;
      apply String4_inj in H; destruct H as (H18 & H12 & H6 & H0 & Hrest);
      try padding_clash.
    + f_equal. eapply block1_inj; eassumption.
    + destruct (block2_inj _ _ _ _ H18 H12 H6) as [-> ->]. reflexivity.
    + destruct (block3_inj _ _ _ _ _ _ H18 H12 H6 H0) as (-> & -> & ->).
      do 3 f_equal. apply IH; [cbn in Hlen; lia | exact Hrest].
Qed.

Lemma EncodeToString_inj (x y : string) :
  EncodeToString x = EncodeToString y -> x = y.
Proof. apply (EncodeToString_inj_bounded (String.length x)). lia. Qed.

End Base64Facts.

(** ** The sanitizer *)

Module SanitizeFacts.




(** Replacing the one-byte string ['] by the one-byte string [`] is a
    byte-wise substitution. *)
Lemma sanitize_map s : sanitize s = map_string subst_quote s.
Proof.
  unfold sanitize, Strings.ReplaceAll.
  induction s as [| c s IH]; [reflexivity | ].
  cbn [Strings.replace_from Strings.HasPrefix map_string].
  unfold subst_quote. destruct (Ascii.eqb c "'") eqn:E; cbn.
  - rewrite IH. reflexivity.
  - rewrite IH. reflexivity.
Qed.

Lemma sanitize_no_quote s : has_quote (sanitize s) = false.
Proof.
  rewrite sanitize_map. induction s as [| c s IH]; [reflexivity | ].
  cbn [map_string has_quote]. rewrite IH, orb_false_r. unfold subst_quote.
  destruct (Ascii.eqb c "'") eqn:E; [reflexivity | exact E].
Qed.

Lemma no_quote_sanitize s : has_quote s = false -> sanitize s = s.
Proof.
  rewrite sanitize_map. induction s as [| c s IH]; [reflexivity | ].
  cbn [map_string has_quote]. intros H.
  apply orb_false_elim in H as [Hc Hs].
  rewrite IH by assumption. unfold subst_quote. rewrite Hc. reflexivity.
Qed.

Lemma sanitize_idem s : sanitize (sanitize s) = sanitize s.
Proof. apply no_quote_sanitize, sanitize_no_quote. Qed.

Lemma sanitize_fixed_no_quote s : sanitize s = s -> has_quote s = false.
Proof. intros <-. apply sanitize_no_quote. Qed.

End SanitizeFacts.

(** ** Computations: equations and what a run adds to the trace *)

Lemma bind_Returns {A B} (m : M A) (k : A -> M B) w a w' :
  m w = Returns a w' -> bind m k w = k a w'.
Proof. unfold bind. intros ->. reflexivity. Qed.

Lemma bind_Panics {A B} (m : M A) (k : A -> M B) w w' :
  m w = Panics w' -> bind m k w = Panics w'.
Proof. unfold bind. intros ->. reflexivity. Qed.

Lemma bind_Exits {A B} (m : M A) (k : A -> M B) w w' :
  m w = Exits w' -> bind m k w = Exits w'.
Proof. unfold bind. intros ->. reflexivity. Qed.

Lemma final_bind {A B} (m : M A) (k : A -> M B) w :
  final (bind m k w)
  = match m w with
    | Returns a w' => final (k a w')
    | Panics w' => w'
    | Exits w' => w'
    end.
Proof. unfold bind. destruct (m w); reflexivity. Qed.




Lemma extends_refl P w : extends P w w.
Proof. exists []. split; [symmetry; apply app_nil_r | constructor]. Qed.

Lemma extends_trans P w0 w1 w2 :
  extends P w0 w1 -> extends P w1 w2 -> extends P w0 w2.
Proof.
  intros (es1 & E1 & F1) (es2 & E2 & F2). exists (es1 ++ es2)%list. split.
  - rewrite E2, E1, app_assoc. reflexivity.
  - apply Forall_app. split; assumption.
Qed.

Lemma extends_weaken (P Q : Event -> Prop) w0 w :
  (forall e, P e -> Q e) -> extends P w0 w -> extends Q w0 w.
Proof.
  intros PQ (es & E & F). exists es. split; [exact E | ].
  eapply Forall_impl; eassumption.
Qed.

Lemma extends_record P e w : P e -> extends P w (record e w).
Proof. intros HP. exists [e]. split; [reflexivity | repeat constructor; exact HP]. Qed.

Lemma emits_ret {A} P (a : A) : emits P (ret a).
Proof. intros w. apply extends_refl. Qed.

Lemma emits_bind {A B} P (m : M A) (k : A -> M B) :
  emits P m -> (forall a, emits P (k a)) -> emits P (bind m k).
Proof.
  intros Hm Hk w. rewrite final_bind. specialize (Hm w).
  destruct (m w) as [a w' | w' | w']; cbn in Hm; try exact Hm.
  eapply extends_trans; [exact Hm | apply Hk].
Qed.

Lemma emits_silent {A} P (m : M A) : silent m -> emits P m.
Proof.
  intros Hs w. exists []. split; [ | constructor].
  rewrite Hs, app_nil_r. reflexivity.
Qed.

Lemma emits_emit P e : P e -> emits P (emit e).
Proof. intros HP w. apply extends_record, HP. Qed.

Lemma emits_log_Println P l : P (Logged l) -> emits P (log_Println l).
Proof. apply emits_emit. Qed.

Lemma emits_log_Fatal {A} P l : P (Logged l) -> emits P (@log_Fatal A l).
Proof. intros HP w. apply extends_record, HP. Qed.

Lemma emits_deref {A} P (p : option A) : emits P (deref p).
Proof. apply emits_silent. intros w. destruct p; reflexivity. Qed.

Lemma emits_weaken {A} (P Q : Event -> Prop) (m : M A) :
  (forall e, P e -> Q e) -> emits P m -> emits Q m.
Proof. intros PQ Hm w. eapply extends_weaken; [exact PQ | apply Hm]. Qed.

Lemma silent_next_db_fault : silent next_db_fault.
Proof. intros w. reflexivity. Qed.

Lemma silent_next_es_fault : silent next_es_fault.
Proof. intros w. reflexivity. Qed.

Lemma silent_time_Now : silent time_Now.
Proof. intros w. reflexivity. Qed.

(** ** The index protocol of [pushArticleToES] and [pushSiteToES] *)


Lemma pushArticleToES_eq a t d : pushArticleToES a t d = pushToES "articles" a t d.
Proof. reflexivity. Qed.

Lemma pushSiteToES_eq a t d : pushSiteToES a t d = pushToES "sites" a t d.
Proof. reflexivity. Qed.



Ltac run_es H :=
  unfold pushToES, ES.Update, ES.Create, bind, next_es_fault, emit, ret, deref;
  rewrite ?H; cbn.

(** The update call gets no response: the function panics. *)
Lemma pushToES_transport index docId title description w msg :
  es_fault w = EsTransport msg ->
  pushToES index docId title description w
  = Panics (record (EsUpdate index docId (update_body title description)
                      None (Some (DriverError msg)))
              (es_next w)).
Proof. intros H. run_es H. reflexivity. Qed.

(** The update call is answered with an error other than 404: the
    function returns [nil]. *)
Lemma pushToES_rejected index docId title description w res :
  es_fault w = EsRejects res ->
  IsError res = true -> StatusCode res <> 404 ->
  pushToES index docId title description w
  = Returns None
      (record (EsUpdate index docId (update_body title description)
                 (Some res) None)
         (es_next w)).
Proof.
  intros H HE H404. run_es H. rewrite HE. cbn. rewrite HE.
  apply Z.eqb_neq in H404. rewrite H404. reflexivity.
Qed.

(** A missing document, and nothing interferes: the update is answered
    with 404 and the document is created with the two fields. *)
Lemma pushToES_create index docId title description w :
  ES.interfered (es_fault w) = None ->
  docs w !! (index, docId) = None ->
  ES.interfered (es_fault (es_next w)) = None ->
  exists w',
    pushToES index docId title description w = Returns None w'
    /\ trace w'
       = (trace w
          ++ [EsUpdate index docId (update_body title description)
                (Some (ES.respond 404)) None;
              EsCreate index docId (create_body title description)
                (Some (ES.respond 201)) None])%list
    /\ docs w'
       = <[(index, docId) :=
             list_to_map [("title", JString title);
                          ("description", JString description)]]> (docs w).
Proof.
  intros Hf Hdoc Hf1.
  unfold pushToES, ES.Update, bind, next_es_fault, emit, ret, deref.
  rewrite Hf. change (docs (es_next w)) with (docs w). rewrite Hdoc.
  cbn [ES.partial_doc ES.member Marshal_ESUpdatePayload Marshal_ESPayload
       Doc Payload_Title Payload_Description String.eqb Ascii.eqb Bool.eqb
       fst snd IsError StatusCode ES.respond Z.ltb Z.eqb Z.compare
       Pos.compare Pos.compare_cont Pos.eqb].
  unfold ES.Create, bind, next_es_fault, emit, ret, deref.
  match goal with
  | |- context [ES.interfered (es_fault ?W)] =>
      change (es_fault W) with (es_fault (es_next w))
  end.
  rewrite Hf1. cbv beta. unfold Marshal_ESPayload.
  match goal with
  | |- context [docs ?W !! (index, docId)] => change (docs W) with (docs w)
  end.
  rewrite Hdoc.
  eexists. split; [reflexivity | ]. split; [ | reflexivity].
  cbn. rewrite <- app_assoc. reflexivity.
Qed.

(** A missing document whose creation is answered with an error: the
    error is returned when the body of the response can be read. *)
Lemma pushToES_create_rejected index docId title description w res :
  ES.interfered (es_fault w) = None ->
  docs w !! (index, docId) = None ->
  es_fault (es_next w) = EsRejects res ->
  IsError res = true -> BodyErr res = None ->
  exists w',
    pushToES index docId title description w
    = Returns (Some (ESError (StatusCode res) (Body res))) w'
    /\ trace w'
       = (trace w
          ++ [EsUpdate index docId (update_body title description)
                (Some (ES.respond 404)) None;
              EsCreate index docId (create_body title description)
                (Some res) None])%list
    /\ docs w' = docs w.
Proof.
  intros Hf Hdoc Hf1 HE Hbody.
  unfold pushToES, ES.Update, bind, next_es_fault, emit, ret, deref.
  rewrite Hf. change (docs (es_next w)) with (docs w). rewrite Hdoc.
  cbn [ES.partial_doc ES.member Marshal_ESUpdatePayload Marshal_ESPayload
       Doc Payload_Title Payload_Description String.eqb Ascii.eqb Bool.eqb
       fst snd IsError StatusCode ES.respond Z.ltb Z.eqb Z.compare
       Pos.compare Pos.compare_cont Pos.eqb].
  unfold ES.Create, bind, next_es_fault, emit, ret, deref.
  match goal with
  | |- context [ES.interfered (es_fault ?W)] =>
      change (es_fault W) with (es_fault (es_next w))
  end.
  rewrite Hf1. cbn [ES.interfered]. rewrite HE. cbn [fst snd].
  rewrite HE. unfold io_ReadAll. rewrite Hbody.
  eexists. split; [reflexivity | ]. split; [ | reflexivity].
  cbn. rewrite <- app_assoc. reflexivity.
Qed.

(** *** What each call adds to the trace *)

Lemma silent_ret {A} (a : A) : silent (ret a).
Proof. intros w. reflexivity. Qed.

Ltac emits_step :=
  first
    [ apply emits_ret
    | apply emits_bind; [ | intros ? ]
    | apply emits_silent; apply silent_next_db_fault
    | apply emits_silent; apply silent_next_es_fault
    | apply emits_silent; apply silent_time_Now
    | apply emits_deref ].

Lemma emits_Exec_upsert_Sites P siteId feedUrl title link description :
  (forall err, P (ExecUpsertSite siteId feedUrl title link description err)) ->
  emits P (DB.Exec_upsert_Sites siteId feedUrl title link description).
Proof.
  intros HP. unfold DB.Exec_upsert_Sites. repeat emits_step.
  - apply emits_silent. intros w. destruct a; reflexivity.
  - apply emits_emit, HP.
Qed.

Lemma emits_Exec_upsert_Articles P articleId title link description pubDate
    siteId :
  (forall err,
     P (ExecUpsertArticle articleId title link description pubDate siteId
          err)) ->
  emits P
    (DB.Exec_upsert_Articles articleId title link description pubDate siteId).
Proof.
  intros HP. unfold DB.Exec_upsert_Articles. repeat emits_step.
  - apply emits_silent. intros w.
    destruct a; try reflexivity;
      destruct (timestamp_in (env w) pubDate); try reflexivity;
      destruct (DB.fk_violated w articleId siteId); reflexivity.
  - apply emits_emit, HP.
Qed.

Lemma emits_Exec_delete_Articles P articleId :
  (forall err, P (ExecDeleteArticle articleId err)) ->
  emits P (DB.Exec_delete_Articles articleId).
Proof.
  intros HP. unfold DB.Exec_delete_Articles. repeat emits_step.
  - apply emits_silent. intros w. destruct a; reflexivity.
  - apply emits_emit, HP.
Qed.

Lemma emits_ES_Update P index docId body :
  (forall res err, P (EsUpdate index docId body res err)) ->
  emits P (ES.Update index docId body).
Proof.
  intros HP. unfold ES.Update. repeat emits_step.
  - apply emits_silent. intros w. destruct (ES.interfered a); [reflexivity | ].
    destruct (ES.partial_doc body), (docs w !! (index, docId)); reflexivity.
  - apply emits_emit, HP.
Qed.

Lemma emits_ES_Create P index docId body :
  (forall res err, P (EsCreate index docId body res err)) ->
  emits P (ES.Create index docId body).
Proof.
  intros HP. unfold ES.Create. repeat emits_step.
  - apply emits_silent. intros w. destruct (ES.interfered a); [reflexivity | ].
    destruct body, (docs w !! (index, docId)); reflexivity.
  - apply emits_emit, HP.
Qed.

Lemma emits_ES_Delete P index docId :
  (forall res err, P (EsDelete index docId res err)) ->
  emits P (ES.Delete index docId).
Proof.
  intros HP. unfold ES.Delete. repeat emits_step.
  - apply emits_silent. intros w. destruct (ES.interfered a); [reflexivity | ].
    destruct (docs w !! (index, docId)); reflexivity.
  - apply emits_emit, HP.
Qed.


Lemma emits_pushToES P index docId title description :
  (forall e, es_event index docId title description e -> P e) ->
  emits P (pushToES index docId title description).
Proof.
  intros HP. unfold pushToES. cbv zeta.
  apply emits_bind.
  { apply emits_ES_Update. intros res err. apply HP. constructor. }
  intros [res err]. apply emits_bind; [apply emits_deref | ].
  intros r. destruct (IsError r); [ | apply emits_ret].
  destruct (StatusCode r =? 404); [ | apply emits_ret].
  apply emits_bind.
  { apply emits_ES_Create. intros res' err'. apply HP. constructor. }
  intros [res' err']. apply emits_bind; [apply emits_deref | ].
  intros r'. destruct (IsError r'); [ | apply emits_ret].
  destruct (io_ReadAll r') as [errBody [e | ]]; apply emits_ret.
Qed.

(** *** The calls of a feed task *)





Lemma article_event_incl siteId items items' e :
  (forall a, In a items -> In a items') ->
  article_event siteId items e -> article_event siteId items' e.
Proof.
  intros Hin He. destruct He.
  - apply article_event_db; auto.
  - eapply article_event_es; eauto.
  - apply article_event_log.
Qed.

Lemma emits_pushSite P feedUrl data :
  (forall e, site_event feedUrl (Rss_Channel data) e -> P e) ->
  emits P (pushSite feedUrl data).
Proof.
  intros HP. unfold pushSite. cbv zeta.
  match goal with |- emits _ (if ?c then _ else _) => destruct c end;
    [apply emits_ret | ].
  apply emits_bind.
  { apply emits_Exec_upsert_Sites. intros err. apply HP. constructor. }
  intros [e | ]; [apply emits_ret | ].
  apply emits_bind; [ | intros; apply emits_ret].
  rewrite pushSiteToES_eq. apply emits_pushToES.
  intros e He. apply HP. apply site_event_es. exact He.
Qed.

Lemma emits_pushArticles_items P siteId items :
  (forall e, article_event siteId items e -> P e) ->
  emits P (pushArticles_items siteId items).
Proof.
  induction items as [| a rest IH]; intros HP; cbn [pushArticles_items].
  - apply emits_ret.
  - fold (item_empty a). destruct (item_empty a) eqn:Ea.
    + apply emits_log_Println, HP. constructor.
    + cbv zeta. apply emits_bind.
      { apply emits_Exec_upsert_Articles. intros err. apply HP.
        apply article_event_db; [left; reflexivity | exact Ea]. }
      intros [e | ]; [apply emits_log_Println, HP; constructor | ].
      apply emits_bind.
      { rewrite pushArticleToES_eq. apply emits_pushToES. intros e He.
        apply HP. eapply article_event_es; [left; reflexivity | exact Ea | exact He]. }
      intros [e | ]; [apply emits_log_Println, HP; constructor | ].
      apply IH. intros e He. apply HP.
      eapply article_event_incl; [ | exact He]. intros b Hb. right. exact Hb.
Qed.

(** ** Fail-fast on the first invalid item *)






(** Of the items [valid; invalid; valid] of a feed, the first is the
    only one in the store and in the index afterwards. *)
Example fail_fast_scenario :
  let w := final (feedTask "http://a"
                    (Examples.world0
                       [Examples.item1; Examples.item2; Examples.item3] 0)) in
  map_to_list (articles w)
  = [(deriveId "http://a/1",
      {| article_title := "I1"; article_link := "http://a/1";
         article_description := "D1"; article_pubdate := Some 0;
         article_site_id := deriveId "http://a" |})]
  /\ docs w !! ("articles", deriveId "http://a/2") = None
  /\ docs w !! ("articles", deriveId "http://a/3") = None
  /\ doc_field w "articles" (deriveId "http://a/1") "title"
     = Some (JString "I1").
Proof. cbv zeta. repeat split; vm_compute; reflexivity. Qed.

(** ** The identity derivation *)

(** C8.  The id is a function of its input alone, and distinct inputs
    have distinct ids: the encoding is injective. *)
Theorem C8_deriveId_injective (x y : string) :
  x <> y -> deriveId x <> deriveId y.
Proof.
  intros Hxy H. apply Hxy. apply Base64Facts.EncodeToString_inj. exact H.
Qed.

Lemma C8_deriveId_injective_witness :
  "http://a/1" <> "http://a/2"
  /\ deriveId "http://a/1" <> deriveId "http://a/2".
Proof.
  split; [discriminate | ].
  apply (C8_deriveId_injective "http://a/1" "http://a/2"). discriminate.
Defined.

(** ** The index protocol: errors that are not reported *)

(** C10.  When the update call gets no response, both helpers panic on
    the nil response, right after the call, instead of returning its
    error. *)
Theorem C10_es_helpers_panic_without_response
    (w : World) (msg : string) (docId title description : string) :
  es_fault w = EsTransport msg ->
  (exists w',
     pushArticleToES docId title description w = Panics w'
     /\ trace w'
        = (trace w
           ++ [EsUpdate "articles" docId (update_body title description)
                 None (Some (DriverError msg))])%list)
  /\ (exists w',
        pushSiteToES docId title description w = Panics w'
        /\ trace w'
           = (trace w
              ++ [EsUpdate "sites" docId (update_body title description)
                    None (Some (DriverError msg))])%list).
Proof.
  intros H. split; eexists.
  - split; [rewrite pushArticleToES_eq; apply pushToES_transport, H | ].
    reflexivity.
  - split; [rewrite pushSiteToES_eq; apply pushToES_transport, H | ].
    reflexivity.
Qed.

Lemma C10_es_helpers_panic_without_response_witness :
  es_fault Examples.world_unreachable = EsTransport "connection refused"
  /\ (exists w',
        pushArticleToES "aHR0cDovL2EvMQ==" "I1" "D1"
          Examples.world_unreachable = Panics w'
        /\ trace w'
           = (trace Examples.world_unreachable
              ++ [EsUpdate "articles" "aHR0cDovL2EvMQ==" (update_body "I1" "D1")
                    None (Some (DriverError "connection refused"))])%list).
Proof.
  split; [reflexivity | ].
  exact (proj1 (C10_es_helpers_panic_without_response
                  Examples.world_unreachable "connection refused"
                  "aHR0cDovL2EvMQ==" "I1" "D1" eq_refl)).
Defined.

(** C1.  An error of the index other than 404 is not returned as the
    error of the write: when the update is answered with status 500, no
    create is attempted and both helpers return [nil], so the caller sees
    a successful write. *)
Theorem C1_update_error_is_returned_as_nil :
  pushArticleToES "aHR0cDovL2EvMQ==" "I1" "D1" Examples.world_rejecting
  = Returns None
      (record (EsUpdate "articles" "aHR0cDovL2EvMQ==" (update_body "I1" "D1")
                 (Some Examples.response500) None)
         (es_next Examples.world_rejecting))
  /\ pushSiteToES "aHR0cDovL2E=" "T" "D" Examples.world_rejecting
     = Returns None
         (record (EsUpdate "sites" "aHR0cDovL2E=" (update_body "T" "D")
                    (Some Examples.response500) None)
            (es_next Examples.world_rejecting)).
Proof.
  split.
  - rewrite pushArticleToES_eq. apply pushToES_rejected;
      [reflexivity | reflexivity | discriminate].
  - rewrite pushSiteToES_eq. apply pushToES_rejected;
      [reflexivity | reflexivity | discriminate].
Qed.

(** ** Ids contain no single quote *)

Module Base64Quote.
Import Base64 Base64Facts SanitizeFacts.




End Base64Quote.

(** ** All the calls of a feed task *)

Lemma emits_bind_res {A B} P (R : A -> Prop) (m : M A) (k : A -> M B) :
  emits P m ->
  (forall w a w', m w = Returns a w' -> R a) ->
  (forall a, R a -> emits P (k a)) ->
  emits P (bind m k).
Proof.
  intros Hm HR Hk w. rewrite final_bind. specialize (Hm w).
  destruct (m w) as [a w' | w' | w'] eqn:E; cbn in Hm; try exact Hm.
  eapply extends_trans; [exact Hm | ]. apply Hk. eapply HR. exact E.
Qed.

(** [pushSite] reports success only with the id derived from the URL. *)
Lemma pushSite_siteId feedUrl data w siteId w' :
  pushSite feedUrl data w = Returns (siteId, None) w' ->
  siteId = deriveId feedUrl.
Proof.
  unfold pushSite. cbv zeta.
  match goal with |- context [if ?c then _ else _] => destruct c end;
    [discriminate | ].
  unfold bind.
  destruct (pushSiteToDB _ _ _ _ _ w) as [[e | ] w1 | w1 | w1];
    try discriminate.
  destruct (pushSiteToES _ _ _ w1) as [err w2 | w2 | w2]; try discriminate.
  unfold ret. intros H. inversion H. reflexivity.
Qed.


Lemma scrapeRss_eq feedUrl w :
  scrapeRss feedUrl w
  = match web (env w) feedUrl with
    | Some data => Returns data (record (HttpGet feedUrl (Some data)) w)
    | None =>
        Exits (record (Logged (LogFetchError feedUrl))
                 (record (HttpGet feedUrl None) w))
    end.
Proof.
  unfold scrapeRss, bind, emit. destruct (web (env w) feedUrl); reflexivity.
Qed.

Lemma feedTask_events url w :
  extends (feed_event url (web (env w) url)) w (final (feedTask url w)).
Proof.
  unfold feedTask. rewrite final_bind, scrapeRss_eq.
  destruct (web (env w) url) as [data | ] eqn:Hweb.
  - eapply extends_trans; [apply extends_record, feed_event_get | ].
    apply (emits_bind_res _ (fun r => r.2 = None -> r.1 = deriveId url)).
    + apply emits_pushSite. intros e He. eapply feed_event_site; eauto.
    + intros w0 [sid [e | ]] w1 H; cbn; [discriminate | ].
      intros _. eapply pushSite_siteId. exact H.
    + intros [sid [e | ]] Hsid; cbn in *.
      * apply emits_log_Println, feed_event_log.
      * rewrite Hsid by reflexivity. unfold pushArticles.
        apply emits_pushArticles_items. intros e He.
        eapply feed_event_article; eauto.
  - exists [HttpGet url None; Logged (LogFetchError url)].
    split.
    + cbn. rewrite <- app_assoc. reflexivity.
    + repeat constructor.
Qed.

(** ** What is sanitized *)










(** ** Invariants of the store *)



Lemma preserves_ret {A} I (a : A) : preserves I (ret a).
Proof. intros w Hw. exact Hw. Qed.

Lemma preserves_bind {A B} I (m : M A) (k : A -> M B) :
  preserves I m -> (forall a, preserves I (k a)) -> preserves I (bind m k).
Proof.
  intros Hm Hk w Hw. rewrite final_bind. specialize (Hm w Hw).
  destruct (m w) as [a w' | w' | w']; cbn in Hm; try exact Hm.
  apply Hk, Hm.
Qed.

Lemma keeps_store_ret {A} (a : A) : keeps_store (ret a).
Proof. intros w. split; reflexivity. Qed.

Lemma keeps_store_bind {A B} (m : M A) (k : A -> M B) :
  keeps_store m -> (forall a, keeps_store (k a)) -> keeps_store (bind m k).
Proof.
  intros Hm Hk w. rewrite final_bind. specialize (Hm w).
  destruct (m w) as [a w' | w' | w']; cbn in Hm; try exact Hm.
  destruct (Hk a w') as [Hs Ha], Hm as [Hs' Ha'].
  split; congruence.
Qed.

Lemma keeps_store_emit e : keeps_store (emit e).
Proof. intros w. split; reflexivity. Qed.

Lemma keeps_store_log_Fatal {A} l : keeps_store (@log_Fatal A l).
Proof. intros w. split; reflexivity. Qed.

Lemma keeps_store_deref {A} (p : option A) : keeps_store (deref p).
Proof. intros w. destruct p; split; reflexivity. Qed.

Lemma keeps_store_next_es_fault : keeps_store next_es_fault.
Proof. intros w. split; reflexivity. Qed.

Lemma keeps_store_next_db_fault : keeps_store next_db_fault.
Proof. intros w. split; reflexivity. Qed.

Lemma keeps_store_time_Now : keeps_store time_Now.
Proof. intros w. split; reflexivity. Qed.

Ltac keeps_step :=
  first
    [ apply keeps_store_ret
    | apply keeps_store_emit
    | apply keeps_store_log_Fatal
    | apply keeps_store_deref
    | apply keeps_store_next_es_fault
    | apply keeps_store_next_db_fault
    | apply keeps_store_time_Now
    | apply keeps_store_bind; [ | intros ? ] ].

Lemma keeps_store_ES_Update index docId body :
  keeps_store (ES.Update index docId body).
Proof.
  unfold ES.Update. repeat keeps_step.
  intros w. destruct (ES.interfered a); [split; reflexivity | ].
  destruct (ES.partial_doc body), (docs w !! (index, docId));
    split; reflexivity.
Qed.

Lemma keeps_store_ES_Create index docId body :
  keeps_store (ES.Create index docId body).
Proof.
  unfold ES.Create. repeat keeps_step.
  intros w. destruct (ES.interfered a); [split; reflexivity | ].
  destruct body, (docs w !! (index, docId)); split; reflexivity.
Qed.

Lemma keeps_store_ES_Delete index docId :
  keeps_store (ES.Delete index docId).
Proof.
  unfold ES.Delete. repeat keeps_step.
  intros w. destruct (ES.interfered a); [split; reflexivity | ].
  destruct (docs w !! (index, docId)); split; reflexivity.
Qed.

Lemma keeps_store_pushToES index docId title description :
  keeps_store (pushToES index docId title description).
Proof.
  unfold pushToES. cbv zeta.
  apply keeps_store_bind; [apply keeps_store_ES_Update | ].
  intros [res err]. apply keeps_store_bind; [apply keeps_store_deref | ].
  intros r. destruct (IsError r); [ | apply keeps_store_ret].
  destruct (StatusCode r =? 404); [ | apply keeps_store_ret].
  apply keeps_store_bind; [apply keeps_store_ES_Create | ].
  intros [res' err']. apply keeps_store_bind; [apply keeps_store_deref | ].
  intros r'. destruct (IsError r'); [ | apply keeps_store_ret].
  destruct (io_ReadAll r') as [errBody [e | ]]; apply keeps_store_ret.
Qed.









(** ** Ids and natural keys *)














(** ** Re-upserting: what changes *)

Lemma Exec_upsert_Sites_ok siteId feedUrl title link description w w' :
  DB.Exec_upsert_Sites siteId feedUrl title link description w
    = Returns None w' ->
  sites w' = DB.upsert_Sites siteId feedUrl title link description (sites w)
  /\ articles w' = articles w /\ docs w' = docs w.
Proof.
  unfold DB.Exec_upsert_Sites, bind, next_db_fault, emit, ret.
  destruct (db_fault w); cbn; try discriminate;
    intros [= <-]; repeat split; reflexivity.
Qed.

Lemma Exec_upsert_Articles_ok articleId title link description pubDate siteId
    w w' :
  DB.Exec_upsert_Articles articleId title link description pubDate siteId w
    = Returns None w' ->
  exists ts,
    timestamp_in (env w) pubDate = Some ts
    /\ articles w'
       = DB.upsert_Articles articleId title link description ts siteId
           (articles w)
    /\ sites w' = sites w /\ docs w' = docs w.
Proof.
  unfold DB.Exec_upsert_Articles, bind, next_db_fault, emit, ret.
  change (env (db_next w)) with (env w).
  destruct (db_fault w); cbn; try discriminate;
    destruct (timestamp_in (env w) pubDate) as [ts | ]; cbn;
    try discriminate;
    destruct (DB.fk_violated (db_next w) articleId siteId); cbn;
    try discriminate;
    intros [= <-]; exists ts; repeat split; reflexivity.
Qed.

Lemma upsert_Sites_conflict siteId feedUrl title link description t old :
  t !! siteId = Some old ->
  DB.upsert_Sites siteId feedUrl title link description t
  = <[siteId := {| site_url := site_url old; site_title := title;
                   site_link := site_link old;
                   site_description := description |}]> t.
Proof. intros H. unfold DB.upsert_Sites. rewrite H. reflexivity. Qed.

Lemma upsert_Articles_conflict articleId title link description ts siteId t
    old :
  t !! articleId = Some old ->
  DB.upsert_Articles articleId title link description ts siteId t
  = <[articleId := {| article_title := title;
                      article_link := article_link old;
                      article_description := description;
                      article_pubdate := article_pubdate old;
                      article_site_id := article_site_id old |}]> t.
Proof. intros H. unfold DB.upsert_Articles. rewrite H. reflexivity. Qed.


Lemma merged_other title description src f :
  f <> "title" -> f <> "description" ->
  merged title description src !! f = src !! f.
Proof.
  intros Ht Hd. unfold merged. cbn [list_to_map foldr fst snd uncurry].
  rewrite lookup_union_r; [reflexivity | ].
  rewrite !lookup_insert_ne by congruence. apply lookup_empty.
Qed.

Lemma merged_title title description src :
  merged title description src !! "title" = Some (JString title).
Proof.
  unfold merged. apply lookup_union_Some_l.
  cbn [list_to_map foldr fst snd uncurry]. apply lookup_insert_eq.
Qed.

Lemma merged_description title description src :
  merged title description src !! "description" = Some (JString description).
Proof.
  unfold merged. apply lookup_union_Some_l.
  cbn [list_to_map foldr fst snd uncurry].
  rewrite lookup_insert_ne by discriminate. apply lookup_insert_eq.
Qed.

(** An existing document, and nothing interferes: the two fields are
    merged into it by the update, and no create follows. *)
Lemma pushToES_merge index docId title description w src :
  ES.interfered (es_fault w) = None ->
  docs w !! (index, docId) = Some src ->
  pushToES index docId title description w
  = Returns None
      (record (EsUpdate index docId (update_body title description)
                 (Some (ES.respond 200)) None)
         (with_docs (<[(index, docId) := merged title description src]>
                       (docs w))
            (es_next w))).
Proof.
  intros Hf Hdoc.
  unfold pushToES, ES.Update, bind, next_es_fault, emit, ret, deref.
  rewrite Hf. change (docs (es_next w)) with (docs w). rewrite Hdoc.
  reflexivity.
Qed.

(** *** The calls of the reaper *)


Lemma emits_Query_Articles P :
  (forall err, P (QueryArticles err)) -> emits P DB.Query_Articles.
Proof.
  intros HP. unfold DB.Query_Articles.
  apply emits_bind; [apply emits_silent, silent_next_db_fault | intros f].
  apply emits_bind.
  - apply emits_silent. intros w. destruct f; reflexivity.
  - intros [rows err]. apply emits_bind; [apply emits_emit, HP | ].
    intros _. apply emits_ret.
Qed.

Lemma emits_cleanOutdated_row P articleInfo deleteCount :
  (forall e, reap_event e -> P e) ->
  emits P (cleanOutdated_row articleInfo deleteCount).
Proof.
  intros HP. unfold cleanOutdated_row.
  apply emits_bind; [apply emits_silent, silent_time_Now | intros now].
  destruct (articleThreshold <? _); [ | apply emits_ret].
  apply emits_bind.
  { apply emits_Exec_delete_Articles. intros err. apply HP. exact I. }
  intros [e | ]; [apply emits_log_Fatal, HP; exact I | ].
  apply emits_bind.
  { apply emits_ES_Delete. intros res err. apply HP. reflexivity. }
  intros [res [e | ]]; [apply emits_log_Fatal, HP; exact I | ].
  apply emits_bind; [apply emits_deref | intros r].
  destruct (IsError r); [ | apply emits_ret].
  destruct (io_ReadAll r) as [resBody [msg | ]];
    apply emits_log_Fatal, HP; exact I.
Qed.

Lemma emits_cleanOutdated_rows P rows :
  (forall e, reap_event e -> P e) ->
  forall scannedCount deleteCount,
    emits P (cleanOutdated_rows rows scannedCount deleteCount).
Proof.
  intros HP. induction rows as [| a rest IH]; intros sc dc;
    cbn [cleanOutdated_rows].
  - apply emits_ret.
  - apply emits_bind; [apply emits_cleanOutdated_row, HP | ].
    intros dc'. apply IH.
Qed.

Lemma emits_cleanOutdated P :
  (forall e, reap_event e -> P e) -> emits P cleanOutdated.
Proof.
  intros HP. unfold cleanOutdated.
  apply emits_bind; [apply emits_log_Println, HP; exact I | intros _].
  apply emits_bind.
  { apply emits_Query_Articles. intros err. apply HP. exact I. }
  intros [rows [e | ]]; [apply emits_log_Fatal, HP; exact I | ].
  apply emits_bind; [apply emits_cleanOutdated_rows, HP | ].
  intros [sc dc]. apply emits_log_Println, HP. exact I.
Qed.

(** *** The fields pushed to the index *)



Lemma es_event_fields index docId title description e :
  es_event index docId title description e -> title_and_description e.
Proof.
  intros He f. destruct He; cbn; intros [<- | [<- | []]]; auto.
Qed.

Lemma feed_event_fields url doc e :
  feed_event url doc e -> title_and_description e.
Proof.
  intros He. destruct He as [ | data e _ He | data e _ He | l];
    try (intros f []).
  - destruct He as [err | e He]; [intros f [] | ].
    eapply es_event_fields, He.
  - destruct He as [a err _ _ | a e _ _ He | l]; try (intros f []).
    eapply es_event_fields, He.
Qed.

Lemma reap_event_fields e : reap_event e -> title_and_description e.
Proof. destruct e; cbn; intros H f; try contradiction; intros []. Qed.

(** C5.  Writing an entity that the store already has changes its title
    and description and nothing else: the [url] and [link] of a site and
    the [link], [pubdate] and [site_id] of an article stay as they are.
    Updating a document that the index already has changes these two
    fields only, and every body the program sends to the index, in a
    feed task or in the reaper, names no other field. *)
Theorem C5_reupsert_changes_title_and_description_only :
  (forall w w' siteId feedUrl title link description old,
     sites w !! siteId = Some old ->
     pushSiteToDB siteId feedUrl title link description w = Returns None w' ->
     sites w'
     = <[siteId := {| site_url := site_url old; site_title := title;
                      site_link := site_link old;
                      site_description := description |}]> (sites w)
     /\ articles w' = articles w)
  /\ (forall w w' articleId title link description pubDate siteId old,
        articles w !! articleId = Some old ->
        pushArticleToDB articleId title link description pubDate siteId w
          = Returns None w' ->
        articles w'
        = <[articleId := {| article_title := title;
                            article_link := article_link old;
                            article_description := description;
                            article_pubdate := article_pubdate old;
                            article_site_id := article_site_id old |}]>
            (articles w)
        /\ sites w' = sites w)
  /\ (forall w docId title description src,
        ES.interfered (es_fault w) = None ->
        (docs w !! ("sites", docId) = Some src ->
         exists w',
           pushSiteToES docId title description w = Returns None w'
           /\ docs w'
              = <[("sites", docId) := merged title description src]> (docs w))
        /\ (docs w !! ("articles", docId) = Some src ->
            exists w',
              pushArticleToES docId title description w = Returns None w'
              /\ docs w'
                 = <[("articles", docId) := merged title description src]>
                     (docs w)))
  /\ (forall title description src f,
        f <> "title" -> f <> "description" ->
        merged title description src !! f = src !! f)
  /\ (forall url w,
        extends title_and_description w (final (feedTask url w)))
  /\ (forall w, extends title_and_description w (final (cleanOutdated w))).
Proof.
  repeat apply conj.
  - intros w w' siteId feedUrl title link description old Hold H.
    apply Exec_upsert_Sites_ok in H as (Hs & Ha & _).
    rewrite Hs, (upsert_Sites_conflict _ _ _ _ _ _ _ Hold). auto.
  - intros w w' articleId title link description pubDate siteId old Hold H.
    apply Exec_upsert_Articles_ok in H as (ts & _ & Ha & Hs & _).
    rewrite Ha, (upsert_Articles_conflict _ _ _ _ _ _ _ _ Hold). auto.
  - intros w docId title description src Hf. split; intros Hdoc.
    + rewrite pushSiteToES_eq, (pushToES_merge _ _ _ _ _ _ Hf Hdoc).
      eexists. split; reflexivity.
    + rewrite pushArticleToES_eq, (pushToES_merge _ _ _ _ _ _ Hf Hdoc).
      eexists. split; reflexivity.
  - apply merged_other.
  - intros url w. eapply extends_weaken; [ | apply feedTask_events].
    intros e. apply feed_event_fields.
  - intros w. apply emits_cleanOutdated. apply reap_event_fields.
Qed.

Lemma C5_reupsert_changes_title_and_description_only_witness :
  sites Examples.world_with_site !! "aHR0cDovL2E=" = Some Examples.site_row0
  /\ sites
       (final (pushSiteToDB "aHR0cDovL2E=" "http://b" "T2" "http://b/home"
                 "D2" Examples.world_with_site))
     = <["aHR0cDovL2E=" :=
           {| site_url := "http://a"; site_title := "T2";
              site_link := "http://a"; site_description := "D2" |}]>
         (sites Examples.world_with_site).
Proof.
  assert (H1 : sites Examples.world_with_site !! "aHR0cDovL2E="
               = Some Examples.site_row0) by (vm_compute; reflexivity).
  split; [exact H1 | ].
  exact (proj1 (proj1 C5_reupsert_changes_title_and_description_only
                  Examples.world_with_site _ "aHR0cDovL2E=" "http://b" "T2"
                  "http://b/home" "D2" Examples.site_row0 H1 eq_refl)).
Defined.

(** ** The reaper *)



Lemma Exec_delete_Articles_eq articleId w :
  DB.Exec_delete_Articles articleId w
  = match db_fault w with
    | DbFails msg =>
        Returns (Some (DriverError msg))
          (record (ExecDeleteArticle articleId (Some (DriverError msg)))
             (db_next w))
    | _ =>
        Returns None
          (record (ExecDeleteArticle articleId None)
             (with_articles (delete articleId (articles w)) (db_next w)))
    end.
Proof.
  unfold DB.Exec_delete_Articles, bind, next_db_fault, emit, ret.
  destruct (db_fault w); reflexivity.
Qed.

Lemma ES_Delete_eq index docId w :
  ES.Delete index docId w
  = match ES.interfered (es_fault w) with
    | Some r => Returns r (record (EsDelete index docId r.1 r.2) (es_next w))
    | None =>
        match docs w !! (index, docId) with
        | None =>
            Returns (Some (ES.respond 404), None)
              (record (EsDelete index docId (Some (ES.respond 404)) None)
                 (es_next w))
        | Some _ =>
            Returns (Some (ES.respond 200), None)
              (record (EsDelete index docId (Some (ES.respond 200)) None)
                 (with_docs (delete (index, docId) (docs w)) (es_next w)))
        end
    end.
Proof.
  unfold ES.Delete, bind, next_es_fault, emit, ret.
  destruct (ES.interfered (es_fault w)); [reflexivity | ].
  change (docs (es_next w)) with (docs w).
  destruct (docs w !! (index, docId)); reflexivity.
Qed.

Lemma interfered_response f res :
  ES.interfered f = Some (Some res, None) -> IsError res = true.
Proof.
  destruct f as [ | msg | r]; cbn; try discriminate.
  destruct (IsError r) eqn:E; [ | discriminate]. intros [= <-]. exact E.
Qed.

Lemma interfered_shape f r :
  ES.interfered f = Some r ->
  (exists e, r = (None, Some e))
  \/ (exists res, r = (Some res, None) /\ IsError res = true).
Proof.
  destruct f as [ | msg | res]; cbn; try discriminate.
  - intros [= <-]. left. eauto.
  - destruct (IsError res) eqn:E; [ | discriminate].
    intros [= <-]. right. eauto.
Qed.

Lemma cleanOutdated_row_retained a dc w :
  outdated w a = false ->
  cleanOutdated_row a dc w = Returns dc (with_ticks (S (ticks w)) w).
Proof.
  intros H. unfold cleanOutdated_row, bind, time_Now. fold (outdated w a).
  rewrite H. reflexivity.
Qed.


Lemma cleanOutdated_row_eq a dc w :
  cleanOutdated_row a dc w
  = if outdated w a
    then
      bind (DB.Exec_delete_Articles (id a))
        (fun err =>
           match err with
           | Some e => log_Fatal (LogError e)
           | None => delete_from_index a dc
           end)
        (with_ticks (S (ticks w)) w)
    else Returns dc (with_ticks (S (ticks w)) w).
Proof.
  unfold cleanOutdated_row, bind at 1, time_Now. fold (outdated w a).
  destruct (outdated w a); reflexivity.
Qed.

Lemma trace_record2 w e1 e2 :
  trace (record e2 (record e1 w)) = (trace w ++ [e1; e2])%list.
Proof. cbn. rewrite <- app_assoc. reflexivity. Qed.

Lemma delete_from_index_spec a dc w :
  (exists w',
     delete_from_index a dc w = Returns (int_add dc 1) w'
     /\ trace w'
        = (trace w
           ++ [EsDelete "articles" (id a) (Some (ES.respond 200)) None])%list
     /\ docs w' = delete ("articles", id a) (docs w)
     /\ articles w' = articles w /\ sites w' = sites w
     /\ env w' = env w /\ ticks w' = ticks w)
  \/ (exists w' e l,
        delete_from_index a dc w = Exits w'
        /\ trace w' = (trace w ++ [e; Logged l])%list
        /\ delete_failed e = true).
Proof.
  unfold delete_from_index, bind. rewrite ES_Delete_eq.
  destruct (ES.interfered (es_fault w)) as [r | ] eqn:Hf.
  - right. apply interfered_shape in Hf as [[e ->] | (res & -> & HE)].
    + do 3 eexists. split; [reflexivity | ].
      split; [exact (trace_record2 (es_next w) _ _) | reflexivity].
    + cbn [deref fst snd]. rewrite HE. unfold io_ReadAll.
      destruct (BodyErr res) as [msg | ];
        (do 3 eexists; split; [reflexivity | ];
         split; [exact (trace_record2 (es_next w) _ _) | exact HE]).
  - destruct (docs w !! ("articles", id a)) as [src | ].
    + left. eexists. split; [reflexivity | ]. repeat split; reflexivity.
    + right. do 3 eexists. split; [reflexivity | ].
      split; [exact (trace_record2 (es_next w) _ _) | reflexivity].
Qed.

(** An outdated row: either both deletions succeed and the row is
    counted, or the first deletion step that fails is followed by the
    fatal log line and the exit of the process. *)
Lemma cleanOutdated_row_outdated a dc w :
  outdated w a = true ->
  (exists w',
     cleanOutdated_row a dc w = Returns (int_add dc 1) w'
     /\ trace w'
        = (trace w
           ++ [ExecDeleteArticle (id a) None;
               EsDelete "articles" (id a) (Some (ES.respond 200)) None])%list
     /\ articles w' = delete (id a) (articles w)
     /\ docs w' = delete ("articles", id a) (docs w)
     /\ sites w' = sites w /\ env w' = env w /\ ticks w' = S (ticks w))
  \/ (exists w' pre e l,
        cleanOutdated_row a dc w = Exits w'
        /\ trace w' = (trace w ++ pre ++ [e; Logged l])%list
        /\ Forall (fun e => delete_failed e = false) pre
        /\ delete_failed e = true).
Proof.
  intros H. rewrite cleanOutdated_row_eq, H. unfold bind.
  rewrite Exec_delete_Articles_eq.
  set (w1 := with_ticks (S (ticks w)) w).
  assert (Hok :
    let w2 := record (ExecDeleteArticle (id a) None)
                (with_articles (delete (id a) (articles w1)) (db_next w1)) in
    (exists w',
       delete_from_index a dc w2 = Returns (int_add dc 1) w'
       /\ trace w'
          = (trace w
             ++ [ExecDeleteArticle (id a) None;
                 EsDelete "articles" (id a) (Some (ES.respond 200)) None])%list
       /\ articles w' = delete (id a) (articles w)
       /\ docs w' = delete ("articles", id a) (docs w)
       /\ sites w' = sites w /\ env w' = env w /\ ticks w' = S (ticks w))
    \/ (exists w' pre e l,
          delete_from_index a dc w2 = Exits w'
          /\ trace w' = (trace w ++ pre ++ [e; Logged l])%list
          /\ Forall (fun e => delete_failed e = false) pre
          /\ delete_failed e = true)).
  { intros w2.
    destruct (delete_from_index_spec a dc w2)
      as [(w' & E & Ht & Hd & Ha & Hs & He & Hk) | (w' & e & l & E & Ht & Hf)].
    - left. exists w'. split; [exact E | ].
      rewrite Ht, Hd, Ha, Hs, He, Hk. cbn. rewrite <- app_assoc.
      repeat split; reflexivity.
    - right. exists w', [ExecDeleteArticle (id a) None], e, l.
      split; [exact E | ]. split; [ | split; [ | exact Hf]].
      + rewrite Ht. cbn. rewrite <- !app_assoc. reflexivity.
      + repeat constructor. }
  destruct (db_fault w1) as [ | msg | n]; try exact Hok.
  right. eexists. exists []. do 2 eexists.
  split; [reflexivity | ].
  split; [exact (trace_record2 (db_next w1) _ _) | ].
  split; [constructor | reflexivity].
Qed.

(** *** Counters *)

Lemma int_add_wrap64 a b : int_add (wrap64 a) b = wrap64 (a + b).
Proof.
  unfold int_add, wrap64. f_equal.
  replace ((a + 2 ^ 63) mod 2 ^ 64 - 2 ^ 63 + b + 2 ^ 63)
    with ((a + 2 ^ 63) mod 2 ^ 64 + b) by lia.
  rewrite Zplus_mod_idemp_l. f_equal. lia.
Qed.

Lemma wrap64_small z : - 2 ^ 63 <= z < 2 ^ 63 -> wrap64 z = z.
Proof. intros H. unfold wrap64. rewrite Z.mod_small by lia. lia. Qed.


Lemma deletions_app es1 es2 :
  deletions (es1 ++ es2) = (deletions es1 + deletions es2)%nat.
Proof.
  induction es1 as [| e es1 IH]; [reflexivity | ].
  destruct e; cbn; rewrite IH; reflexivity.
Qed.

(** *** The sweep over the rows *)

Lemma cleanOutdated_rows_cons a rest sc dc w :
  cleanOutdated_rows (a :: rest) sc dc w
  = match cleanOutdated_row a dc w with
    | Returns dc' w' => cleanOutdated_rows rest (int_add sc 1) dc' w'
    | Panics w' => Panics w'
    | Exits w' => Exits w'
    end.
Proof. reflexivity. Qed.

(** The trace and the counters of a sweep: it returns after deletions
    that all succeeded, having counted the rows and the deletions, or it
    exits right after the first deletion step that failed. *)
Lemma cleanOutdated_rows_shape rows :
  forall sc dc w,
    match cleanOutdated_rows rows (wrap64 sc) (wrap64 dc) w with
    | Returns (sc', dc') w' =>
        exists es,
          trace w' = (trace w ++ es)%list
          /\ Forall (fun e => delete_failed e = false) es
          /\ sc' = wrap64 (sc + Z.of_nat (length rows))
          /\ dc' = wrap64 (dc + Z.of_nat (deletions es))
    | Exits w' =>
        exists pre e l,
          trace w' = (trace w ++ pre ++ [e; Logged l])%list
          /\ Forall (fun e => delete_failed e = false) pre
          /\ delete_failed e = true
    | Panics _ => False
    end.
Proof.
  induction rows as [| a rest IH]; intros sc dc w.
  - cbn. exists []. rewrite app_nil_r, !Z.add_0_r. repeat split. constructor.
  - rewrite cleanOutdated_rows_cons.
    destruct (outdated w a) eqn:Hout.
    + destruct (cleanOutdated_row_outdated a (wrap64 dc) w Hout)
        as [(w1 & -> & Ht & _) | (w' & pre & e & l & -> & Ht & Hpre & He)].
      * rewrite !int_add_wrap64. specialize (IH (sc + 1) (dc + 1) w1).
        destruct (cleanOutdated_rows rest _ _ w1) as [[sc' dc'] w' | w' | w'].
        -- destruct IH as (es & Ht' & Hes & -> & ->).
           exists ([ExecDeleteArticle (id a) None;
                    EsDelete "articles" (id a) (Some (ES.respond 200)) None]
                   ++ es)%list.
           split; [rewrite Ht', Ht, <- app_assoc; reflexivity | ].
           split; [repeat constructor; exact Hes | ].
           split; f_equal; cbn [length deletions app]; lia.
        -- exact IH.
        -- destruct IH as (pre & e & l & Ht' & Hpre & He).
           exists ([ExecDeleteArticle (id a) None;
                    EsDelete "articles" (id a) (Some (ES.respond 200)) None]
                   ++ pre)%list, e, l.
           split; [rewrite Ht', Ht, <- !app_assoc; reflexivity | ].
           split; [repeat constructor; exact Hpre | exact He].
      * exists pre, e, l. auto.
    + rewrite cleanOutdated_row_retained by exact Hout.
      rewrite int_add_wrap64.
      specialize (IH (sc + 1) dc (with_ticks (S (ticks w)) w)).
      destruct (cleanOutdated_rows rest _ _ _) as [[sc' dc'] w' | w' | w'];
        try exact IH.
      destruct IH as (es & Ht' & Hes & -> & ->).
      exists es. split; [exact Ht' | ]. split; [exact Hes | ].
      split; f_equal; cbn [length]; lia.
Qed.



Lemma Query_Articles_eq w :
  DB.Query_Articles w
  = Returns (scanned_rows w, query_error w)
      (record (QueryArticles (query_error w)) (db_next w)).
Proof.
  unfold DB.Query_Articles, bind, next_db_fault, emit, ret, scanned_rows,
    query_error.
  change (articles (db_next w)) with (articles w).
  destruct (db_fault w); reflexivity.
Qed.


Lemma cleanOutdated_eq w :
  cleanOutdated w
  = match query_error w with
    | Some e => Exits (record (Logged (LogError e)) (after_query w))
    | None =>
        match cleanOutdated_rows (scanned_rows w) 0 0 (after_query w) with
        | Returns (sc, dc) w' =>
            Returns tt (record (Logged (LogDone sc dc)) w')
        | Panics w' => Panics w'
        | Exits w' => Exits w'
        end
    end.
Proof.
  unfold cleanOutdated, bind at 1, log_Println, emit.
  unfold bind at 1. rewrite Query_Articles_eq.
  change (query_error (record (Logged LogCleanup) w)) with (query_error w).
  change (scanned_rows (record (Logged LogCleanup) w)) with (scanned_rows w).
  fold (after_query w).
  destruct (query_error w) as [e | ]; [reflexivity | ].
  unfold bind.
  destruct (cleanOutdated_rows _ 0 0 _) as [[sc dc] w' | w' | w'];
    reflexivity.
Qed.

Lemma trace_after_query w :
  trace (after_query w)
  = (trace w ++ [Logged LogCleanup; QueryArticles (query_error w)])%list.
Proof. unfold after_query. cbn. rewrite <- app_assoc. reflexivity. Qed.

Lemma cleanOutdated_shape w :
  match cleanOutdated w with
  | Returns _ w' =>
      exists es,
        trace w'
        = (trace w ++ [Logged LogCleanup; QueryArticles None] ++ es
           ++ [Logged (LogDone (wrap64 (Z.of_nat (length (scanned_rows w))))
                         (wrap64 (Z.of_nat (deletions es))))])%list
        /\ Forall (fun e => delete_failed e = false) es
  | Exits w' =>
      (exists err,
         trace w'
         = (trace w ++ [Logged LogCleanup; QueryArticles (Some err);
                        Logged (LogError err)])%list)
      \/ (exists pre e l,
            trace w'
            = (trace w ++ [Logged LogCleanup; QueryArticles None] ++ pre
               ++ [e; Logged l])%list
            /\ Forall (fun e => delete_failed e = false) pre
            /\ delete_failed e = true)
  | Panics _ => False
  end.
Proof.
  rewrite cleanOutdated_eq. pose proof (trace_after_query w) as Hq.
  destruct (query_error w) as [err | ].
  - left. exists err. cbn [trace record]. rewrite Hq, <- app_assoc.
    reflexivity.
  - pose proof (cleanOutdated_rows_shape (scanned_rows w) 0 0 (after_query w))
      as H.
    change (wrap64 0) with 0 in H.
    destruct (cleanOutdated_rows _ 0 0 _) as [[sc dc] w' | w' | w'];
      try exact H.
    + destruct H as (es & Ht & Hes & -> & ->). exists es.
      split; [ | exact Hes].
      cbn [trace record]. rewrite Ht, Hq, <- !app_assoc. reflexivity.
    + right. destruct H as (pre & e & l & Ht & Hpre & He).
      exists pre, e, l. split; [ | auto].
      rewrite Ht, Hq, <- !app_assoc. reflexivity.
Qed.

Lemma failed_not_among_ok e es :
  Forall (fun e => delete_failed e = false) es ->
  delete_failed e = true -> ~ In e es.
Proof.
  intros Hes He Hin. rewrite Forall_forall in Hes.
  assert (delete_failed e = false) as H.
  { apply Hes. apply list_elem_of_In. exact Hin. }
  congruence.
Qed.

Lemma failed_is_last_call e e' l pre :
  Forall (fun e => delete_failed e = false) pre ->
  delete_failed e = true ->
  In e (pre ++ [e'; Logged l]) -> e = e'.
Proof.
  intros Hpre He Hin. apply in_app_or in Hin as [Hin | [Hin | [Hin | []]]].
  - exfalso. exact (failed_not_among_ok e pre Hpre He Hin).
  - symmetry. exact Hin.
  - subst e. discriminate He.
Qed.

(** C9.  In a sweep of the reaper, a deletion step that fails, in the
    store or in the index, ends the process: it is the last call of the
    run, followed by the fatal log line only, and no further row is
    looked at.  A sweep that returns has logged, as its last line, the
    number of rows scanned and the number of rows deleted. *)
Theorem C9_reaper_deletion_failure_is_fatal (w : World) :
  (forall es e,
     trace (final (cleanOutdated w)) = (trace w ++ es)%list ->
     In e es -> delete_failed e = true ->
     exists w' pre l,
       cleanOutdated w = Exits w' /\ es = (pre ++ [e; Logged l])%list)
  /\ (forall w',
        cleanOutdated w = Returns tt w' ->
        exists es,
          trace w'
          = (trace w ++ [Logged LogCleanup; QueryArticles None] ++ es
             ++ [Logged
                   (LogDone (wrap64 (Z.of_nat (length (scanned_rows w))))
                      (wrap64 (Z.of_nat (deletions es))))])%list
          /\ Forall (fun e => delete_failed e = false) es).
Proof.
  pose proof (cleanOutdated_shape w) as H. split.
  - intros es e Ht Hin He.
    destruct (cleanOutdated w) as [[] w' | w' | w']; cbn [final] in Ht.
    + exfalso. destruct H as (es' & Ht' & Hes). rewrite Ht' in Ht.
      apply app_inv_head in Ht. subst es.
      cbn [app] in Hin. destruct Hin as [<- | [<- | Hin]]; try discriminate.
      apply in_app_or in Hin as [Hin | [<- | []]]; try discriminate.
      exact (failed_not_among_ok e es' Hes He Hin).
    + contradiction.
    + destruct H as [(err & Ht') | (pre & e' & l & Ht' & Hpre & He')];
        rewrite Ht' in Ht; apply app_inv_head in Ht; subst es.
      * exfalso. destruct Hin as [<- | [<- | [<- | []]]]; discriminate.
      * cbn [app] in Hin. destruct Hin as [<- | [<- | Hin]]; try discriminate.
        pose proof (failed_is_last_call e e' l pre Hpre He Hin) as ->.
        exists w', ([Logged LogCleanup; QueryArticles None] ++ pre)%list, l.
        split; [reflexivity | ]. rewrite <- app_assoc. reflexivity.
  - intros w' E. rewrite E in H. exact H.
Qed.

(** *** What a sweep leaves in the store and in the index *)


Lemma outdated_at_0 w a : outdated_at w 0 a = outdated w a.
Proof. unfold outdated_at, outdated. rewrite Nat.add_0_r. reflexivity. Qed.

Lemma cleanOutdated_row_Returns a dc w dc' w1 :
  cleanOutdated_row a dc w = Returns dc' w1 ->
  env w1 = env w /\ ticks w1 = S (ticks w) /\ sites w1 = sites w
  /\ articles w1
     = (if outdated w a then delete (id a) (articles w) else articles w)
  /\ docs w1
     = (if outdated w a then delete ("articles", id a) (docs w) else docs w).
Proof.
  destruct (outdated w a) eqn:Hout.
  - destruct (cleanOutdated_row_outdated a dc w Hout)
      as [(w' & -> & _ & Ha & Hd & Hs & He & Hk) | (w' & ? & ? & ? & -> & _)];
      [ | discriminate].
    intros [= _ <-]. auto.
  - rewrite cleanOutdated_row_retained by exact Hout.
    intros [= _ <-]. repeat split; reflexivity.
Qed.

Lemma cleanOutdated_rows_store rows :
  forall sc dc w r w',
    NoDup (id <$> rows) ->
    cleanOutdated_rows rows sc dc w = Returns r w' ->
    env w' = env w /\ ticks w' = (ticks w + length rows)%nat
    /\ sites w' = sites w
    /\ (forall k,
          k ∉ id <$> rows ->
          articles w' !! k = articles w !! k
          /\ docs w' !! ("articles", k) = docs w !! ("articles", k))
    /\ (forall i a,
          rows !! i = Some a ->
          if outdated_at w i a
          then articles w' !! id a = None
               /\ docs w' !! ("articles", id a) = None
          else articles w' !! id a = articles w !! id a
               /\ docs w' !! ("articles", id a)
                  = docs w !! ("articles", id a)).
Proof.
  induction rows as [| a rest IH]; intros sc dc w r w' Hnd H.
  - cbn in H. injection H as _ <-. rewrite Nat.add_0_r.
    repeat split; try reflexivity. intros i a Hi. discriminate Hi.
  - rewrite cleanOutdated_rows_cons in H.
    rewrite fmap_cons in Hnd. apply NoDup_cons in Hnd as [Hna Hnd].
    destruct (cleanOutdated_row a dc w) as [dc1 w1 | w1 | w1] eqn:Erow;
      try discriminate.
    apply cleanOutdated_row_Returns in Erow as (He & Hk & Hs & Ha & Hd).
    destruct (IH _ _ _ _ _ Hnd H) as (He' & Hk' & Hs' & Hframe & Hrows).
    assert (Hother : forall k,
      k <> id a ->
      articles w1 !! k = articles w !! k
      /\ docs w1 !! ("articles", k) = docs w !! ("articles", k)).
    { intros k Hk1. rewrite Ha, Hd. destruct (outdated w a); [ | auto].
      rewrite !lookup_delete_ne by congruence. auto. }
    split; [congruence | ]. split; [cbn [length]; lia | ].
    split; [congruence | ]. split.
    + intros k Hk1. rewrite fmap_cons in Hk1.
      apply not_elem_of_cons in Hk1 as [Hk1 Hk2].
      destruct (Hframe k Hk2) as [-> ->]. apply Hother, Hk1.
    + intros [| i] b Hi.
      * injection Hi as <-. rewrite outdated_at_0.
        destruct (Hframe (id a) Hna) as [-> ->]. rewrite Ha, Hd.
        destruct (outdated w a); [ | auto].
        rewrite !lookup_delete_eq. auto.
      * cbn in Hi. specialize (Hrows i b Hi).
        assert (outdated_at w1 i b = outdated_at w (S i) b) as <-.
        { unfold outdated_at. rewrite He, Hk. do 3 f_equal. lia. }
        destruct (outdated_at w1 i b); [exact Hrows | ].
        assert (id b <> id a) as Hne.
        { intros Heq. apply Hna. rewrite <- Heq.
          apply list_elem_of_fmap_2. eapply list_elem_of_lookup_2, Hi. }
        destruct Hrows as [-> ->]. apply Hother, Hne.
Qed.

Lemma ids_scanned (m : gmap string ArticleRow) :
  id <$> (DB.Scan <$> map_to_list m) = (map_to_list m).*1.
Proof.
  rewrite <- list_fmap_compose. apply list_fmap_ext.
  intros i [k r] _. reflexivity.
Qed.

Lemma scanned_rows_NoDup w : NoDup (id <$> scanned_rows w).
Proof.
  unfold scanned_rows.
  assert (NoDup (id <$> (DB.Scan <$> map_to_list (articles w)))) as Hall.
  { rewrite ids_scanned. apply NoDup_fst_map_to_list. }
  destruct (db_fault w) as [ | msg | n].
  - exact Hall.
  - constructor.
  - rewrite fmap_take. eapply sublist_NoDup; [exact Hall | apply sublist_take].
Qed.

(** A scanned row is a row of the table. *)
Lemma scanned_rows_stored w i a :
  scanned_rows w !! i = Some a -> is_Some (articles w !! id a).
Proof.
  intros Hi.
  assert (a ∈ DB.Scan <$> map_to_list (articles w)) as Ha.
  { unfold scanned_rows in Hi. destruct (db_fault w) as [ | msg | n].
    - eapply list_elem_of_lookup_2, Hi.
    - discriminate Hi.
    - apply lookup_take_Some in Hi as [Hi _].
      eapply list_elem_of_lookup_2, Hi. }
  apply list_elem_of_fmap in Ha as ([k r] & -> & Hkr).
  apply elem_of_map_to_list in Hkr. cbn. rewrite Hkr. eauto.
Qed.

(** The comparison of line 319 is a comparison of the difference itself:
    the threshold lies inside the range of [Duration]. *)
Lemma threshold_Time_Sub t u :
  (articleThreshold <? Time_Sub t u) = (articleThreshold <? t - u).
Proof.
  unfold Time_Sub, articleThreshold, Hour, minDuration, maxDuration.
  change (2 ^ 63) with 9223372036854775808.
  repeat match goal with
         | |- context [?a <? ?b] => destruct (Z.ltb_spec a b)
         | H : context [?a <? ?b] |- _ => destruct (Z.ltb_spec a b)
         end; try reflexivity; lia.
Qed.

(** *** A sweep that nothing disturbs returns *)

Lemma cleanOutdated_row_undisturbed a dc w :
  db_faults w = [] -> es_faults w = [] ->
  (outdated w a = true -> is_Some (docs w !! ("articles", id a))) ->
  exists dc' w1,
    cleanOutdated_row a dc w = Returns dc' w1
    /\ db_faults w1 = [] /\ es_faults w1 = [].
Proof.
  intros Hdb Hes Hdoc. destruct (outdated w a) eqn:Hout.
  - destruct (Hdoc eq_refl) as [src Hsrc].
    rewrite cleanOutdated_row_eq, Hout. unfold bind.
    rewrite Exec_delete_Articles_eq.
    replace (db_fault (with_ticks (S (ticks w)) w)) with DbOk
      by (unfold db_fault; cbn; rewrite Hdb; reflexivity).
    unfold delete_from_index, bind. rewrite ES_Delete_eq.
    match goal with
    | |- context [ES.interfered (es_fault ?W)] =>
        replace (es_fault W) with EsOk
          by (unfold es_fault; cbn; rewrite Hes; reflexivity);
        change (docs W) with (docs w)
    end.
    cbn [ES.interfered]. rewrite Hsrc.
    do 2 eexists. split; [reflexivity | ].
    cbn. rewrite Hdb, Hes. split; reflexivity.
  - rewrite cleanOutdated_row_retained by exact Hout.
    do 2 eexists. split; [reflexivity | ]. split; assumption.
Qed.

Lemma cleanOutdated_rows_undisturbed rows :
  forall sc dc w,
    db_faults w = [] -> es_faults w = [] ->
    NoDup (id <$> rows) ->
    (forall i a,
       rows !! i = Some a -> outdated_at w i a = true ->
       is_Some (docs w !! ("articles", id a))) ->
    exists r w', cleanOutdated_rows rows sc dc w = Returns r w'.
Proof.
  induction rows as [| a rest IH]; intros sc dc w Hdb Hes Hnd Hdocs.
  - do 2 eexists. reflexivity.
  - rewrite cleanOutdated_rows_cons.
    rewrite fmap_cons in Hnd. apply NoDup_cons in Hnd as [Hna Hnd].
    destruct (cleanOutdated_row_undisturbed a dc w Hdb Hes)
      as (dc1 & w1 & E & Hdb1 & Hes1).
    { intros Hout. apply (Hdocs 0%nat a); [reflexivity | ].
      rewrite outdated_at_0. exact Hout. }
    rewrite E.
    apply cleanOutdated_row_Returns in E as (He & Hk & _ & _ & Hd).
    apply IH; try assumption.
    intros i b Hi Hout.
    assert (id b <> id a) as Hne.
    { intros Heq. apply Hna. rewrite <- Heq.
      apply list_elem_of_fmap_2. eapply list_elem_of_lookup_2, Hi. }
    assert (docs w1 !! ("articles", id b) = docs w !! ("articles", id b))
      as ->.
    { rewrite Hd. destruct (outdated w a); [ | reflexivity].
      apply lookup_delete_ne. congruence. }
    apply (Hdocs (S i) b Hi).
    rewrite <- Hout. unfold outdated_at. rewrite He, Hk. do 3 f_equal. lia.
Qed.

Lemma cleanOutdated_undisturbed w :
  undisturbed w -> exists w', cleanOutdated w = Returns tt w'.
Proof.
  intros (Hdb & Hes & Hdocs). rewrite cleanOutdated_eq.
  assert (query_error w = None) as ->
    by (unfold query_error, db_fault; rewrite Hdb; reflexivity).
  destruct (cleanOutdated_rows_undisturbed (scanned_rows w) 0 0
              (after_query w)) as ([sc dc] & w' & ->).
  - cbn. rewrite Hdb. reflexivity.
  - exact Hes.
  - apply scanned_rows_NoDup.
  - exact Hdocs.
  - eexists. reflexivity.
Qed.

(** C3.  A sweep of the reaper that nothing disturbs returns.  After a
    sweep that returns, every scanned row whose age, at the reading of
    the clock taken for it, is strictly more than three days is gone
    from the store and from the index; and every scanned row whose age
    is three days or less is still in the store, and its document in the
    index is what it was. *)
Theorem C3_reaper_deletes_what_exceeds_the_threshold (w : World) :
  (undisturbed w -> exists w', cleanOutdated w = Returns tt w')
  /\ (forall w' i a,
        cleanOutdated w = Returns tt w' ->
        scanned_rows w !! i = Some a ->
        let age := clock (env w) (ticks w + i) - NullTime_Time (pubDate a) in
        (articleThreshold < age ->
         articles w' !! id a = None /\ docs w' !! ("articles", id a) = None)
        /\ (age <= articleThreshold ->
            is_Some (articles w' !! id a)
            /\ articles w' !! id a = articles w !! id a
            /\ docs w' !! ("articles", id a)
               = docs w !! ("articles", id a))).
Proof.
  split; [apply cleanOutdated_undisturbed | ].
  intros w' i a H Hi age. rewrite cleanOutdated_eq in H.
  destruct (query_error w); [discriminate | ].
  destruct (cleanOutdated_rows _ 0 0 _) as [[sc dc] w1 | w1 | w1] eqn:E;
    try discriminate.
  injection H as <-.
  apply cleanOutdated_rows_store in E as (_ & _ & _ & _ & Hrows);
    [ | apply scanned_rows_NoDup].
  specialize (Hrows i a Hi).
  change (outdated_at (after_query w) i a) with (outdated_at w i a) in Hrows.
  unfold outdated_at in Hrows. rewrite threshold_Time_Sub in Hrows.
  fold age in Hrows. cbn [articles docs record].
  change (articles (after_query w)) with (articles w) in Hrows.
  change (docs (after_query w)) with (docs w) in Hrows.
  destruct (Z.ltb_spec articleThreshold age) as [Hlt | Hge].
  - split; [intros _; exact Hrows | intros Hle; lia].
  - split; [intros Hlt; lia | ]. intros _. destruct Hrows as [Ha Hd].
    split; [rewrite Ha; eapply scanned_rows_stored, Hi | ]. auto.
Qed.

Lemma C3_reaper_deletes_what_exceeds_the_threshold_witness :
  exists w',
    cleanOutdated Examples.reap_world = Returns tt w'
    /\ (articles w' !! "old" = None /\ docs w' !! ("articles", "old") = None)
    /\ is_Some (articles w' !! "new").
Proof.
  exists (final (cleanOutdated Examples.reap_world)).
  assert (E : cleanOutdated Examples.reap_world
              = Returns tt (final (cleanOutdated Examples.reap_world)))
    by (vm_compute; reflexivity).
  assert (Hold : scanned_rows Examples.reap_world !! 0%nat
                 = Some {| id := "old";
                           pubDate := {| NullTime_Time := 0;
                                         NullTime_Valid := true |} |})
    by (vm_compute; reflexivity).
  assert (Hnew : scanned_rows Examples.reap_world !! 1%nat
                 = Some {| id := "new";
                           pubDate := {| NullTime_Time := 1;
                                         NullTime_Valid := true |} |})
    by (vm_compute; reflexivity).
  split; [exact E | ]. split.
  - apply (proj1 (proj2 (C3_reaper_deletes_what_exceeds_the_threshold _)
                    _ _ _ E Hold)).
    vm_compute. reflexivity.
  - apply (proj2 (proj2 (C3_reaper_deletes_what_exceeds_the_threshold _)
                    _ _ _ E Hnew)).
    vm_compute. discriminate.
Defined.

Lemma C9_reaper_deletion_failure_is_fatal_witness :
  exists w' pre l,
    cleanOutdated Examples.reap_world_failing = Exits w'
    /\ [Logged LogCleanup; QueryArticles None;
        ExecDeleteArticle "old" (Some (DriverError "connection lost"));
        Logged (LogError (DriverError "connection lost"))]
       = (pre
          ++ [ExecDeleteArticle "old" (Some (DriverError "connection lost"));
              Logged l])%list.
Proof.
  apply (proj1 (C9_reaper_deletion_failure_is_fatal
                  Examples.reap_world_failing)).
  - vm_compute. reflexivity.
  - right. right. left. reflexivity.
  - reflexivity.
Defined.

(** ** The site is written before the articles *)


Lemma site_event_not_article_write feedUrl c e :
  site_event feedUrl c e -> is_article_write e = false.
Proof. intros He. destruct He as [err | e He]; [ | destruct He]; reflexivity. Qed.

Lemma upsert_Sites_lookup siteId feedUrl title link description t :
  is_Some (DB.upsert_Sites siteId feedUrl title link description t !! siteId).
Proof.
  unfold DB.upsert_Sites. destruct (t !! siteId);
    rewrite lookup_insert_eq; eauto.
Qed.

(** When [pushSite] reports no error, the row of the site is in the
    store under the id of the feed URL. *)
Lemma pushSite_ok_site_stored feedUrl data w siteId w' :
  pushSite feedUrl data w = Returns (siteId, None) w' ->
  siteId = deriveId feedUrl /\ is_Some (sites w' !! deriveId feedUrl).
Proof.
  intros H. split; [eapply pushSite_siteId, H | ].
  revert H. unfold pushSite. cbv zeta.
  match goal with |- context [if ?c then _ else _] => destruct c end;
    [discriminate | ].
  unfold bind, pushSiteToDB.
  destruct (DB.Exec_upsert_Sites _ _ _ _ _ w) as [[e | ] w1 | w1 | w1] eqn:Edb;
    try discriminate.
  apply Exec_upsert_Sites_ok in Edb as (Hs & _).
  rewrite pushSiteToES_eq.
  pose proof (keeps_store_pushToES "sites" (deriveId feedUrl)
                (sanitize (Channel_Title (Rss_Channel data)))
                (sanitize (Channel_Description (Rss_Channel data))) w1)
    as [Hk _].
  destruct (pushToES _ _ _ _ w1) as [err w2 | w2 | w2]; try discriminate.
  unfold ret. intros [= _ _ <-]. cbn [final] in Hk.
  rewrite Hk, Hs. apply upsert_Sites_lookup.
Qed.

(** The order of a feed task: after the fetch, [pushSite] runs first and
    writes no article; the articles are pushed only when it reports no
    error, and then the site is in the store; when it reports an error,
    the task logs it and ends. *)
Lemma feedTask_order url w data :
  web (env w) url = Some data ->
  let w1 := record (HttpGet url (Some data)) w in
  extends (fun e => is_article_write e = false) w1
    (final (pushSite url data w1))
  /\ match pushSite url data w1 with
     | Returns (siteId, None) w2 =>
         siteId = deriveId url
         /\ is_Some (sites w2 !! deriveId url)
         /\ feedTask url w = pushArticles (deriveId url) data w2
     | Returns (_, Some e) w2 =>
         feedTask url w = Returns tt (record (Logged (LogError e)) w2)
     | Panics w2 => feedTask url w = Panics w2
     | Exits w2 => feedTask url w = Exits w2
     end.
Proof.
  intros Hweb w1. split.
  - apply emits_pushSite. intros e. apply site_event_not_article_write.
  - assert (Hrun : feedTask url w
                   = match pushSite url data w1 with
                     | Returns (siteId, Some e) w2 =>
                         log_Println (LogError e) w2
                     | Returns (siteId, None) w2 => pushArticles siteId data w2
                     | Panics w2 => Panics w2
                     | Exits w2 => Exits w2
                     end).
    { unfold feedTask, bind. rewrite scrapeRss_eq, Hweb. fold w1.
      destruct (pushSite url data w1) as [[siteId [e | ]] w2 | w2 | w2];
        reflexivity. }
    rewrite Hrun.
    destruct (pushSite url data w1) as [[siteId [e | ]] w2 | w2 | w2] eqn:E;
      try reflexivity.
    destruct (pushSite_ok_site_stored _ _ _ _ _ E) as [-> Hs].
    repeat split. exact Hs.
Qed.

(** C4.  A failed index write of the site does not keep the articles
    from being written when [pushSiteToES] does not report it: the update
    of the site's document is answered with status 500, and the task
    goes on and writes the article of the feed. *)
Theorem C4_articles_written_after_failed_site_index_write :
  let w := final (feedTask "http://a"
                    (with_es_faults [EsRejects Examples.response500]
                       (Examples.world0 [Examples.item1] 0))) in
  trace w
  = [HttpGet "http://a" (Some (Examples.feed [Examples.item1]));
     ExecUpsertSite "aHR0cDovL2E=" "http://a" "T" "http://a" "D" None;
     EsUpdate "sites" "aHR0cDovL2E=" (update_body "T" "D")
       (Some Examples.response500) None;
     ExecUpsertArticle "aHR0cDovL2EvMQ==" "I1" "http://a/1" "D1" "P1"
       "aHR0cDovL2E=" None;
     EsUpdate "articles" "aHR0cDovL2EvMQ==" (update_body "I1" "D1")
       (Some (ES.respond 404)) None;
     EsCreate "articles" "aHR0cDovL2EvMQ==" (create_body "I1" "D1")
       (Some (ES.respond 201)) None]
  /\ docs w !! ("sites", "aHR0cDovL2E=") = None
  /\ articles w !! "aHR0cDovL2EvMQ=="
     = Some {| article_title := "I1"; article_link := "http://a/1";
               article_description := "D1"; article_pubdate := Some 0;
               article_site_id := "aHR0cDovL2E=" |}.
Proof. cbv zeta. repeat split; vm_compute; reflexivity. Qed.

(* ================================================================== *)
(** * Further properties *)

(** ** The list of feeds *)

Module FeedsFacts.
Import Strings.

Lemma append_cons (x : ascii) (a b : string) :
  String x a ++ b = String x (a ++ b).
Proof. reflexivity. Qed.

Lemma append_assoc (a b c : string) : (a ++ b) ++ c = a ++ (b ++ c).
Proof.
  induction a as [| x a IH]; [reflexivity | ].
  rewrite !append_cons, IH. reflexivity.
Qed.

Lemma append_nil_r (a : string) : a ++ "" = a.
Proof.
  induction a as [| x a IH]; [reflexivity | ].
  rewrite append_cons, IH. reflexivity.
Qed.

(** A piece without a newline is read up to its end. *)
Lemma split_from_piece (l : string) :
  forall cur rest,
    has_newline l = false ->
    split_from O cur (l ++ rest) newline = split_from O (cur ++ l) rest newline.
Proof.
  induction l as [| c l IH]; intros cur rest Hl.
  - change ("" ++ rest) with rest. rewrite append_nil_r. reflexivity.
  - cbn [has_newline] in Hl. apply orb_false_elim in Hl as [Hc Hl].
    rewrite append_cons. cbn [split_from]. unfold newline at 1.
    cbn [HasPrefix]. rewrite Hc. cbn [andb].
    rewrite IH by exact Hl. rewrite append_assoc, append_cons.
    reflexivity.
Qed.

Lemma split_from_newline cur rest :
  split_from O cur (newline ++ rest) newline
  = cur :: split_from O "" rest newline.
Proof. reflexivity. Qed.

Lemma split_from_last cur last :
  has_newline last = false -> split_from O cur last newline = [cur ++ last].
Proof.
  intros H. rewrite <- (append_nil_r last) at 1.
  rewrite split_from_piece by exact H. reflexivity.
Qed.

Lemma Split_file lines last :
  Forall (fun l => has_newline l = false) lines ->
  has_newline last = false ->
  Split (file_of lines ++ last) newline = (lines ++ [last])%list.
Proof.
  unfold Split. intros Hlines Hlast.
  induction Hlines as [| l lines Hl _ IH].
  - change (file_of [] ++ last) with last.
    apply split_from_last. exact Hlast.
  - cbn [file_of]. rewrite !append_assoc.
    rewrite split_from_piece by exact Hl. rewrite split_from_newline.
    change ("" ++ l) with l. rewrite IH. reflexivity.
Qed.

Lemma split_from_length s :
  forall cur, length (split_from O cur s newline) = S (newlines s).
Proof.
  induction s as [| c s IH]; intros cur; [reflexivity | ].
  cbn [split_from newlines]. unfold newline at 1. cbn [HasPrefix].
  destruct (Ascii.eqb c "010"); cbn [andb String.length Nat.pred length];
    rewrite IH; reflexivity.
Qed.

End FeedsFacts.

(** X1.  The feeds of a file are its lines: when the file is made of
    lines that each end in a newline, followed by text without a
    newline, [main] gets exactly these lines, and the text after the
    last newline is left out. *)
Theorem X1_main_feeds_are_the_terminated_lines
    (lines : list string) (last : string) :
  Forall (fun l => has_newline l = false) lines ->
  has_newline last = false ->
  main_feeds (file_of lines ++ last) = Some lines.
Proof.
  intros Hlines Hlast. unfold main_feeds, slice_to. cbv zeta.
  fold newline. rewrite (FeedsFacts.Split_file lines last Hlines Hlast).
  rewrite length_app. cbn [length].
  replace (Z.of_nat (length lines + 1) - 1) with (Z.of_nat (length lines))
    by lia.
  rewrite Nat2Z.id, take_app_length.
  destruct (Z.leb_spec 0 (Z.of_nat (length lines))); [ | lia].
  destruct (Z.leb_spec (Z.of_nat (length lines))
              (Z.of_nat (length lines + 1))); [reflexivity | lia].
Qed.

Lemma X1_main_feeds_are_the_terminated_lines_witness :
  main_feeds (file_of ["http://a"; "http://b"] ++ "http://c")
  = Some ["http://a"; "http://b"].
Proof.
  apply (X1_main_feeds_are_the_terminated_lines
           ["http://a"; "http://b"] "http://c").
  - repeat constructor.
  - reflexivity.
Defined.

(** X2.  The slice expression of [main] is always in range, and [main]
    gets as many feeds as the file has newlines: an empty file gives no
    feed, and an empty line gives a feed with an empty address. *)
Theorem X2_main_feeds_counts_the_newlines (data : string) :
  exists feeds,
    main_feeds data = Some feeds /\ length feeds = newlines data.
Proof.
  unfold main_feeds, slice_to, Strings.Split. cbv zeta. fold newline.
  rewrite FeedsFacts.split_from_length.
  replace (Z.of_nat (S (newlines data)) - 1) with (Z.of_nat (newlines data))
    by lia.
  destruct (Z.leb_spec 0 (Z.of_nat (newlines data))); [ | lia].
  destruct (Z.leb_spec (Z.of_nat (newlines data))
              (Z.of_nat (S (newlines data)))); [ | lia].
  eexists. split; [reflexivity | ].
  rewrite Nat2Z.id, length_take, FeedsFacts.split_from_length. lia.
Qed.

(** ** The runs of the index protocol *)

Lemma ES_Update_Returns index docId body w :
  exists res err w1,
    ES.Update index docId body w = Returns (res, err) w1
    /\ trace w1 = (trace w ++ [EsUpdate index docId body res err])%list.
Proof.
  unfold ES.Update, bind, next_es_fault, emit, ret.
  destruct (ES.interfered (es_fault w)) as [[res err] | ].
  - do 3 eexists. split; reflexivity.
  - destruct (ES.partial_doc body), (docs (es_next w) !! (index, docId));
      do 3 eexists; split; reflexivity.
Qed.

Lemma ES_Create_Returns index docId body w :
  exists res err w1,
    ES.Create index docId body w = Returns (res, err) w1
    /\ trace w1 = (trace w ++ [EsCreate index docId body res err])%list.
Proof.
  unfold ES.Create, bind, next_es_fault, emit, ret.
  destruct (ES.interfered (es_fault w)) as [[res err] | ].
  - do 3 eexists. split; reflexivity.
  - destruct body, (docs (es_next w) !! (index, docId));
      do 3 eexists; split; reflexivity.
Qed.

(** Every run of the protocol: it never exits; it returns after calls
    that were all answered, and it panics right after a call that was
    not. *)
Lemma pushToES_run index docId title description w :
  exists es,
    trace (final (pushToES index docId title description w))
    = (trace w ++ es)%list
    /\ index_protocol index docId title description es
    /\ match pushToES index docId title description w with
       | Returns _ _ => Forall (fun e => answered e = true) es
       | Panics _ =>
           exists pre e,
             es = (pre ++ [e])%list /\ answered e = false
             /\ Forall (fun e => answered e = true) pre
       | Exits _ => False
       end.
Proof.
  unfold pushToES. cbv zeta. unfold bind.
  change (Marshal_ESUpdatePayload _) with (update_body title description).
  change (Marshal_ESPayload _) with (create_body title description).
  destruct (ES_Update_Returns index docId (update_body title description) w)
    as (res & err & w1 & E & Ht).
  rewrite E. cbv beta iota.
  destruct res as [r | ]; cbn [deref].
  2:{ exists [EsUpdate index docId (update_body title description) None err].
      split; [exact Ht | ]. split.
      - left. do 2 eexists. split; [reflexivity | ]. discriminate.
      - exists [], (EsUpdate index docId (update_body title description)
                      None err).
        repeat split. constructor. }
  destruct (IsError r) eqn:HE;
    [destruct (StatusCode r =? 404) eqn:H404 | ].
  - apply Z.eqb_eq in H404.
    destruct (ES_Create_Returns index docId
                (create_body title description) w1)
      as (res' & err' & w2 & E' & Ht').
    rewrite E'. cbv beta iota.
    exists [EsUpdate index docId (update_body title description) (Some r) err;
            EsCreate index docId (create_body title description) res' err'].
    assert (Htr : trace w2
                  = (trace w
                     ++ [EsUpdate index docId (update_body title description)
                           (Some r) err;
                         EsCreate index docId
                           (create_body title description) res' err'])%list).
    { rewrite Ht', Ht, <- app_assoc. reflexivity. }
    assert (Hp : index_protocol index docId title description
                   [EsUpdate index docId (update_body title description)
                      (Some r) err;
                    EsCreate index docId (create_body title description)
                      res' err']).
    { right. do 4 eexists. split; [reflexivity | exact H404]. }
    destruct res' as [r' | ]; cbn [deref].
    + destruct (IsError r'); [destruct (io_ReadAll r') as [b [e | ]] | ];
        (split; [exact Htr | ]; split; [exact Hp | ]; repeat constructor).
    + split; [exact Htr | ]. split; [exact Hp | ].
      exists [EsUpdate index docId (update_body title description)
                (Some r) err],
        (EsCreate index docId (create_body title description) None err').
      repeat split. repeat constructor.
  - apply Z.eqb_neq in H404.
    exists [EsUpdate index docId (update_body title description) (Some r) err].
    split; [exact Ht | ]. split; [ | repeat constructor].
    left. do 2 eexists. split; [reflexivity | ]. intros r0 [= <-]. exact H404.
  - exists [EsUpdate index docId (update_body title description) (Some r) err].
    split; [exact Ht | ]. split; [ | repeat constructor].
    left. do 2 eexists. split; [reflexivity | ]. intros r0 [= <-].
    unfold IsError in HE. apply Z.ltb_ge in HE. lia.
Qed.

Lemma pushToES_panics_iff index docId title description w :
  (forall w', pushToES index docId title description w <> Exits w')
  /\ ((exists w', pushToES index docId title description w = Panics w')
      <-> (exists es,
             trace (final (pushToES index docId title description w))
             = (trace w ++ es)%list
             /\ Exists (fun e => answered e = false) es)).
Proof.
  destruct (pushToES_run index docId title description w)
    as (es & Ht & _ & Hrun).
  split; [ | split].
  - intros w' E. rewrite E in Hrun. exact Hrun.
  - intros [w' E]. rewrite E in Hrun.
    destruct Hrun as (pre & e & -> & He & _).
    eexists. split; [exact Ht | ].
    apply Exists_app. right. constructor. exact He.
  - intros (es' & Ht' & Hex). rewrite Ht in Ht'.
    apply app_inv_head in Ht'. subst es'.
    destruct (pushToES index docId title description w) as [e w' | w' | w'].
    + exfalso. apply Exists_exists in Hex as (e0 & Hin & He0).
      rewrite Forall_forall in Hrun. rewrite (Hrun e0 Hin) in He0.
      discriminate.
    + eauto.
    + contradiction.
Qed.

(** X3.  Both helpers call the index once to update the document and,
    exactly when that call is answered with status 404, once more to
    create it; they make no other call. *)
Theorem X3_index_helpers_update_then_create_on_404
    (w : World) (docId title description : string) :
  (exists es,
     trace (final (pushArticleToES docId title description w))
     = (trace w ++ es)%list
     /\ index_protocol "articles" docId title description es)
  /\ (exists es,
        trace (final (pushSiteToES docId title description w))
        = (trace w ++ es)%list
        /\ index_protocol "sites" docId title description es).
Proof.
  split.
  - rewrite pushArticleToES_eq.
    destruct (pushToES_run "articles" docId title description w)
      as (es & Ht & Hp & _). eauto.
  - rewrite pushSiteToES_eq.
    destruct (pushToES_run "sites" docId title description w)
      as (es & Ht & Hp & _). eauto.
Qed.

(** X4.  Neither helper ends the process, and each of them panics
    exactly when one of its calls to the index gets no response. *)
Theorem X4_index_helpers_panic_iff_no_response
    (w : World) (docId title description : string) :
  ((forall w', pushArticleToES docId title description w <> Exits w')
   /\ ((exists w', pushArticleToES docId title description w = Panics w')
       <-> (exists es,
              trace (final (pushArticleToES docId title description w))
              = (trace w ++ es)%list
              /\ Exists (fun e => answered e = false) es)))
  /\ ((forall w', pushSiteToES docId title description w <> Exits w')
      /\ ((exists w', pushSiteToES docId title description w = Panics w')
          <-> (exists es,
                 trace (final (pushSiteToES docId title description w))
                 = (trace w ++ es)%list
                 /\ Exists (fun e => answered e = false) es))).
Proof.
  split.
  - rewrite pushArticleToES_eq. apply pushToES_panics_iff.
  - rewrite pushSiteToES_eq. apply pushToES_panics_iff.
Qed.

(** ** The index write as an upsert *)

Lemma merged_empty title description :
  merged title description ∅
  = list_to_map [("title", JString title); ("description", JString description)].
Proof. unfold merged. apply (right_id_L ∅ (∪)). Qed.

Lemma merged_idem title description src :
  merged title description (merged title description src)
  = merged title description src.
Proof.
  unfold merged. rewrite (assoc_L (∪)), (idemp_L (∪)). reflexivity.
Qed.

Lemma es_upsert_idem index docId title description d :
  es_upsert index docId title description
    (es_upsert index docId title description d)
  = es_upsert index docId title description d.
Proof.
  unfold es_upsert. rewrite lookup_insert_eq.
  cbn [default from_option Datatypes.id].
  rewrite merged_idem, insert_insert_eq. reflexivity.
Qed.

Lemma es_upsert_upserted index docId title description d :
  upserted index docId title description d
    (es_upsert index docId title description d).
Proof.
  unfold es_upsert. split.
  - eexists. split; [apply lookup_insert_eq | ].
    split; [apply merged_title | ]. split; [apply merged_description | ].
    intros f Ht Hd. rewrite merged_other by assumption.
    destruct (d !! (index, docId)); [reflexivity | apply lookup_empty].
  - intros k Hk. apply lookup_insert_ne. congruence.
Qed.

(** The protocol with an index that answers: the helper returns [nil]
    and the documents are upserted. *)
Lemma pushToES_answered index docId title description w :
  ES.interfered (es_fault w) = None ->
  ES.interfered (es_fault (es_next w)) = None ->
  exists w',
    pushToES index docId title description w = Returns None w'
    /\ docs w' = es_upsert index docId title description (docs w).
Proof.
  intros Hf Hf1. unfold es_upsert.
  destruct (docs w !! (index, docId)) as [src | ] eqn:Hdoc;
    cbn [default from_option Datatypes.id].
  - rewrite (pushToES_merge _ _ _ _ _ _ Hf Hdoc). eexists.
    split; reflexivity.
  - destruct (pushToES_create index docId title description w Hf Hdoc Hf1)
      as (w' & E & _ & Hd).
    exists w'. split; [exact E | ]. rewrite Hd, merged_empty. reflexivity.
Qed.

(** X5.  With an index that answers, both helpers return [nil], and
    afterwards the document has the title and the description given,
    its other fields are what they were (it has none when it was
    missing), and the other documents are untouched. *)
Theorem X5_index_write_is_an_upsert
    (w : World) (docId title description : string) :
  ES.interfered (es_fault w) = None ->
  ES.interfered (es_fault (es_next w)) = None ->
  (exists w',
     pushArticleToES docId title description w = Returns None w'
     /\ upserted "articles" docId title description (docs w) (docs w'))
  /\ (exists w',
        pushSiteToES docId title description w = Returns None w'
        /\ upserted "sites" docId title description (docs w) (docs w')).
Proof.
  intros Hf Hf1. split.
  - rewrite pushArticleToES_eq.
    destruct (pushToES_answered "articles" docId title description w Hf Hf1)
      as (w' & E & Hd).
    exists w'. split; [exact E | rewrite Hd; apply es_upsert_upserted].
  - rewrite pushSiteToES_eq.
    destruct (pushToES_answered "sites" docId title description w Hf Hf1)
      as (w' & E & Hd).
    exists w'. split; [exact E | rewrite Hd; apply es_upsert_upserted].
Qed.

Lemma X5_index_write_is_an_upsert_witness :
  exists w',
    pushArticleToES "aHR0cDovL2EvMQ==" "I1" "D1" (Examples.world0 [] 0)
    = Returns None w'
    /\ upserted "articles" "aHR0cDovL2EvMQ==" "I1" "D1"
         (docs (Examples.world0 [] 0)) (docs w').
Proof.
  exact (proj1 (X5_index_write_is_an_upsert (Examples.world0 [] 0)
                  "aHR0cDovL2EvMQ==" "I1" "D1" eq_refl eq_refl)).
Defined.

(** ** Runs in which nothing fails from outside *)

Lemma preserves_emit I e :
  (forall w, I w -> I (record e w)) -> preserves I (emit e).
Proof. intros H w Hw. apply H, Hw. Qed.

Lemma calm_record e ev w : calm e w -> calm e (record ev w).
Proof. intros H. exact H. Qed.

Lemma calm_es_next e w : calm e w -> calm e (es_next w).
Proof.
  intros (He & Hd & Hs). repeat split; try assumption.
  cbn. rewrite Hs. reflexivity.
Qed.

Lemma calm_db_next e w : calm e w -> calm e (db_next w).
Proof.
  intros (He & Hd & Hs). repeat split; try assumption.
  cbn. rewrite Hd. reflexivity.
Qed.

Lemma calm_interfered e w : calm e w -> ES.interfered (es_fault w) = None.
Proof. intros (_ & _ & Hs). unfold es_fault. rewrite Hs. reflexivity. Qed.

Lemma calm_db_fault e w : calm e w -> db_fault w = DbOk.
Proof. intros (_ & Hd & _). unfold db_fault. rewrite Hd. reflexivity. Qed.

Lemma preserves_calm_ES_Update e index docId body :
  preserves (calm e) (ES.Update index docId body).
Proof.
  intros w Hw. unfold ES.Update, bind, next_es_fault, emit, ret.
  rewrite (calm_interfered e w Hw). apply calm_es_next in Hw.
  destruct (ES.partial_doc body), (docs (es_next w) !! (index, docId));
    exact Hw.
Qed.

Lemma preserves_calm_ES_Create e index docId body :
  preserves (calm e) (ES.Create index docId body).
Proof.
  intros w Hw. unfold ES.Create, bind, next_es_fault, emit, ret.
  rewrite (calm_interfered e w Hw). apply calm_es_next in Hw.
  destruct body, (docs (es_next w) !! (index, docId)); exact Hw.
Qed.

Lemma preserves_calm_pushToES e index docId title description :
  preserves (calm e) (pushToES index docId title description).
Proof.
  unfold pushToES. cbv zeta.
  apply preserves_bind; [apply preserves_calm_ES_Update | ].
  intros [res err]. apply preserves_bind; [intros w Hw; destruct res; exact Hw | ].
  intros r. destruct (IsError r); [ | apply preserves_ret].
  destruct (StatusCode r =? 404); [ | apply preserves_ret].
  apply preserves_bind; [apply preserves_calm_ES_Create | ].
  intros [res' err'].
  apply preserves_bind; [intros w Hw; destruct res'; exact Hw | ].
  intros r'. destruct (IsError r'); [ | apply preserves_ret].
  destruct (io_ReadAll r') as [errBody [e0 | ]]; apply preserves_ret.
Qed.

Lemma Exec_upsert_Sites_calm e siteId feedUrl title link description w :
  calm e w ->
  exists w1,
    DB.Exec_upsert_Sites siteId feedUrl title link description w
    = Returns None w1
    /\ calm e w1
    /\ sites w1
       = DB.upsert_Sites siteId feedUrl title link description (sites w)
    /\ articles w1 = articles w /\ docs w1 = docs w.
Proof.
  intros Hw. unfold DB.Exec_upsert_Sites, bind, next_db_fault, emit, ret.
  rewrite (calm_db_fault e w Hw). eexists. split; [reflexivity | ].
  split; [ | repeat split; reflexivity].
  apply calm_db_next in Hw. exact Hw.
Qed.

Lemma Exec_upsert_Articles_calm e articleId title link description pubDate
    siteId w :
  calm e w ->
  exists err w1,
    DB.Exec_upsert_Articles articleId title link description pubDate siteId w
    = Returns err w1
    /\ calm e w1 /\ sites w1 = sites w /\ docs w1 = docs w
    /\ match err with
       | Some _ =>
           articles w1 = articles w
           /\ (timestamp_in (env w) pubDate = None
               \/ DB.fk_violated w articleId siteId = true)
       | None =>
           exists ts,
             timestamp_in (env w) pubDate = Some ts
             /\ DB.fk_violated w articleId siteId = false
             /\ articles w1
                = DB.upsert_Articles articleId title link description ts
                    siteId (articles w)
       end.
Proof.
  intros Hw. unfold DB.Exec_upsert_Articles, bind, next_db_fault, emit, ret.
  rewrite (calm_db_fault e w Hw). apply calm_db_next in Hw.
  change (env (db_next w)) with (env w).
  change (DB.fk_violated (db_next w) articleId siteId)
    with (DB.fk_violated w articleId siteId).
  destruct (timestamp_in (env w) pubDate) as [ts | ].
  - destruct (DB.fk_violated w articleId siteId) eqn:Hfk.
    + do 2 eexists. split; [reflexivity | ].
      split; [exact Hw | ]. split; [reflexivity | ].
      split; [reflexivity | ]. split; [reflexivity | right; reflexivity].
    + do 2 eexists. split; [reflexivity | ].
      split; [exact Hw | ]. split; [reflexivity | ].
      split; [reflexivity | ]. exists ts. repeat split.
  - do 2 eexists. split; [reflexivity | ].
    split; [exact Hw | ]. split; [reflexivity | ].
    split; [reflexivity | ]. split; [reflexivity | left; reflexivity].
Qed.

Lemma pushToES_calm e index docId title description w :
  calm e w ->
  exists w1,
    pushToES index docId title description w = Returns None w1
    /\ calm e w1
    /\ docs w1 = es_upsert index docId title description (docs w)
    /\ sites w1 = sites w /\ articles w1 = articles w.
Proof.
  intros Hw.
  destruct (pushToES_answered index docId title description w)
    as (w1 & E & Hd).
  - apply (calm_interfered e), Hw.
  - apply (calm_interfered e), calm_es_next, Hw.
  - exists w1. split; [exact E | ].
    pose proof (preserves_calm_pushToES e index docId title description w Hw)
      as Hc.
    pose proof (keeps_store_pushToES index docId title description w)
      as [Hs Ha].
    rewrite E in Hc, Hs, Ha. cbn [final] in Hc, Hs, Ha. auto.
Qed.

(** ** Writing the same entity twice *)

Lemma upsert_Sites_idem siteId feedUrl title link description t :
  DB.upsert_Sites siteId feedUrl title link description
    (DB.upsert_Sites siteId feedUrl title link description t)
  = DB.upsert_Sites siteId feedUrl title link description t.
Proof.
  unfold DB.upsert_Sites at 1.
  pose proof (upsert_Sites_lookup siteId feedUrl title link description t)
    as [r Hr].
  rewrite Hr. revert Hr. unfold DB.upsert_Sites.
  destruct (t !! siteId) as [old | ]; rewrite lookup_insert_eq;
    intros [= <-]; cbn; apply insert_insert_eq.
Qed.

Lemma upsert_Articles_lookup articleId title link description ts siteId t :
  is_Some
    (DB.upsert_Articles articleId title link description ts siteId t
     !! articleId).
Proof.
  unfold DB.upsert_Articles. destruct (t !! articleId);
    rewrite lookup_insert_eq; eauto.
Qed.

Lemma upsert_Articles_idem articleId title link description ts siteId t :
  DB.upsert_Articles articleId title link description ts siteId
    (DB.upsert_Articles articleId title link description ts siteId t)
  = DB.upsert_Articles articleId title link description ts siteId t.
Proof.
  unfold DB.upsert_Articles at 1.
  pose proof (upsert_Articles_lookup articleId title link description ts
                siteId t) as [r Hr].
  rewrite Hr. revert Hr. unfold DB.upsert_Articles.
  destruct (t !! articleId) as [old | ]; rewrite lookup_insert_eq;
    intros [= <-]; cbn; apply insert_insert_eq.
Qed.

(** [pushSite] in a calm world: nothing happens for a channel without
    title or link; otherwise the row and the document are upserted. *)
Lemma pushSite_calm e feedUrl data w :
  calm e w ->
  exists r w1,
    pushSite feedUrl data w = Returns r w1
    /\ calm e w1 /\ articles w1 = articles w
    /\ if channel_rejected (Rss_Channel data)
       then sites w1 = sites w /\ docs w1 = docs w
       else sites w1
            = DB.upsert_Sites (deriveId feedUrl) feedUrl
                (sanitize (Channel_Title (Rss_Channel data)))
                (sanitize (Channel_Link (Rss_Channel data)))
                (sanitize (Channel_Description (Rss_Channel data)))
                (sites w)
            /\ docs w1
               = es_upsert "sites" (deriveId feedUrl)
                   (sanitize (Channel_Title (Rss_Channel data)))
                   (sanitize (Channel_Description (Rss_Channel data)))
                   (docs w).
Proof.
  intros Hw. unfold pushSite. cbv zeta.
  fold (channel_rejected (Rss_Channel data)).
  destruct (channel_rejected (Rss_Channel data)).
  { do 2 eexists. split; [reflexivity | ]. auto. }
  unfold bind, pushSiteToDB.
  destruct (Exec_upsert_Sites_calm e (deriveId feedUrl) feedUrl
              (sanitize (Channel_Title (Rss_Channel data)))
              (sanitize (Channel_Link (Rss_Channel data)))
              (sanitize (Channel_Description (Rss_Channel data))) w Hw)
    as (w1 & -> & Hw1 & Hs & Ha & Hd).
  rewrite pushSiteToES_eq.
  destruct (pushToES_calm e "sites" (deriveId feedUrl)
              (sanitize (Channel_Title (Rss_Channel data)))
              (sanitize (Channel_Description (Rss_Channel data))) w1 Hw1)
    as (w2 & -> & Hw2 & Hd2 & Hs2 & Ha2).
  do 2 eexists. split; [reflexivity | ]. split; [exact Hw2 | ].
  split; [congruence | ]. split; congruence.
Qed.

(** X6.  When nothing fails from outside, pushing the same site a second
    time changes nothing: the store and the index are as after the
    first time. *)
Theorem X6_pushSite_twice_is_pushSite_once
    (feedUrl : string) (data : Rss) (w : World) :
  db_faults w = [] -> es_faults w = [] ->
  let w1 := final (pushSite feedUrl data w) in
  let w2 := final (pushSite feedUrl data w1) in
  sites w2 = sites w1 /\ articles w2 = articles w1 /\ docs w2 = docs w1.
Proof.
  intros Hd Hs w1 w2.
  assert (Hw : calm (env w) w) by (repeat split; assumption).
  destruct (pushSite_calm (env w) feedUrl data w Hw)
    as (r1 & v1 & E1 & Hv1 & Ha1 & H1).
  assert (w1 = v1) as -> by (unfold w1; rewrite E1; reflexivity).
  destruct (pushSite_calm (env w) feedUrl data v1 Hv1)
    as (r2 & v2 & E2 & Hv2 & Ha2 & H2).
  assert (w2 = v2) as -> by (unfold w2; rewrite E2; reflexivity).
  split; [ | split; [exact Ha2 | ]];
    destruct (channel_rejected (Rss_Channel data));
    destruct H1 as [Hs1 Hd1], H2 as [Hs2 Hd2]; try assumption.
  - rewrite Hs2, Hs1. apply upsert_Sites_idem.
  - rewrite Hd2, Hd1. apply es_upsert_idem.
Qed.

Lemma X6_pushSite_twice_is_pushSite_once_witness :
  let w1 := final (pushSite "http://a" (Examples.feed [])
                     (Examples.world0 [] 0)) in
  let w2 := final (pushSite "http://a" (Examples.feed []) w1) in
  sites w2 = sites w1 /\ articles w2 = articles w1 /\ docs w2 = docs w1.
Proof.
  exact (X6_pushSite_twice_is_pushSite_once "http://a" (Examples.feed [])
           (Examples.world0 [] 0) eq_refl eq_refl).
Defined.

Lemma fk_violated_ext w w' articleId siteId :
  env w' = env w -> sites w' = sites w -> articles w' = articles w ->
  DB.fk_violated w' articleId siteId = DB.fk_violated w articleId siteId.
Proof. unfold DB.fk_violated. intros -> -> ->. reflexivity. Qed.

(** The write of one item in a calm world: either it is stopped before
    its row is written and nothing changes, or its row and its document
    are upserted. *)
Lemma pushArticles_item_calm e siteId a w :
  calm e w ->
  exists w1,
    pushArticles_items siteId [a] w = Returns tt w1
    /\ calm e w1 /\ sites w1 = sites w
    /\ ((item_stuck w siteId a
         /\ articles w1 = articles w /\ docs w1 = docs w)
        \/ (item_empty a = false
            /\ exists ts,
                 timestamp_in (env w) (sanitize (Item_PubDate a)) = Some ts
                 /\ DB.fk_violated w (deriveId (Item_Link a)) siteId = false
                 /\ articles w1
                    = DB.upsert_Articles (deriveId (Item_Link a))
                        (sanitize (Item_Title a)) (sanitize (Item_Link a))
                        (sanitize (Item_Description a)) ts siteId
                        (articles w)
                 /\ docs w1
                    = es_upsert "articles" (deriveId (Item_Link a))
                        (sanitize (Item_Title a))
                        (sanitize (Item_Description a)) (docs w))).
Proof.
  intros Hw. cbn [pushArticles_items]. fold (item_empty a).
  destruct (item_empty a) eqn:Ea.
  { eexists. split; [reflexivity | ]. split; [exact Hw | ].
    split; [reflexivity | ]. left. unfold item_stuck. auto. }
  cbv zeta. unfold bind, pushArticleToDB.
  destruct (Exec_upsert_Articles_calm e (deriveId (Item_Link a))
              (sanitize (Item_Title a)) (sanitize (Item_Link a))
              (sanitize (Item_Description a)) (sanitize (Item_PubDate a))
              siteId w Hw)
    as (err & w1 & -> & Hw1 & Hs1 & Hd1 & Herr).
  destruct err as [err | ].
  - destruct Herr as [Ha1 Hwhy].
    eexists. split; [reflexivity | ]. split; [exact Hw1 | ].
    split; [exact Hs1 | ]. left. unfold item_stuck. auto.
  - destruct Herr as (ts & Hts & Hfk & Ha1).
    rewrite pushArticleToES_eq.
    destruct (pushToES_calm e "articles" (deriveId (Item_Link a))
                (sanitize (Item_Title a)) (sanitize (Item_Description a))
                w1 Hw1)
      as (w2 & -> & Hw2 & Hd2 & Hs2 & Ha2).
    eexists. split; [reflexivity | ]. split; [exact Hw2 | ].
    split; [congruence | ]. right. split; [reflexivity | ].
    exists ts. repeat split; congruence.
Qed.

(** X7.  When nothing fails from outside, pushing the same item a second
    time changes nothing: the store and the index are as after the
    first time. *)
Theorem X7_pushArticles_item_twice_is_once
    (siteId : string) (a : Item) (w : World) :
  db_faults w = [] -> es_faults w = [] ->
  let w1 := final (pushArticles_items siteId [a] w) in
  let w2 := final (pushArticles_items siteId [a] w1) in
  sites w2 = sites w1 /\ articles w2 = articles w1 /\ docs w2 = docs w1.
Proof.
  intros Hd Hs w1 w2.
  assert (Hw : calm (env w) w) by (repeat split; assumption).
  destruct (pushArticles_item_calm (env w) siteId a w Hw)
    as (v1 & E1 & Hv1 & Hs1 & H1).
  assert (w1 = v1) as -> by (unfold w1; rewrite E1; reflexivity).
  destruct (pushArticles_item_calm (env w) siteId a v1 Hv1)
    as (v2 & E2 & Hv2 & Hs2 & H2).
  assert (w2 = v2) as -> by (unfold w2; rewrite E2; reflexivity).
  split; [exact Hs2 | ].
  destruct H2 as [(_ & Ha2 & Hd2) | (Ea & ts2 & Hts2 & Hfk2 & Ha2 & Hd2)];
    [auto | ].
  destruct Hv1 as (He1 & _).
  destruct H1 as [(Hstuck & Ha1 & Hd1) | (_ & ts1 & Hts1 & _ & Ha1 & Hd1)].
  - exfalso. destruct Hstuck as [Hempty | [Hts | Hfk]].
    + congruence.
    + rewrite He1 in Hts2. congruence.
    + rewrite (fk_violated_ext w v1) in Hfk2 by assumption. congruence.
  - rewrite He1 in Hts2. rewrite Hts1 in Hts2. injection Hts2 as <-.
    split.
    + rewrite Ha2, Ha1. apply upsert_Articles_idem.
    + rewrite Hd2, Hd1. apply es_upsert_idem.
Qed.

Lemma X7_pushArticles_item_twice_is_once_witness :
  let w1 := final (pushArticles_items "aHR0cDovL2E=" [Examples.item1]
                     Examples.world_with_site) in
  let w2 := final (pushArticles_items "aHR0cDovL2E=" [Examples.item1] w1) in
  sites w2 = sites w1 /\ articles w2 = articles w1 /\ docs w2 = docs w1.
Proof.
  exact (X7_pushArticles_item_twice_is_once "aHR0cDovL2E=" Examples.item1
           Examples.world_with_site eq_refl eq_refl).
Defined.

(** ** The order of the calls *)

Lemma Exec_upsert_Sites_Returns siteId feedUrl title link description w :
  exists err w1,
    DB.Exec_upsert_Sites siteId feedUrl title link description w
    = Returns err w1
    /\ trace w1
       = (trace w
          ++ [ExecUpsertSite siteId feedUrl title link description err])%list.
Proof.
  unfold DB.Exec_upsert_Sites, bind, next_db_fault, emit, ret.
  destruct (db_fault w); do 2 eexists; split; reflexivity.
Qed.

Lemma Exec_upsert_Articles_Returns articleId title link description pubDate
    siteId w :
  exists err w1,
    DB.Exec_upsert_Articles articleId title link description pubDate siteId w
    = Returns err w1
    /\ trace w1
       = (trace w
          ++ [ExecUpsertArticle articleId title link description pubDate
                siteId err])%list.
Proof.
  unfold DB.Exec_upsert_Articles, bind, next_db_fault, emit, ret.
  destruct (db_fault w);
    try (do 2 eexists; split; reflexivity);
    destruct (timestamp_in (env (db_next w)) pubDate);
    try (do 2 eexists; split; reflexivity);
    destruct (DB.fk_violated (db_next w) articleId siteId);
    do 2 eexists; split; reflexivity.
Qed.

(** X8.  [pushSite] makes no call at all for a channel without title or
    link, and returns the error.  Otherwise it writes the row of the site
    first, and goes on to the index, with one run of the update-or-create
    protocol, only when the store reported no error. *)
Theorem X8_pushSite_store_before_index
    (feedUrl : string) (data : Rss) (w : World) :
  let c := Rss_Channel data in
  if channel_rejected c
  then pushSite feedUrl data w = Returns ("", Some EmptyStringError) w
  else
    exists err rest,
      trace (final (pushSite feedUrl data w))
      = (trace w
         ++ ExecUpsertSite (deriveId feedUrl) feedUrl
              (sanitize (Channel_Title c)) (sanitize (Channel_Link c))
              (sanitize (Channel_Description c)) err :: rest)%list
      /\ match err with
         | Some e =>
             rest = []
             /\ exists w', pushSite feedUrl data w = Returns (feedUrl, Some e) w'
         | None =>
             index_protocol "sites" (deriveId feedUrl)
               (sanitize (Channel_Title c))
               (sanitize (Channel_Description c)) rest
         end.
Proof.
  cbv zeta. unfold pushSite. cbv zeta.
  fold (channel_rejected (Rss_Channel data)).
  destruct (channel_rejected (Rss_Channel data)); [reflexivity | ].
  unfold bind, pushSiteToDB.
  destruct (Exec_upsert_Sites_Returns (deriveId feedUrl) feedUrl
              (sanitize (Channel_Title (Rss_Channel data)))
              (sanitize (Channel_Link (Rss_Channel data)))
              (sanitize (Channel_Description (Rss_Channel data))) w)
    as (err & w1 & -> & Ht).
  destruct err as [e | ].
  - exists (Some e), []. split; [exact Ht | ]. split; [reflexivity | eauto].
  - rewrite pushSiteToES_eq.
    destruct (pushToES_run "sites" (deriveId feedUrl)
                (sanitize (Channel_Title (Rss_Channel data)))
                (sanitize (Channel_Description (Rss_Channel data))) w1)
      as (es & Ht' & Hp & _).
    exists None, es. split; [ | exact Hp].
    destruct (pushToES _ _ _ _ w1) as [r w2 | w2 | w2];
      unfold ret; cbn [final] in *;
      rewrite Ht', Ht, <- app_assoc; reflexivity.
Qed.

Lemma attempted_app es1 es2 :
  attempted (es1 ++ es2) = (attempted es1 ++ attempted es2)%list.
Proof.
  induction es1 as [| e es1 IH]; [reflexivity | ].
  destruct e; cbn; rewrite IH; reflexivity.
Qed.

Lemma index_protocol_attempted index docId title description es :
  index_protocol index docId title description es -> attempted es = [].
Proof.
  intros [(res & err & -> & _) | (r & err & res' & err' & -> & _)];
    reflexivity.
Qed.

(** X9.  The articles are written in the order of the feed and without
    gaps: the items whose rows a run tries to write are the first [n]
    items of the list, for some [n], and none of them has an empty
    title, link or description. *)
Theorem X9_pushArticles_writes_a_prefix
    (siteId : string) (items : list Item) (w : World) :
  exists es n,
    trace (final (pushArticles_items siteId items w)) = (trace w ++ es)%list
    /\ attempted es = (fun a => deriveId (Item_Link a)) <$> take n items
    /\ Forall (fun a => item_empty a = false) (take n items).
Proof.
  revert w. induction items as [| a rest IH]; intros w.
  - exists [], 0%nat. cbn. rewrite app_nil_r. repeat split. constructor.
  - cbn [pushArticles_items]. fold (item_empty a).
    destruct (item_empty a) eqn:Ea.
    { exists [Logged LogEmptyItem], 0%nat. repeat split. constructor. }
    cbv zeta. unfold bind, pushArticleToDB.
    destruct (Exec_upsert_Articles_Returns (deriveId (Item_Link a))
                (sanitize (Item_Title a)) (sanitize (Item_Link a))
                (sanitize (Item_Description a)) (sanitize (Item_PubDate a))
                siteId w)
      as (err & w1 & -> & Ht).
    assert (Hone : Forall (fun a => item_empty a = false) (take 1 (a :: rest)))
      by (repeat constructor; exact Ea).
    destruct err as [e | ].
    { eexists _, 1%nat. split; [ | split; [ | exact Hone]].
      - cbn [final log_Println emit trace record]. rewrite Ht, <- app_assoc.
        reflexivity.
      - reflexivity. }
    rewrite pushArticleToES_eq.
    destruct (pushToES_run "articles" (deriveId (Item_Link a))
                (sanitize (Item_Title a)) (sanitize (Item_Description a)) w1)
      as (es & Ht' & Hp & _).
    apply index_protocol_attempted in Hp.
    destruct (pushToES _ _ _ _ w1) as [[e | ] w2 | w2 | w2];
      cbn [final] in Ht'.
    + eexists _, 1%nat. split; [ | split; [ | exact Hone]].
      * cbn [final log_Println emit trace record].
        rewrite Ht', Ht, <- !app_assoc. reflexivity.
      * cbn [app attempted]. rewrite ?attempted_app, Hp. reflexivity.
    + destruct (IH w2) as (es2 & n & Ht2 & Hat & Hall).
      eexists _, (S n). split; [ | split].
      * rewrite Ht2, Ht', Ht, <- !app_assoc. reflexivity.
      * cbn [app attempted]. rewrite ?attempted_app, Hp, Hat. reflexivity.
      * cbn [take]. constructor; assumption.
    + eexists _, 1%nat. split; [ | split; [ | exact Hone]].
      * cbn [final]. rewrite Ht', Ht, <- app_assoc. reflexivity.
      * cbn [app attempted]. rewrite ?attempted_app, Hp. reflexivity.
    + eexists _, 1%nat. split; [ | split; [ | exact Hone]].
      * cbn [final]. rewrite Ht', Ht, <- app_assoc. reflexivity.
      * cbn [app attempted]. rewrite ?attempted_app, Hp. reflexivity.
Qed.

(** ** What a feed task may change *)

Lemma grows_same w w' :
  sites w' = sites w -> articles w' = articles w -> docs w' = docs w ->
  grows w w'.
Proof.
  intros Hs Ha Hd. unfold grows. rewrite Hs, Ha, Hd.
  repeat split; eauto.
Qed.

Lemma grows_trans w0 w1 w2 : grows w0 w1 -> grows w1 w2 -> grows w0 w2.
Proof.
  intros (Hs1 & Ha1 & Hd1) (Hs2 & Ha2 & Hd2). split; [ | split].
  - intros k r Hk. destruct (Hs1 k r Hk) as (r1 & Hk1 & Hu & Hl).
    destruct (Hs2 k r1 Hk1) as (r2 & Hk2 & Hu2 & Hl2).
    exists r2. repeat split; congruence.
  - intros k r Hk. destruct (Ha1 k r Hk) as (r1 & Hk1 & Hl & Hp & Hi).
    destruct (Ha2 k r1 Hk1) as (r2 & Hk2 & Hl2 & Hp2 & Hi2).
    exists r2. repeat split; congruence.
  - intros key src Hk. destruct (Hd1 key src Hk) as (s1 & Hk1 & Hf).
    destruct (Hd2 key s1 Hk1) as (s2 & Hk2 & Hf2).
    exists s2. split; [exact Hk2 | ]. intros f Ht Hdsc.
    rewrite Hf2, Hf by assumption. reflexivity.
Qed.

Lemma monotone_ret {A} (a : A) : monotone (ret a).
Proof. intros w. apply grows_same; reflexivity. Qed.

Lemma monotone_bind {A B} (m : M A) (k : A -> M B) :
  monotone m -> (forall a, monotone (k a)) -> monotone (bind m k).
Proof.
  intros Hm Hk w. rewrite final_bind. specialize (Hm w).
  destruct (m w) as [a w' | w' | w']; cbn in Hm; try exact Hm.
  eapply grows_trans; [exact Hm | apply Hk].
Qed.

Lemma monotone_emit e : monotone (emit e).
Proof. intros w. apply grows_same; reflexivity. Qed.

Lemma monotone_deref {A} (p : option A) : monotone (deref p).
Proof. intros w. destruct p; apply grows_same; reflexivity. Qed.

Lemma monotone_Exec_upsert_Sites siteId feedUrl title link description :
  monotone (DB.Exec_upsert_Sites siteId feedUrl title link description).
Proof.
  intros w. unfold DB.Exec_upsert_Sites, bind, next_db_fault, emit, ret.
  destruct (db_fault w); try (apply grows_same; reflexivity);
    (split; [ | split; cbn; eauto]);
    intros k r Hk; cbn; change (sites (db_next w)) with (sites w);
    unfold DB.upsert_Sites;
    (destruct (decide (k = siteId)) as [-> | Hne];
     [rewrite Hk, lookup_insert_eq; eexists; repeat split; reflexivity | ]);
    (destruct (sites w !! siteId);
     rewrite lookup_insert_ne by congruence; eauto).
Qed.

Lemma monotone_Exec_upsert_Articles articleId title link description pubDate
    siteId :
  monotone
    (DB.Exec_upsert_Articles articleId title link description pubDate siteId).
Proof.
  intros w. unfold DB.Exec_upsert_Articles, bind, next_db_fault, emit, ret.
  destruct (db_fault w); try (apply grows_same; reflexivity);
    destruct (timestamp_in (env (db_next w)) pubDate);
    try (apply grows_same; reflexivity);
    destruct (DB.fk_violated (db_next w) articleId siteId);
    try (apply grows_same; reflexivity);
    (split; [cbn; eauto | split; [ | cbn; eauto]]);
    intros k r Hk; cbn; change (articles (db_next w)) with (articles w);
    unfold DB.upsert_Articles;
    (destruct (decide (k = articleId)) as [-> | Hne];
     [rewrite Hk, lookup_insert_eq; eexists; repeat split; reflexivity | ]);
    (destruct (articles w !! articleId);
     rewrite lookup_insert_ne by congruence; eauto 6).
Qed.

Lemma monotone_ES_Update index docId title description :
  monotone (ES.Update index docId (update_body title description)).
Proof.
  intros w. unfold ES.Update, bind, next_es_fault, emit, ret.
  destruct (ES.interfered (es_fault w)); [apply grows_same; reflexivity | ].
  change (ES.partial_doc (update_body title description))
    with (Some [("title", JString title);
                ("description", JString description)]).
  change (docs (es_next w)) with (docs w). cbv beta iota.
  destruct (docs w !! (index, docId)) as [src | ] eqn:Hsrc;
    [ | apply grows_same; reflexivity].
  split; [cbn; eauto | split; [cbn; eauto 6 | ]].
  intros key src0 Hk. cbn.
  destruct (decide (key = (index, docId))) as [-> | Hne].
  - rewrite lookup_insert_eq. eexists. split; [reflexivity | ].
    intros f Ht Hd. rewrite Hk in Hsrc. injection Hsrc as ->.
    apply merged_other; assumption.
  - rewrite lookup_insert_ne by congruence. eauto.
Qed.

Lemma monotone_ES_Create index docId body :
  monotone (ES.Create index docId body).
Proof.
  intros w. unfold ES.Create, bind, next_es_fault, emit, ret.
  destruct (ES.interfered (es_fault w)); [apply grows_same; reflexivity | ].
  change (docs (es_next w)) with (docs w).
  destruct body as [s0 | fields]; [apply grows_same; reflexivity | ].
  destruct (docs w !! (index, docId)) as [src | ] eqn:Hsrc;
    [apply grows_same; reflexivity | ].
  split; [cbn; eauto | split; [cbn; eauto 6 | ]].
  intros key src0 Hk. cbn.
  rewrite lookup_insert_ne by congruence. eauto.
Qed.

Lemma monotone_pushToES index docId title description :
  monotone (pushToES index docId title description).
Proof.
  unfold pushToES. cbv zeta.
  apply monotone_bind; [apply monotone_ES_Update | ].
  intros [res err]. apply monotone_bind; [apply monotone_deref | ].
  intros r. destruct (IsError r); [ | apply monotone_ret].
  destruct (StatusCode r =? 404); [ | apply monotone_ret].
  apply monotone_bind; [apply monotone_ES_Create | ].
  intros [res' err']. apply monotone_bind; [apply monotone_deref | ].
  intros r'. destruct (IsError r'); [ | apply monotone_ret].
  destruct (io_ReadAll r') as [errBody [e | ]]; apply monotone_ret.
Qed.

Lemma monotone_pushSite feedUrl data : monotone (pushSite feedUrl data).
Proof.
  unfold pushSite. cbv zeta.
  match goal with |- monotone (if ?c then _ else _) => destruct c end;
    [apply monotone_ret | ].
  apply monotone_bind; [apply monotone_Exec_upsert_Sites | ].
  intros [e | ]; [apply monotone_ret | ].
  apply monotone_bind; [rewrite pushSiteToES_eq; apply monotone_pushToES | ].
  intros err. apply monotone_ret.
Qed.

Lemma monotone_pushArticles_items siteId items :
  monotone (pushArticles_items siteId items).
Proof.
  induction items as [| a rest IH]; cbn [pushArticles_items].
  - apply monotone_ret.
  - destruct (_ || _); [apply monotone_emit | ].
    cbv zeta. apply monotone_bind; [apply monotone_Exec_upsert_Articles | ].
    intros [e | ]; [apply monotone_emit | ].
    apply monotone_bind;
      [rewrite pushArticleToES_eq; apply monotone_pushToES | ].
    intros [e | ]; [apply monotone_emit | exact IH].
Qed.

(** X10.  A feed task deletes nothing: every site, article and document
    that was there before is there afterwards, and nothing of it has
    changed but, at most, its title and its description. *)
Theorem X10_feedTask_only_adds_and_updates (url : string) (w : World) :
  grows w (final (feedTask url w)).
Proof.
  revert w. fold (monotone (feedTask url)). unfold feedTask.
  apply monotone_bind.
  { intros w. rewrite scrapeRss_eq.
    destruct (web (env w) url); apply grows_same; reflexivity. }
  intros data. apply monotone_bind; [apply monotone_pushSite | ].
  intros [siteId [e | ]]; [apply monotone_emit | ].
  apply monotone_pushArticles_items.
Qed.

(** ** What a sweep of the reaper may change *)

Lemma shrinks_same w w' :
  sites w' = sites w -> articles w' = articles w -> docs w' = docs w ->
  shrinks w w'.
Proof.
  intros Hs Ha Hd. unfold shrinks. rewrite Hs, Ha, Hd.
  repeat split; eauto.
Qed.

Lemma shrinks_trans w0 w1 w2 :
  shrinks w0 w1 -> shrinks w1 w2 -> shrinks w0 w2.
Proof.
  intros (Hs1 & Ha1 & Hd1 & Ho1) (Hs2 & Ha2 & Hd2 & Ho2).
  split; [congruence | ]. split; [eauto | ]. split; [eauto | ].
  intros key Hk. rewrite Ho2, Ho1 by exact Hk. reflexivity.
Qed.

Lemma antitone_ret {A} (a : A) : antitone (ret a).
Proof. intros w. apply shrinks_same; reflexivity. Qed.

Lemma antitone_bind {A B} (m : M A) (k : A -> M B) :
  antitone m -> (forall a, antitone (k a)) -> antitone (bind m k).
Proof.
  intros Hm Hk w. rewrite final_bind. specialize (Hm w).
  destruct (m w) as [a w' | w' | w']; cbn in Hm; try exact Hm.
  eapply shrinks_trans; [exact Hm | apply Hk].
Qed.

Lemma antitone_emit e : antitone (emit e).
Proof. intros w. apply shrinks_same; reflexivity. Qed.

Lemma antitone_log_Fatal {A} l : antitone (@log_Fatal A l).
Proof. intros w. apply shrinks_same; reflexivity. Qed.

Lemma antitone_deref {A} (p : option A) : antitone (deref p).
Proof. intros w. destruct p; apply shrinks_same; reflexivity. Qed.

Lemma antitone_time_Now : antitone time_Now.
Proof. intros w. apply shrinks_same; reflexivity. Qed.

Lemma antitone_Query_Articles : antitone DB.Query_Articles.
Proof.
  intros w. rewrite Query_Articles_eq.
  destruct (query_error w); apply shrinks_same; reflexivity.
Qed.

Lemma antitone_Exec_delete_Articles articleId :
  antitone (DB.Exec_delete_Articles articleId).
Proof.
  intros w. rewrite Exec_delete_Articles_eq.
  destruct (db_fault w); try (apply shrinks_same; reflexivity);
    (split; [reflexivity | ]; split; [ | split; cbn; eauto]);
    intros k r; cbn; change (articles (db_next w)) with (articles w);
    rewrite lookup_delete_Some; tauto.
Qed.

Lemma antitone_ES_Delete docId : antitone (ES.Delete "articles" docId).
Proof.
  intros w. rewrite ES_Delete_eq.
  destruct (ES.interfered (es_fault w));
    [apply shrinks_same; reflexivity | ].
  destruct (docs w !! ("articles", docId));
    [ | apply shrinks_same; reflexivity].
  split; [reflexivity | ]. split; [cbn; eauto | ]. split.
  - intros key src. cbn. change (docs (es_next w)) with (docs w).
    rewrite lookup_delete_Some. tauto.
  - intros [index k] Hk. cbn in *. change (docs (es_next w)) with (docs w).
    apply lookup_delete_ne. congruence.
Qed.

Lemma antitone_cleanOutdated_row a dc : antitone (cleanOutdated_row a dc).
Proof.
  unfold cleanOutdated_row.
  apply antitone_bind; [apply antitone_time_Now | ].
  intros now. destruct (_ <? _); [ | apply antitone_ret].
  apply antitone_bind; [apply antitone_Exec_delete_Articles | ].
  intros [e | ]; [apply antitone_log_Fatal | ].
  apply antitone_bind; [apply antitone_ES_Delete | ].
  intros [res [e | ]]; [apply antitone_log_Fatal | ].
  apply antitone_bind; [apply antitone_deref | ].
  intros r. destruct (IsError r); [ | apply antitone_ret].
  destruct (io_ReadAll r) as [b [msg | ]]; apply antitone_log_Fatal.
Qed.

Lemma antitone_cleanOutdated_rows rows :
  forall sc dc, antitone (cleanOutdated_rows rows sc dc).
Proof.
  induction rows as [| a rest IH]; intros sc dc; cbn [cleanOutdated_rows].
  - apply antitone_ret.
  - apply antitone_bind; [apply antitone_cleanOutdated_row | ].
    intros dc'. apply IH.
Qed.

(** X11.  A sweep of the reaper, however it ends, writes nothing: the
    sites are what they were, every article and every document that is
    there afterwards was there before and is unchanged, and outside the
    index of the articles no document is touched. *)
Theorem X11_cleanOutdated_only_deletes_articles (w : World) :
  shrinks w (final (cleanOutdated w)).
Proof.
  revert w. fold (antitone cleanOutdated). unfold cleanOutdated.
  apply antitone_bind; [apply antitone_emit | ]. intros _.
  apply antitone_bind; [apply antitone_Query_Articles | ].
  intros [rows [e | ]]; [apply antitone_log_Fatal | ].
  apply antitone_bind; [apply antitone_cleanOutdated_rows | ].
  intros [sc dc]. apply antitone_emit.
Qed.

(** ** A sweep needs the documents of the rows it deletes *)

Lemma cleanOutdated_row_needs_doc a dc w dc' w1 :
  outdated w a = true ->
  cleanOutdated_row a dc w = Returns dc' w1 ->
  is_Some (docs w !! ("articles", id a)).
Proof.
  intros Hout. rewrite cleanOutdated_row_eq, Hout. unfold bind.
  rewrite Exec_delete_Articles_eq.
  destruct (db_fault _); cbn [log_Fatal]; try discriminate;
    unfold delete_from_index, bind; rewrite ES_Delete_eq;
    (destruct (ES.interfered _) as [r | ] eqn:Hf;
     [apply interfered_shape in Hf as [[e ->] | (res & -> & HE)];
      cbn [deref fst snd]; try discriminate;
      rewrite HE; unfold io_ReadAll; destruct (BodyErr res); discriminate
     | ]);
    match goal with
    | |- context [docs ?W !! _] => change (docs W) with (docs w)
    end;
    (destruct (docs w !! ("articles", id a)); [eauto | discriminate]).
Qed.

Lemma cleanOutdated_rows_need_docs rows :
  forall sc dc w r w',
    NoDup (id <$> rows) ->
    cleanOutdated_rows rows sc dc w = Returns r w' ->
    forall i a,
      rows !! i = Some a -> outdated_at w i a = true ->
      is_Some (docs w !! ("articles", id a)).
Proof.
  induction rows as [| a rest IH]; intros sc dc w r w' Hnd H i b Hi Hout.
  - discriminate.
  - rewrite cleanOutdated_rows_cons in H.
    rewrite fmap_cons in Hnd. apply NoDup_cons in Hnd as [Hna Hnd].
    destruct (cleanOutdated_row a dc w) as [dc1 w1 | w1 | w1] eqn:E;
      try discriminate.
    destruct i as [| j].
    + injection Hi as <-. rewrite outdated_at_0 in Hout.
      eapply cleanOutdated_row_needs_doc; eassumption.
    + cbn in Hi.
      assert (id b <> id a) as Hne.
      { intros Heq. apply Hna. rewrite <- Heq.
        apply list_elem_of_fmap_2. eapply list_elem_of_lookup_2, Hi. }
      apply cleanOutdated_row_Returns in E as (He & Hk & _ & _ & Hd).
      assert (is_Some (docs w1 !! ("articles", id b))) as Hb.
      { eapply (IH _ _ _ _ _ Hnd H j b Hi).
        rewrite <- Hout. unfold outdated_at. rewrite He, Hk.
        do 3 f_equal. lia. }
      rewrite Hd in Hb. destruct (outdated w a); [ | exact Hb].
      rewrite lookup_delete_ne in Hb by congruence. exact Hb.
Qed.

(** X12.  A sweep of the reaper returns only if the index has the
    document of every scanned row that is outdated: the deletion of a
    document that is missing is answered with 404, which the reaper
    treats as fatal. *)
Theorem X12_sweep_returns_only_if_documents_exist (w w' : World) (i : nat)
    (a : ArticleIdAndPubDate) :
  cleanOutdated w = Returns tt w' ->
  scanned_rows w !! i = Some a ->
  outdated_at w i a = true ->
  is_Some (docs w !! ("articles", id a)).
Proof.
  intros H Hi Hout. rewrite cleanOutdated_eq in H.
  destruct (query_error w); [discriminate | ].
  destruct (cleanOutdated_rows _ 0 0 _) as [[sc dc] w1 | w1 | w1] eqn:E;
    try discriminate.
  eapply (cleanOutdated_rows_need_docs _ _ _ _ _ _
            (scanned_rows_NoDup w) E i a Hi).
  exact Hout.
Qed.

Lemma X12_sweep_returns_only_if_documents_exist_witness :
  is_Some (docs Examples.reap_world !! ("articles", "old")).
Proof.
  apply (X12_sweep_returns_only_if_documents_exist Examples.reap_world
           (final (cleanOutdated Examples.reap_world)) 0
           {| id := "old";
              pubDate := {| NullTime_Time := 0; NullTime_Valid := true |} |});
    vm_compute; reflexivity.
Defined.

(** ** Rows without a publication date *)

(** X13.  A row whose [pubdate] is NULL is scanned as the zero [Time],
    so it counts as outdated as soon as the clock reads more than three
    days past January 1 of the year 1: a sweep that scans every row and
    returns has deleted it from the store and from the index. *)
Theorem X13_rows_without_pubdate_are_reaped (w w' : World) (k : string)
    (r : ArticleRow) :
  cleanOutdated w = Returns tt w' ->
  db_fault w = DbOk ->
  articles w !! k = Some r ->
  article_pubdate r = None ->
  (forall n, zeroTime + articleThreshold < clock (env w) n) ->
  articles w' !! k = None /\ docs w' !! ("articles", k) = None.
Proof.
  intros H Hdb Hk Hnull Hclock. rewrite cleanOutdated_eq in H.
  assert (query_error w = None) as Hq
    by (unfold query_error; rewrite Hdb; reflexivity).
  rewrite Hq in H.
  destruct (cleanOutdated_rows _ 0 0 _) as [[sc dc] w1 | w1 | w1] eqn:E;
    try discriminate.
  injection H as <-.
  apply cleanOutdated_rows_store in E as (_ & _ & _ & _ & Hrows);
    [ | apply scanned_rows_NoDup].
  assert (exists i, scanned_rows w !! i = Some (DB.Scan (k, r))) as [i Hi].
  { unfold scanned_rows. rewrite Hdb.
    apply list_elem_of_lookup_1, list_elem_of_fmap_2.
    apply elem_of_map_to_list. exact Hk. }
  specialize (Hrows i _ Hi).
  assert (outdated_at (after_query w) i (DB.Scan (k, r)) = true) as Hout.
  { unfold outdated_at. rewrite threshold_Time_Sub. cbn. rewrite Hnull. cbn.
    apply Z.ltb_lt. specialize (Hclock (ticks w + i)%nat). lia. }
  rewrite Hout in Hrows. exact Hrows.
Qed.

Lemma X13_rows_without_pubdate_are_reaped_witness :
  let w :=
    with_articles
      {[ "old" := {| article_title := "t"; article_link := "l";
                     article_description := "d"; article_pubdate := None;
                     article_site_id := "s" |} ]}
      Examples.reap_world in
  articles (final (cleanOutdated w)) !! "old" = None
  /\ docs (final (cleanOutdated w)) !! ("articles", "old") = None.
Proof.
  intros w.
  apply (X13_rows_without_pubdate_are_reaped w (final (cleanOutdated w))
           "old"
           {| article_title := "t"; article_link := "l";
              article_description := "d"; article_pubdate := None;
              article_site_id := "s" |}).
  - vm_compute. reflexivity.
  - reflexivity.
  - vm_compute. reflexivity.
  - reflexivity.
  - intros n. vm_compute. reflexivity.
Defined.

(** ** When a feed task ends the process *)










(** ** The shape of an id *)

Module IdFacts.
Import Base64 Base64Facts.

Lemma encode_sextet_id_char v k : 0 <= k -> id_char (encode (sextet v k)) = true.
Proof.
  intros Hk. pose proof (sextet_range v k Hk) as Hr.
  assert (forallb (fun n => id_char (encode (Z.of_nat n))) (seq 0 64) = true)
    as Hall by (vm_compute; reflexivity).
  rewrite forallb_forall in Hall.
  specialize (Hall (Z.to_nat (sextet v k))).
  rewrite Z2Nat.id in Hall by lia. apply Hall, in_seq. lia.
Qed.

Lemma EncodeToString_shape_bounded (n : nat) :
  forall x : string,
    (String.length x <= n)%nat ->
    String.length (EncodeToString x) = (4 * ((String.length x + 2) / 3))%nat
    /\ all_chars id_char (EncodeToString x) = true.
Proof.
  induction n as [| n IH]; intros x Hlen.
  - destruct x; [split; reflexivity | cbn in Hlen; lia].
  - destruct x as [| a0 [| a1 [| a2 x]]];
      cbn [EncodeToString all_chars String.length]; cbv zeta;
      rewrite ?encode_sextet_id_char by lia; try (split; reflexivity).
    destruct (IH x) as [Hl Hc]; [cbn in Hlen; lia | ].
    rewrite Hl, Hc. split; [ | reflexivity].
    replace (S (S (S (String.length x))) + 2)%nat
      with (String.length x + 2 + 1 * 3)%nat by lia.
    rewrite Nat.div_add by lia. lia.
Qed.

End IdFacts.

(** X15.  An id is made of letters, digits, [-], [_] and the padding
    [=] only, and has four characters for every three bytes of the key,
    the last group padded. *)
Theorem X15_deriveId_is_url_safe_and_padded (x : string) :
  String.length (deriveId x) = (4 * ((String.length x + 2) / 3))%nat
  /\ all_chars id_char (deriveId x) = true.
Proof.
  apply (IdFacts.EncodeToString_shape_bounded (String.length x)). lia.
Qed.

(** ** What a feed task leaves behind when nothing fails from outside *)

Lemma upsert_Articles_shows articleId title link description ts siteId t :
  exists r,
    DB.upsert_Articles articleId title link description ts siteId t
    !! articleId = Some r
    /\ article_title r = title /\ article_description r = description.
Proof.
  unfold DB.upsert_Articles.
  destruct (t !! articleId); rewrite lookup_insert_eq;
    eexists; repeat split; reflexivity.
Qed.

Lemma upsert_Articles_ne articleId title link description ts siteId t k :
  k <> articleId ->
  DB.upsert_Articles articleId title link description ts siteId t !! k
  = t !! k.
Proof.
  intros Hne. unfold DB.upsert_Articles.
  destruct (t !! articleId); apply lookup_insert_ne; congruence.
Qed.

Lemma upsert_Sites_shows siteId feedUrl title link description t :
  exists r,
    DB.upsert_Sites siteId feedUrl title link description t !! siteId
    = Some r
    /\ site_title r = title /\ site_description r = description.
Proof.
  unfold DB.upsert_Sites.
  destruct (t !! siteId); rewrite lookup_insert_eq;
    eexists; repeat split; reflexivity.
Qed.

Lemma fk_satisfied w articleId siteId :
  is_Some (sites w !! siteId) -> DB.fk_violated w articleId siteId = false.
Proof.
  intros [r Hr]. unfold DB.fk_violated. rewrite Hr.
  rewrite (bool_decide_eq_false_2 (Some r = None)) by discriminate.
  apply andb_false_r.
Qed.

Lemma item_id_inj a b : item_id a = item_id b -> Item_Link a = Item_Link b.
Proof. apply Base64Facts.EncodeToString_inj. Qed.

Lemma last_of_link_nil a : ~ last_of_link [] a.
Proof. intros (pre & post & H & _). destruct pre; discriminate. Qed.

(** The items of a feed in a calm world whose store has the site: the
    run returns, the rows and the documents of the other ids are what
    they were, and the last item of each link shows. *)
Lemma pushArticles_items_calm e siteId items :
  forall w,
    calm e w -> is_Some (sites w !! siteId) ->
    exists w',
      pushArticles_items siteId items w = Returns tt w'
      /\ calm e w' /\ sites w' = sites w
      /\ (forall k,
            k ∉ item_id <$> written e items ->
            articles w' !! k = articles w !! k
            /\ docs w' !! ("articles", k) = docs w !! ("articles", k))
      /\ (forall key, key.1 <> "articles" -> docs w' !! key = docs w !! key)
      /\ (forall a, last_of_link (written e items) a -> article_shows w' a).
Proof.
  induction items as [| a rest IH]; intros w Hw Hsite.
  - exists w. split; [reflexivity | ]. split; [exact Hw | ].
    split; [reflexivity | ]. split; [auto | ]. split; [auto | ].
    intros a Ha. destruct (last_of_link_nil a Ha).
  - assert (He : env w = e) by apply Hw.
    cbn [pushArticles_items written]. fold (item_empty a).
    destruct (item_empty a) eqn:Ea.
    { eexists. split; [reflexivity | ]. split; [exact Hw | ].
      split; [reflexivity | ]. split; [auto | ]. split; [auto | ].
      intros b Hb. destruct (last_of_link_nil b Hb). }
    cbv zeta. unfold bind, pushArticleToDB.
    destruct (Exec_upsert_Articles_calm e (deriveId (Item_Link a))
                (sanitize (Item_Title a)) (sanitize (Item_Link a))
                (sanitize (Item_Description a)) (sanitize (Item_PubDate a))
                siteId w Hw)
      as (err & w1 & -> & Hw1 & Hs1 & Hd1 & Herr).
    destruct err as [err | ].
    + destruct Herr as [Ha1 [Hts | Hfk]];
        [ | rewrite fk_satisfied in Hfk by exact Hsite; discriminate].
      rewrite He in Hts. rewrite Hts.
      eexists. split; [reflexivity | ]. split; [exact Hw1 | ].
      split; [exact Hs1 | ]. cbn [articles docs record].
      rewrite Ha1, Hd1. split; [auto | ]. split; [auto | ].
      intros b Hb. destruct (last_of_link_nil b Hb).
    + destruct Herr as (ts & Hts & Hfk & Ha1).
      rewrite He in Hts. rewrite Hts. rewrite pushArticleToES_eq.
      destruct (pushToES_calm e "articles" (deriveId (Item_Link a))
                  (sanitize (Item_Title a)) (sanitize (Item_Description a))
                  w1 Hw1)
        as (w2 & -> & Hw2 & Hd2 & Hs2 & Ha2).
      destruct (IH w2 Hw2) as (w' & E & Hw' & Hs' & Hframe & Hother & Hshows).
      { rewrite Hs2, Hs1. exact Hsite. }
      exists w'. split; [exact E | ]. split; [exact Hw' | ].
      split; [congruence | ]. split; [ | split].
      * intros k Hk. rewrite fmap_cons, not_elem_of_cons in Hk.
        destruct Hk as [Hne Hk]. destruct (Hframe k Hk) as [-> ->].
        rewrite Ha2, Ha1, Hd2, Hd1. split.
        -- apply upsert_Articles_ne. exact Hne.
        -- unfold es_upsert. apply lookup_insert_ne.
           unfold item_id in Hne. congruence.
      * intros key Hkey. rewrite Hother by exact Hkey.
        rewrite Hd2, Hd1. unfold es_upsert. apply lookup_insert_ne.
        intros <-. apply Hkey. reflexivity.
      * intros b (pre & post & H & Hpost).
        destruct pre as [| p pre]; cbn in H.
        -- injection H as <- <-.
           assert (item_id a ∉ item_id <$> written e rest) as Hnot.
           { intros Hin.
             apply list_elem_of_fmap in Hin as (c & Hc & Hin).
             rewrite Forall_forall in Hpost.
             apply (Hpost c Hin). symmetry. apply item_id_inj, Hc. }
           destruct (Hframe _ Hnot) as [HA HD].
           unfold article_shows. rewrite HA, HD, Ha2, Ha1, Hd2, Hd1.
           split; [apply upsert_Articles_shows | ].
           destruct (es_upsert_upserted "articles" (item_id a)
                       (sanitize (Item_Title a))
                       (sanitize (Item_Description a)) (docs w))
             as [(src' & H1 & H2 & H3 & _) _].
           eauto.
        -- injection H as -> H. apply Hshows.
           exists pre, post. split; assumption.
Qed.

Lemma pushSite_calm_accepted e feedUrl data w :
  calm e w ->
  channel_rejected (Rss_Channel data) = false ->
  exists w1,
    pushSite feedUrl data w = Returns (deriveId feedUrl, None) w1
    /\ calm e w1 /\ articles w1 = articles w
    /\ sites w1
       = DB.upsert_Sites (deriveId feedUrl) feedUrl
           (sanitize (Channel_Title (Rss_Channel data)))
           (sanitize (Channel_Link (Rss_Channel data)))
           (sanitize (Channel_Description (Rss_Channel data)))
           (sites w)
    /\ docs w1
       = es_upsert "sites" (deriveId feedUrl)
           (sanitize (Channel_Title (Rss_Channel data)))
           (sanitize (Channel_Description (Rss_Channel data)))
           (docs w).
Proof.
  intros Hw Hrej. unfold pushSite. cbv zeta.
  fold (channel_rejected (Rss_Channel data)). rewrite Hrej.
  unfold bind, pushSiteToDB.
  destruct (Exec_upsert_Sites_calm e (deriveId feedUrl) feedUrl
              (sanitize (Channel_Title (Rss_Channel data)))
              (sanitize (Channel_Link (Rss_Channel data)))
              (sanitize (Channel_Description (Rss_Channel data))) w Hw)
    as (w1 & -> & Hw1 & Hs & Ha & Hd).
  rewrite pushSiteToES_eq.
  destruct (pushToES_calm e "sites" (deriveId feedUrl)
              (sanitize (Channel_Title (Rss_Channel data)))
              (sanitize (Channel_Description (Rss_Channel data))) w1 Hw1)
    as (w2 & -> & Hw2 & Hd2 & Hs2 & Ha2).
  eexists. split; [reflexivity | ]. split; [exact Hw2 | ].
  split; [congruence | ]. split; congruence.
Qed.

(** A feed task in a calm world, on a feed that is served and whose
    channel is accepted: the site is written, then the items. *)
Lemma feedTask_calm e url data w :
  calm e w ->
  web e url = Some data ->
  channel_rejected (Rss_Channel data) = false ->
  exists wa w',
    feedTask url w = Returns tt w'
    /\ calm e wa /\ calm e w'
    /\ articles wa = articles w
    /\ sites wa
       = DB.upsert_Sites (deriveId url) url
           (sanitize (Channel_Title (Rss_Channel data)))
           (sanitize (Channel_Link (Rss_Channel data)))
           (sanitize (Channel_Description (Rss_Channel data)))
           (sites w)
    /\ docs wa
       = es_upsert "sites" (deriveId url)
           (sanitize (Channel_Title (Rss_Channel data)))
           (sanitize (Channel_Description (Rss_Channel data)))
           (docs w)
    /\ sites w' = sites wa
    /\ grows wa w'
    /\ (forall k,
          k ∉ item_id <$> written e (Channel_Items (Rss_Channel data)) ->
          articles w' !! k = articles wa !! k
          /\ docs w' !! ("articles", k) = docs wa !! ("articles", k))
    /\ (forall key, key.1 <> "articles" -> docs w' !! key = docs wa !! key)
    /\ (forall a,
          last_of_link (written e (Channel_Items (Rss_Channel data))) a ->
          article_shows w' a).
Proof.
  intros Hw Hweb Hrej.
  assert (He : env w = e) by apply Hw.
  destruct (pushSite_calm_accepted e url data
              (record (HttpGet url (Some data)) w) Hw Hrej)
    as (wa & Ea & Hwa & Ha & Hs & Hd).
  change (articles (record (HttpGet url (Some data)) w)) with (articles w)
    in Ha.
  change (sites (record (HttpGet url (Some data)) w)) with (sites w) in Hs.
  change (docs (record (HttpGet url (Some data)) w)) with (docs w) in Hd.
  destruct (pushArticles_items_calm e (deriveId url)
              (Channel_Items (Rss_Channel data)) wa Hwa)
    as (w' & E & Hw' & Hs' & Hframe & Hother & Hshows).
  { rewrite Hs.
    destruct (upsert_Sites_shows (deriveId url) url
                (sanitize (Channel_Title (Rss_Channel data)))
                (sanitize (Channel_Link (Rss_Channel data)))
                (sanitize (Channel_Description (Rss_Channel data)))
                (sites w)) as (r & -> & _).
    eauto. }
  exists wa, w'. split.
  { unfold feedTask.
    rewrite (bind_Returns _ _ w data (record (HttpGet url (Some data)) w))
      by (rewrite scrapeRss_eq, He, Hweb; reflexivity).
    rewrite (bind_Returns _ _ _ _ _ Ea). exact E. }
  split; [exact Hwa | ]. split; [exact Hw' | ].
  split; [exact Ha | ]. split; [exact Hs | ]. split; [exact Hd | ].
  split; [exact Hs' | ]. split; [ | auto].
  pose proof (monotone_pushArticles_items (deriveId url)
                (Channel_Items (Rss_Channel data)) wa) as Hg.
  rewrite E in Hg. exact Hg.
Qed.

(** X16.  When nothing fails from outside and the feed is served with a
    channel that has a title and a link, the feed task returns; the
    store and the index then show the title and the description of the
    channel under the id of the feed, and, for every link among the
    items before the first one that has an empty field or a date the
    store cannot read, the title and the description of the last item
    with that link. *)
Theorem X16_feedTask_stores_the_feed (url : string) (data : Rss)
    (w : World) :
  db_faults w = [] -> es_faults w = [] ->
  web (env w) url = Some data ->
  channel_rejected (Rss_Channel data) = false ->
  exists w',
    feedTask url w = Returns tt w'
    /\ site_shows w' url (Rss_Channel data)
    /\ forall a,
         last_of_link (written (env w) (Channel_Items (Rss_Channel data))) a ->
         article_shows w' a.
Proof.
  intros Hdb Hes Hweb Hrej.
  assert (Hw : calm (env w) w) by (repeat split; assumption).
  destruct (feedTask_calm (env w) url data w Hw Hweb Hrej)
    as (wa & w' & E & _ & _ & _ & Hs & Hd & Hs' & _ & _ & Hother & Hshows).
  exists w'. split; [exact E | ]. split; [ | exact Hshows].
  unfold site_shows. rewrite Hs', Hs, Hother, Hd by discriminate.
  split; [apply upsert_Sites_shows | ].
  destruct (es_upsert_upserted "sites" (deriveId url)
              (sanitize (Channel_Title (Rss_Channel data)))
              (sanitize (Channel_Description (Rss_Channel data))) (docs w))
    as [(src' & H1 & H2 & H3 & _) _].
  eauto.
Qed.

Lemma X16_feedTask_stores_the_feed_witness :
  exists w',
    feedTask "http://a"
      (Examples.world0 [Examples.item1; Examples.item3] 0)
    = Returns tt w'
    /\ article_shows w' Examples.item3.
Proof.
  destruct (X16_feedTask_stores_the_feed "http://a"
              (Examples.feed [Examples.item1; Examples.item3])
              (Examples.world0 [Examples.item1; Examples.item3] 0)
              eq_refl eq_refl eq_refl eq_refl) as (w' & E & _ & H).
  exists w'. split; [exact E | ]. apply H.
  exists [Examples.item1], []. split; [vm_compute; reflexivity | constructor].
Defined.

(** ** A feed task run again *)

Lemma feedTask_unserved url w :
  web (env w) url = None ->
  feedTask url w
  = Exits (record (Logged (LogFetchError url)) (record (HttpGet url None) w)).
Proof.
  intros Hweb. unfold feedTask. apply bind_Exits.
  rewrite scrapeRss_eq, Hweb. reflexivity.
Qed.

Lemma feedTask_rejected url data w :
  web (env w) url = Some data ->
  channel_rejected (Rss_Channel data) = true ->
  feedTask url w
  = Returns tt
      (record (Logged (LogError EmptyStringError))
         (record (HttpGet url (Some data)) w)).
Proof.
  intros Hweb Hrej. unfold feedTask.
  rewrite (bind_Returns _ _ w data (record (HttpGet url (Some data)) w))
    by (rewrite scrapeRss_eq, Hweb; reflexivity).
  rewrite (bind_Returns _ _ _ ("", Some EmptyStringError)
             (record (HttpGet url (Some data)) w)); [reflexivity | ].
  unfold pushSite. cbv zeta. fold (channel_rejected (Rss_Channel data)).
  rewrite Hrej. reflexivity.
Qed.

Lemma last_of_link_exists items :
  forall a,
    a ∈ items ->
    exists b, last_of_link items b /\ Item_Link b = Item_Link a.
Proof.
  induction items as [| c rest IH]; intros a Hin.
  - apply elem_of_nil in Hin. destruct Hin.
  - destruct (decide (Item_Link a ∈ Item_Link <$> rest)) as [Hlater | Hno].
    + apply list_elem_of_fmap in Hlater as (a' & Ha' & Hin').
      destruct (IH a' Hin') as (b & (pre & post & -> & Hpost) & Hb).
      exists b. split; [ | congruence].
      exists (c :: pre), post. split; [reflexivity | exact Hpost].
    + apply elem_of_cons in Hin as [-> | Hin].
      * exists c. split; [ | reflexivity].
        exists [], rest. split; [reflexivity | ].
        rewrite Forall_forall. intros x Hx Heq. apply Hno.
        rewrite <- Heq. apply list_elem_of_fmap_2. exact Hx.
      * destruct Hno. apply list_elem_of_fmap_2. exact Hin.
Qed.

(** X17.  When nothing fails from outside, a feed task that is run a
    second time on the same feed changes nothing: the store and the
    index are as after the first run. *)
Theorem X17_feedTask_twice_is_once (url : string) (w : World) :
  db_faults w = [] -> es_faults w = [] ->
  let w1 := final (feedTask url w) in
  let w2 := final (feedTask url w1) in
  sites w2 = sites w1 /\ articles w2 = articles w1 /\ docs w2 = docs w1.
Proof.
  intros Hdb Hes w1 w2.
  assert (Hw : calm (env w) w) by (repeat split; assumption).
  destruct (web (env w) url) as [data | ] eqn:Hweb.
  2:{ subst w1 w2. rewrite (feedTask_unserved url w Hweb). cbn [final].
      rewrite feedTask_unserved by exact Hweb. repeat split. }
  destruct (channel_rejected (Rss_Channel data)) eqn:Hrej.
  { subst w1 w2. rewrite (feedTask_rejected url data w Hweb Hrej).
    cbn [final]. rewrite (feedTask_rejected url data) by assumption.
    repeat split. }
  destruct (feedTask_calm (env w) url data w Hw Hweb Hrej)
    as (wa & v1 & E1 & Hwa & Hv1 & Ha_a & Hs_a & Hd_a & Hs1 & Hg1 & Hframe1
        & Hother1 & Hshows1).
  destruct (feedTask_calm (env w) url data v1 Hv1 Hweb Hrej)
    as (wb & v2 & E2 & Hwb & Hv2 & Ha_b & Hs_b & Hd_b & Hs2 & Hg2 & Hframe2
        & Hother2 & Hshows2).
  subst w1 w2. rewrite E1. cbn [final]. rewrite E2. cbn [final].
  destruct Hg2 as (_ & Hga & Hgd).
  assert (Hart : forall k,
            docs wb !! ("articles", k) = docs v1 !! ("articles", k)).
  { intros k. rewrite Hd_b. unfold es_upsert. apply lookup_insert_ne.
    discriminate. }
  split; [ | split].
  - rewrite Hs2, Hs_b, Hs1, Hs_a. apply upsert_Sites_idem.
  - apply map_eq. intros k.
    destruct (decide
                (k ∈ item_id
                   <$> written (env w) (Channel_Items (Rss_Channel data))))
      as [Hin | Hnin].
    + apply list_elem_of_fmap in Hin as (a & -> & Hin).
      destruct (last_of_link_exists _ a Hin) as (b & Hb & Hlink).
      assert (item_id a = item_id b) as ->
        by (unfold item_id; rewrite Hlink; reflexivity).
      destruct (Hshows1 b Hb) as [(r1 & Hr1 & Ht1 & Hdesc1) _].
      destruct (Hshows2 b Hb) as [(r2 & Hr2 & Ht2 & Hdesc2) _].
      rewrite Hr1, Hr2. f_equal.
      rewrite Ha_b in Hga.
      destruct (Hga (item_id b) r1 Hr1) as (r' & Hr' & Hl & Hp & Hi).
      rewrite Hr2 in Hr'. injection Hr' as <-.
      destruct r1, r2. cbn in *. congruence.
    + destruct (Hframe2 k Hnin) as [-> _]. rewrite Ha_b. reflexivity.
  - apply map_eq. intros [index k].
    destruct (decide (index = "articles")) as [-> | Hidx].
    + destruct (decide
                  (k ∈ item_id
                     <$> written (env w)
                           (Channel_Items (Rss_Channel data))))
        as [Hin | Hnin].
      * apply list_elem_of_fmap in Hin as (a & -> & Hin).
        destruct (last_of_link_exists _ a Hin) as (b & Hb & Hlink).
        assert (item_id a = item_id b) as ->
          by (unfold item_id; rewrite Hlink; reflexivity).
        destruct (Hshows1 b Hb) as [_ (s1 & Hsrc1 & Ht1 & Hdesc1)].
        destruct (Hshows2 b Hb) as [_ (s2 & Hsrc2 & Ht2 & Hdesc2)].
        rewrite Hsrc1, Hsrc2. f_equal.
        destruct (Hgd ("articles", item_id b) s1) as (s' & Hs' & Hf).
        { rewrite Hart. exact Hsrc1. }
        rewrite Hsrc2 in Hs'. injection Hs' as <-.
        apply map_eq. intros f.
        destruct (decide (f = "title")) as [-> | Hft];
          [congruence | ].
        destruct (decide (f = "description")) as [-> | Hfd];
          [congruence | ].
        apply Hf; assumption.
      * destruct (Hframe2 k Hnin) as [_ ->]. apply Hart.
    + rewrite Hother2 by exact Hidx. rewrite Hd_b.
      destruct (decide ((index, k) = ("sites", deriveId url)))
        as [Heq | Hne].
      * rewrite Heq. unfold es_upsert at 1. rewrite lookup_insert_eq.
        rewrite (Hother1 ("sites", deriveId url)) by discriminate.
        rewrite Hd_a. unfold es_upsert. rewrite lookup_insert_eq.
        cbn [default from_option Datatypes.id]. rewrite merged_idem.
        reflexivity.
      * unfold es_upsert. apply lookup_insert_ne. congruence.
Qed.

Lemma X17_feedTask_twice_is_once_witness :
  let w1 :=
    final (feedTask "http://a"
             (Examples.world0 [Examples.item1; Examples.item3] 0)) in
  let w2 := final (feedTask "http://a" w1) in
  sites w2 = sites w1 /\ articles w2 = articles w1 /\ docs w2 = docs w1.
Proof.
  exact (X17_feedTask_twice_is_once "http://a"
           (Examples.world0 [Examples.item1; Examples.item3] 0)
           eq_refl eq_refl).
Defined.

(** ** What the index helpers report *)

Lemma ES_Update_answered index docId body w r err w1 :
  ES.Update index docId body w = Returns (Some r, err) w1 -> err = None.
Proof.
  unfold ES.Update, bind, next_es_fault, emit, ret.
  destruct (ES.interfered (es_fault w)) as [[res0 err0] | ] eqn:Hf.
  - apply interfered_shape in Hf as [[e Hf] | (res & Hf & _)];
      injection Hf as -> ->; intros [= <- <-]; try discriminate.
    reflexivity.
  - destruct (ES.partial_doc body), (docs (es_next w) !! (index, docId));
      intros [= <- <-]; reflexivity.
Qed.

Lemma pushToES_reported index docId title description w :
  exists es,
    trace (final (pushToES index docId title description w))
    = (trace w ++ es)%list
    /\ forall err w',
         pushToES index docId title description w = Returns err w' ->
         err = reported es.
Proof.
  unfold pushToES. cbv zeta. unfold bind.
  change (Marshal_ESUpdatePayload _) with (update_body title description).
  change (Marshal_ESPayload _) with (create_body title description).
  destruct (ES_Update_Returns index docId (update_body title description) w)
    as (res & err & w1 & E & Ht).
  rewrite E. cbv beta iota.
  destruct res as [r | ]; cbn [deref].
  2:{ eexists. split; [exact Ht | ]. discriminate. }
  apply ES_Update_answered in E. subst err.
  destruct (IsError r) eqn:HE;
    [destruct (StatusCode r =? 404) eqn:H404 | ].
  - destruct (ES_Create_Returns index docId
                (create_body title description) w1)
      as (res' & err' & w2 & E' & Ht').
    rewrite E'. cbv beta iota.
    exists [EsUpdate index docId (update_body title description) (Some r) None;
            EsCreate index docId (create_body title description) res' err'].
    assert (Htr : trace w2
                  = (trace w
                     ++ [EsUpdate index docId (update_body title description)
                           (Some r) None;
                         EsCreate index docId
                           (create_body title description) res' err'])%list).
    { rewrite Ht', Ht, <- app_assoc. reflexivity. }
    destruct res' as [r' | ]; cbn [deref reported].
    + destruct (IsError r'); [destruct (io_ReadAll r') as [b [e | ]] | ];
        (split; [exact Htr | ]); intros e0 w' [= <- _]; reflexivity.
    + split; [exact Htr | ]. discriminate.
  - eexists. split; [exact Ht | ]. intros e0 w' [= <- _]. reflexivity.
  - eexists. split; [exact Ht | ]. intros e0 w' [= <- _]. reflexivity.
Qed.

(** X18.  What a helper returns is read off its calls to the index: the
    status and the body of the response to the create, when a create
    was made and answered with an error status and that body could be
    read; and [nil] in every other run that returns, whatever the index
    answered to the update. *)
Theorem X18_index_helpers_report_only_a_rejected_create
    (w : World) (docId title description : string) :
  (exists es,
     trace (final (pushArticleToES docId title description w))
     = (trace w ++ es)%list
     /\ forall err w',
          pushArticleToES docId title description w = Returns err w' ->
          err = reported es)
  /\ (exists es,
        trace (final (pushSiteToES docId title description w))
        = (trace w ++ es)%list
        /\ forall err w',
             pushSiteToES docId title description w = Returns err w' ->
             err = reported es).
Proof.
  split.
  - rewrite pushArticleToES_eq. apply pushToES_reported.
  - rewrite pushSiteToES_eq. apply pushToES_reported.
Qed.

Lemma X18_index_helpers_report_only_a_rejected_create_witness :
  let w :=
    with_es_faults [EsOk; EsRejects Examples.response500]
      (Examples.world0 [] 0) in
  exists es,
    trace (final (pushArticleToES "aHR0cDovL2EvMQ==" "I1" "D1" w))
    = (trace w ++ es)%list
    /\ reported es = Some (ESError 500 "unavailable").
Proof.
  intros w.
  destruct (X18_index_helpers_report_only_a_rejected_create w
              "aHR0cDovL2EvMQ==" "I1" "D1") as [(es & Ht & H) _].
  exists es. split; [exact Ht | ]. symmetry.
  apply (H _ (final (pushArticleToES "aHR0cDovL2EvMQ==" "I1" "D1" w))).
  vm_compute. reflexivity.
Defined.

(** ** How a sweep of the reaper ends *)

(** X19.  A sweep of the reaper never panics: it checks the error of
    every call before it uses the response, so it returns, or it ends
    the process after the fatal log line. *)
Theorem X19_sweep_returns_or_exits (w : World) :
  (exists w', cleanOutdated w = Returns tt w')
  \/ (exists w' l,
        cleanOutdated w = Exits w'
        /\ last (trace w') = Some (Logged l)).
Proof.
  pose proof (cleanOutdated_shape w) as H.
  destruct (cleanOutdated w) as [[] w' | w' | w'].
  - left. eauto.
  - destruct H.
  - right. destruct H as [(err & Ht) | (pre & e & l & Ht & _)].
    + exists w', (LogError err). split; [reflexivity | ].
      rewrite Ht.
      change [Logged LogCleanup; QueryArticles (Some err);
              Logged (LogError err)]
        with ([Logged LogCleanup; QueryArticles (Some err)]
              ++ [Logged (LogError err)])%list.
      rewrite app_assoc. apply last_snoc.
    + exists w', l. split; [reflexivity | ].
      rewrite Ht.
      change [e; Logged l] with ([e] ++ [Logged l])%list.
      rewrite !app_assoc. apply last_snoc.
Qed.

(** ** The store and the index stay in step *)

Lemma upsert_Sites_ne siteId feedUrl title link description t k :
  k <> siteId ->
  DB.upsert_Sites siteId feedUrl title link description t !! k = t !! k.
Proof.
  intros Hne. unfold DB.upsert_Sites.
  destruct (t !! siteId); apply lookup_insert_ne; congruence.
Qed.

(** X20.  When nothing fails from outside, a feed task keeps the store
    and the index in step: if every row had its document and every
    document its row before, so it is afterwards. *)
Theorem X20_feedTask_keeps_store_and_index_in_step (url : string)
    (w : World) :
  db_faults w = [] -> es_faults w = [] ->
  in_step w -> in_step (final (feedTask url w)).
Proof.
  intros Hdb Hes Hin.
  assert (Hw : calm (env w) w) by (repeat split; assumption).
  destruct (web (env w) url) as [data | ] eqn:Hweb;
    [ | rewrite (feedTask_unserved url w Hweb); exact Hin].
  destruct (channel_rejected (Rss_Channel data)) eqn:Hrej;
    [rewrite (feedTask_rejected url data w Hweb Hrej); exact Hin | ].
  destruct (feedTask_calm (env w) url data w Hw Hweb Hrej)
    as (wa & w' & E & _ & _ & Ha & Hs & Hd & Hs' & _ & Hframe & Hother
        & Hshows).
  rewrite E. cbn [final]. destruct Hin as [HS HA]. split; intros k.
  - rewrite Hs', Hs, (Hother ("sites", k)), Hd by discriminate.
    destruct (decide (k = deriveId url)) as [-> | Hne].
    + split; intros _.
      * unfold es_upsert. rewrite lookup_insert_eq. eauto.
      * destruct (upsert_Sites_shows (deriveId url) url
                    (sanitize (Channel_Title (Rss_Channel data)))
                    (sanitize (Channel_Link (Rss_Channel data)))
                    (sanitize (Channel_Description (Rss_Channel data)))
                    (sites w)) as (r & -> & _).
        eauto.
    + rewrite upsert_Sites_ne by exact Hne. unfold es_upsert.
      rewrite lookup_insert_ne by congruence. apply HS.
  - destruct (decide
                (k ∈ item_id
                   <$> written (env w) (Channel_Items (Rss_Channel data))))
      as [Hk | Hk].
    + apply list_elem_of_fmap in Hk as (a & -> & Hk).
      destruct (last_of_link_exists _ a Hk) as (b & Hb & Hlink).
      assert (item_id a = item_id b) as ->
        by (unfold item_id; rewrite Hlink; reflexivity).
      destruct (Hshows b Hb) as [(r & -> & _) (src & -> & _)].
      split; eauto.
    + destruct (Hframe k Hk) as [-> ->]. rewrite Ha, Hd.
      unfold es_upsert. rewrite lookup_insert_ne by discriminate. apply HA.
Qed.

Lemma X20_feedTask_keeps_store_and_index_in_step_witness :
  in_step
    (final (feedTask "http://a"
              (Examples.world0 [Examples.item1; Examples.item3] 0))).
Proof.
  apply (X20_feedTask_keeps_store_and_index_in_step "http://a"
           (Examples.world0 [Examples.item1; Examples.item3] 0));
    [reflexivity | reflexivity | ].
  split; intros k; cbn; rewrite !lookup_empty;
    split; intros [x Hx]; discriminate.
Defined.

(** X21.  A sweep of the reaper that returns keeps the store and the
    index in step: each row it deletes goes together with its
    document. *)
Theorem X21_sweep_keeps_store_and_index_in_step (w w' : World) :
  cleanOutdated w = Returns tt w' ->
  in_step w -> in_step w'.
Proof.
  intros H [HS HA]. rewrite cleanOutdated_eq in H.
  destruct (query_error w); [discriminate | ].
  destruct (cleanOutdated_rows _ 0 0 _) as [[sc dc] w1 | w1 | w1] eqn:E;
    try discriminate.
  injection H as <-.
  pose proof (antitone_cleanOutdated_rows (scanned_rows w) 0 0
                (after_query w)) as Hsh.
  rewrite E in Hsh. cbn [final] in Hsh.
  destruct Hsh as (Hs & _ & _ & Hother).
  apply cleanOutdated_rows_store in E as (_ & _ & _ & Hframe & Hrows);
    [ | apply scanned_rows_NoDup].
  change (in_step w1). split; intros k.
  - rewrite Hs, (Hother ("sites", k)) by discriminate. apply HS.
  - destruct (decide (k ∈ id <$> scanned_rows w)) as [Hk | Hk].
    + apply list_elem_of_fmap in Hk as (a & -> & Hk).
      apply list_elem_of_lookup_1 in Hk as [i Hi].
      specialize (Hrows i a Hi).
      destruct (outdated_at (after_query w) i a);
        destruct Hrows as [-> ->]; [ | apply HA].
      split; intros [x Hx]; discriminate.
    + destruct (Hframe k Hk) as [-> ->]. apply HA.
Qed.

Lemma X21_sweep_keeps_store_and_index_in_step_witness :
  in_step (final (cleanOutdated Examples.reap_world)).
Proof.
  apply (X21_sweep_keeps_store_and_index_in_step Examples.reap_world);
    [vm_compute; reflexivity | ].
  unfold Examples.reap_world. split; intros k; cbn [sites articles docs].
  - rewrite lookup_insert_ne, lookup_singleton_ne, lookup_empty
      by discriminate.
    split; intros [x Hx]; discriminate.
  - destruct (decide (k = "old")) as [-> | Hold];
      [rewrite !lookup_insert_eq; split; eauto | ].
    rewrite !lookup_insert_ne by congruence.
    destruct (decide (k = "new")) as [-> | Hnew];
      [rewrite !lookup_singleton_eq; split; eauto | ].
    rewrite !lookup_singleton_ne by congruence.
    split; intros [x Hx]; discriminate.
Defined.
